(** * mcp-remote-non-pkce: the message-routing proxy and the classical
      OAuth broker, embedded from the TypeScript sources

    Strings are Rocq strings, one [ascii] per UTF-16 code unit (code units
    below 256).  Fallible code returns a [Completion]: a normal value or a
    thrown error.  Effects on the outside world (transports, the network,
    the file system, the browser) are explicit state or explicit oracles. *)

From Stdlib Require Import ZArith String Ascii List Bool Lia.
From stdpp Require Import base option countable gmap strings pretty.
Import ListNotations.

Local Open Scope Z_scope.

(* ===================================================================== *)
(** * Part I: definitions                                                 *)
(* ===================================================================== *)

(** ** The JavaScript fragment the sources rely on *)
Module JS.

(** A completion: [Normal v] or an exception. *)
Inductive Completion (E A : Type) : Type :=
| Normal (a : A)
| Throw (e : E).
Arguments Normal {E A} a.
Arguments Throw {E A} e.

Definition bind {E A B} (c : Completion E A) (k : A -> Completion E B)
  : Completion E B :=
  match c with
  | Normal a => k a
  | Throw e => Throw e
  end.

(** The classes of thrown values the sources distinguish with
    [instanceof]. [UnauthorizedError] extends [Error]. *)
Inductive ErrorClass := ClsError | ClsUnauthorizedError | ClsNotAnError.

Record Thrown := mkThrown {
  cls : ErrorClass;
  message : string;
  code : option string      (* NodeJS.ErrnoException.code *)
}.

Definition instanceofError (e : Thrown) : bool :=
  match cls e with ClsNotAnError => false | _ => true end.
Definition instanceofUnauthorizedError (e : Thrown) : bool :=
  match cls e with ClsUnauthorizedError => true | _ => false end.

(** [new Error(msg)] *)
Definition Error (msg : string) : Thrown := mkThrown ClsError msg None.

(** *** Strings *)

Fixpoint startsWith (p s : string) : bool :=
  match p, s with
  | EmptyString, _ => true
  | String a p', String b s' => Ascii.eqb a b && startsWith p' s'
  | String _ _, EmptyString => false
  end.

(** [s.includes(p)] *)
Fixpoint includes (s p : string) : bool :=
  startsWith p s ||
  match s with
  | EmptyString => false
  | String _ s' => includes s' p
  end.

(** The double quote, and a string between two of them. *)
Definition dquote : ascii := ascii_of_nat 34.
Definition quoted (s : string) : string :=
  String dquote (s +:+ String dquote EmptyString).

(** [s.split(sep)] for a one-character separator: never the empty list. *)
Fixpoint split (sep : ascii) (s : string) : list string :=
  match s with
  | EmptyString => [EmptyString]
  | String c rest =>
      if Ascii.eqb c sep then EmptyString :: split sep rest
      else match split sep rest with
           | seg :: segs => String c seg :: segs
           | [] => [String c EmptyString]
           end
  end.

(** [parts.join(sep)] *)
Fixpoint join (sep : string) (parts : list string) : string :=
  match parts with
  | [] => EmptyString
  | [p] => p
  | p :: rest => p +:+ sep +:+ join sep rest
  end.

Definition codeUnit (c : ascii) : Z := Z.of_N (N_of_ascii c).

Definition inRange (lo hi : Z) (c : ascii) : bool :=
  (lo <=? codeUnit c) && (codeUnit c <=? hi).

(** The class [\w] without the [u] flag: [A-Za-z0-9_]. *)
Definition isWordChar (c : ascii) : bool :=
  inRange 97 122 c || inRange 65 90 c || inRange 48 57 c || (codeUnit c =? 95).

(** Line terminators ([.] does not match them without the [s] flag);
    U+2028 and U+2029 lie outside the modelled code units. *)
Definition isLineTerminator (c : ascii) : bool :=
  (codeUnit c =? 10) || (codeUnit c =? 13).

(** ECMAScript [Canonicalize] with [ignoreCase] and without [u]: the
    one-code-unit upper-case mapping.  On code units below 256 the only
    pairs it identifies are a-z with A-Z and U+00E0..U+00FE (but U+00F7)
    with U+00C0..U+00DE; the images of U+00B5 and U+00FF lie outside the
    modelled range and equal the image of no other modelled unit, and
    U+00DF upper-cases to two units, so all three stay fixed. *)
Definition Canonicalize (c : ascii) : ascii :=
  if inRange 97 122 c || (inRange 224 254 c && negb (codeUnit c =? 247))
  then ascii_of_N (N_of_ascii c - 32)
  else c.

(** *** Regular expressions: the fragment [patternToRegex] produces

    A source [^ a1 ... an $] (flag [i]) whose atoms are a word character,
    an identity escape [\c] of a non-word character, or [.*]. *)
Inductive Atom :=
| Lit (c : ascii)
| AnyStar.

Definition RegExp := list Atom.

Fixpoint parseBody (s : string) : option RegExp :=
  match s with
  | EmptyString => None
  | String c rest =>
      if isWordChar c then cons (Lit c) <$> parseBody rest
      else if Ascii.eqb c "\" then
        match rest with
        | String d rest' =>
            if isWordChar d then None else cons (Lit d) <$> parseBody rest'
        | EmptyString => None
        end
      else if Ascii.eqb c "." then
        match rest with
        | String d rest' =>
            if Ascii.eqb d "*" then cons AnyStar <$> parseBody rest' else None
        | EmptyString => None
        end
      else if Ascii.eqb c "$" then
        match rest with
        | EmptyString => Some []
        | String _ _ => None
        end
      else None
  end.

(** [new RegExp(src, 'i')]; [None] is a source outside the fragment
    (for the engine: a [SyntaxError] or a construct not modelled). *)
Definition RegExp_new (src : string) : option RegExp :=
  match src with
  | String c rest => if Ascii.eqb c "^" then parseBody rest else None
  | EmptyString => None
  end.

(** [regex.test(s)]: backtracking match of the whole string. *)
Fixpoint test (r : RegExp) (s : string) : bool :=
  match r with
  | [] => match s with EmptyString => true | String _ _ => false end
  | Lit c :: r' =>
      match s with
      | String x s' => Ascii.eqb (Canonicalize c) (Canonicalize x) && test r' s'
      | EmptyString => false
      end
  | AnyStar :: r' =>
      (fix star (s : string) : bool :=
         test r' s ||
         match s with
         | String x s' => negb (isLineTerminator x) && star s'
         | EmptyString => false
         end) s
  end.

(** *** JSON values as JavaScript sees them

    Numbers are integers; an object is its list of own properties, each
    key once. *)
#[warnings="-register-all"]
Inductive JsVal :=
| VUndefined
| VNull
| VBool (b : bool)
| VNum (n : Z)
| VStr (s : string)
| VArr (items : list JsVal)
| VObj (fields : list (string * JsVal)).

(** [new TypeError(msg)]: an [Error]. *)
Definition TypeError (msg : string) : Thrown := mkThrown ClsError msg None.

(** [!!v] *)
Definition truthy (v : JsVal) : bool :=
  match v with
  | VUndefined | VNull | VBool false => false
  | VNum n => negb (n =? 0)
  | VStr s => negb (String.eqb s EmptyString)
  | _ => true
  end.

Fixpoint assoc (k : string) (fields : list (string * JsVal)) : JsVal :=
  match fields with
  | [] => VUndefined
  | (k', v) :: rest => if String.eqb k k' then v else assoc k rest
  end.

(** [{...fields, k: v}]: an existing key keeps its place. *)
Fixpoint assocSet (k : string) (v : JsVal) (fields : list (string * JsVal))
  : list (string * JsVal) :=
  match fields with
  | [] => [(k, v)]
  | (k', v') :: rest =>
      if String.eqb k k' then (k, v) :: rest else (k', v') :: assocSet k v rest
  end.

(** [v.k] for a property name that is not an index. *)
Definition getProp (v : JsVal) (k : string) : Completion Thrown JsVal :=
  match v with
  | VUndefined | VNull =>
      Throw (TypeError ("Cannot read properties of undefined (reading '" +:+ k +:+ "')"))
  | VObj fields => Normal (assoc k fields)
  | VArr items =>
      Normal (if String.eqb k "length" then VNum (Z.of_nat (length items)) else VUndefined)
  | VStr s =>
      Normal (if String.eqb k "length" then VNum (Z.of_nat (String.length s)) else VUndefined)
  | VBool _ | VNum _ => Normal VUndefined
  end.

(** [v?.k] *)
Definition getPropOpt (v : JsVal) (k : string) : JsVal :=
  match getProp v k with
  | Normal x => x
  | Throw _ => VUndefined
  end.

(** [String(v)], as template literals and [RegExp.prototype.test] coerce. *)
Fixpoint ToString (v : JsVal) : string :=
  match v with
  | VUndefined => "undefined"
  | VNull => "null"
  | VBool true => "true"
  | VBool false => "false"
  | VNum n => pretty n
  | VStr s => s
  | VArr items =>
      join "," (map (fun x => match x with
                              | VUndefined | VNull => EmptyString
                              | _ => ToString x
                              end) items)
  | VObj _ => "[object Object]"
  end.

(** *** [parseInt(s, 16)] and [digest('hex')] *)

Definition hexDigit (c : ascii) : option Z :=
  if inRange 48 57 c then Some (codeUnit c - 48)
  else if inRange 97 102 c then Some (codeUnit c - 87)
  else if inRange 65 70 c then Some (codeUnit c - 55)
  else None.

(** White space and line terminators among the modelled code units. *)
Definition isWhiteSpace (c : ascii) : bool :=
  inRange 9 13 c || (codeUnit c =? 32) || (codeUnit c =? 160).

Fixpoint trimStart (s : string) : string :=
  match s with
  | String c rest => if isWhiteSpace c then trimStart rest else s
  | EmptyString => s
  end.

(** The longest prefix of digits; [None] when there is none. *)
Fixpoint parseDigits (s : string) (acc : option Z) : option Z :=
  match s with
  | EmptyString => acc
  | String c rest =>
      match hexDigit c with
      | Some d => parseDigits rest (Some (16 * default 0 acc + d))
      | None => acc
      end
  end.

Definition stripHexPrefix (s : string) : string :=
  match s with
  | String a (String b rest) =>
      if Ascii.eqb a "0" && (Ascii.eqb b "x" || Ascii.eqb b "X") then rest else s
  | _ => s
  end.

(** [parseInt(s, 16)]; [None] is [NaN]. *)
Definition parseInt16 (s : string) : option Z :=
  match trimStart s with
  | String c rest =>
      if Ascii.eqb c "-" then Z.opp <$> parseDigits (stripHexPrefix rest) None
      else if Ascii.eqb c "+" then parseDigits (stripHexPrefix rest) None
      else parseDigits (stripHexPrefix (String c rest)) None
  | EmptyString => None
  end.

(** [s.substring(0, n)] *)
Fixpoint substring0 (n : nat) (s : string) : string :=
  match n, s with
  | S n', String c rest => String c (substring0 n' rest)
  | _, _ => EmptyString
  end.

Definition hexChar (d : Z) : ascii :=
  ascii_of_N (Z.to_N (if d <? 10 then 48 + d else 87 + d)).

(** [digest('hex')]: two lower-case digits a byte. *)
Fixpoint digestHex (digest : list Byte.byte) : string :=
  match digest with
  | [] => EmptyString
  | b :: rest =>
      let n := Z.of_N (Byte.to_N b) in
      String (hexChar (n / 16)) (String (hexChar (n mod 16)) (digestHex rest))
  end.

End JS.

(** ** src/lib/utils.ts *)
Module Utils.
Import JS.

(** [part.replace(/\W/g, '\\$&')] *)
Fixpoint escapeNonWord (part : string) : string :=
  match part with
  | EmptyString => EmptyString
  | String c rest =>
      if isWordChar c then String c (escapeNonWord rest)
      else String "\" (String c (escapeNonWord rest))
  end.

Definition regexPattern (pattern : string) : string :=
  let parts := split "*" pattern in
  let escapedParts := map escapeNonWord parts in
  join ".*" escapedParts.

Definition patternToRegex (pattern : string) : option RegExp :=
  RegExp_new ("^" +:+ regexPattern pattern +:+ "$").

(** [shouldIncludeTool(ignorePatterns, toolName)]; [ignorePatterns] is
    [None] when the argument is [undefined] or [null]. The [for] loop
    stops at the first matching pattern. [Throw] is the [SyntaxError] of
    the [RegExp] constructor. *)
Fixpoint shouldIncludeTool_loop (patterns : list string) (toolName : string)
  : Completion Thrown bool :=
  match patterns with
  | [] => Normal true
  | pattern :: rest =>
      match patternToRegex pattern with
      | None => Throw (Error "Invalid regular expression")
      | Some regex =>
          if test regex toolName then Normal false
          else shouldIncludeTool_loop rest toolName
      end
  end.

Definition shouldIncludeTool (ignorePatterns : option (list string))
           (toolName : string) : Completion Thrown bool :=
  match ignorePatterns with
  | None => Normal true
  | Some [] => Normal true
  | Some patterns => shouldIncludeTool_loop patterns toolName
  end.

(** *** The proxy router: [createMessageTransformer] and [mcpProxy]

    The transports hand [onmessage] only what passed the SDK's JSON-RPC
    schema: [jsonrpc] and, when present, an [id] that is a string or an
    integer, a [method], [params], [result], [error]. *)
Inductive RequestId := IdNum (n : Z) | IdStr (s : string).

#[global] Instance RequestId_eq_dec : EqDecision RequestId.
Proof. solve_decision. Defined.

#[global] Instance RequestId_countable : Countable RequestId :=
  inj_countable'
    (fun i => match i with IdNum n => inl n | IdStr s => inr s end)
    (fun x => match x with inl n => IdNum n | inr s => IdStr s end)
    (fun i => match i with IdNum _ => eq_refl | IdStr _ => eq_refl end).

Record Message := mkMessage {
  jsonrpc : string;
  id : option RequestId;        (* [None]: no [id] member *)
  method : option string;       (* [None]: no [method] member *)
  params : JsVal;               (* [VUndefined]: no [params] member *)
  result : JsVal;
  error : JsVal
}.

(** [!messageId] is false exactly for these. *)
Definition truthyId (i : option RequestId) : option RequestId :=
  match i with
  | Some (IdNum n) => if n =? 0 then None else i
  | Some (IdStr s) => if String.eqb s EmptyString then None else i
  | None => None
  end.

(** What the two transports were asked to do, oldest first. *)
Inductive Output :=
| SendToServer (m : Message)
| SendToClient (m : Message)
| CloseServer
| CloseClient.

Record Proxy := mkProxy {
  pendingRequests : gmap RequestId Message;
  transportToClientClosed : bool;
  transportToServerClosed : bool;
  wire : list Output
}.

Definition emit (o : Output) (st : Proxy) : Proxy :=
  mkProxy (pendingRequests st) (transportToClientClosed st)
          (transportToServerClosed st) (wire st ++ [o]).

Definition setPending (t : gmap RequestId Message) (st : Proxy) : Proxy :=
  mkProxy t (transportToClientClosed st) (transportToServerClosed st) (wire st).

(** A request transformer answers with the request to forward or with
    [MESSAGE_BLOCKED]. *)
Inductive Transformed := Forward (m : Message) | MESSAGE_BLOCKED.

Definition RequestFn := Message -> Proxy -> Completion Thrown Transformed * Proxy.
Definition ResponseFn := option Message -> Message -> Completion Thrown Message.

(** [interceptRequest]; an absent transformer ([?.]) leaves the message. *)
Definition interceptRequest (transformRequestFunction : option RequestFn)
           (message : Message) (st : Proxy)
  : Completion Thrown Transformed * Proxy :=
  match truthyId (id message) with
  | None => (Normal (Forward message), st)
  | Some messageId =>
      let st := setPending (<[messageId := message]> (pendingRequests st)) st in
      match transformRequestFunction with
      | Some f => f message st
      | None => (Normal (Forward message), st)
      end
  end.

(** [interceptResponse] *)
Definition interceptResponse (transformResponseFunction : option ResponseFn)
           (message : Message) (st : Proxy)
  : Completion Thrown Message * Proxy :=
  match truthyId (id message) with
  | None => (Normal message, st)
  | Some messageId =>
      let originalRequest := pendingRequests st !! messageId in
      let st := setPending (delete messageId (pendingRequests st)) st in
      match transformResponseFunction with
      | Some f => (f originalRequest message, st)
      | None => (Normal message, st)
      end
  end.

(** [tools.filter((tool) => shouldIncludeTool(ignoredTools, tool.name))] *)
Fixpoint filterTools (ignoredTools : list string) (tools : list JsVal)
  : Completion Thrown (list JsVal) :=
  match tools with
  | [] => Normal []
  | tool :: rest =>
      bind (getProp tool "name") (fun name =>
      bind (shouldIncludeTool (Some ignoredTools) (ToString name)) (fun keep =>
      bind (filterTools ignoredTools rest) (fun rest' =>
      Normal (if keep then tool :: rest' else rest'))))
  end.

Section McpProxy.
(** [version] of package.json, which is not among the sources. *)
Variable MCP_REMOTE_VERSION : string.
Variable ignoredTools : list string.

Definition errorResponse (request : Message) (toolName : JsVal) : Message :=
  {| jsonrpc := "2.0";
     id := id request;
     method := None;
     params := VUndefined;
     result := VUndefined;
     error := VObj [("code", VNum (-32603));
                    ("message", VStr ("Tool " +:+ quoted (ToString toolName)
                                      +:+ " is not available"))] |}.

Definition transformRequestFunction : RequestFn := fun request st =>
  let toolName := getPropOpt (params request) "name" in
  if bool_decide (method request = Some "tools/call") && truthy toolName then
    match shouldIncludeTool (Some ignoredTools) (ToString toolName) with
    | Throw e => (Throw e, st)
    | Normal true => (Normal (Forward request), st)
    | Normal false =>
        (Normal MESSAGE_BLOCKED, emit (SendToClient (errorResponse request toolName)) st)
    end
  else (Normal (Forward request), st).

Definition transformResponseFunction : ResponseFn := fun req res =>
  match req with
  | None => Throw (TypeError "Cannot read properties of undefined (reading 'method')")
  | Some req =>
      if bool_decide (method req = Some "tools/list") then
        bind (getProp (result res) "tools") (fun tools =>
        match tools, result res with
        | VArr items, VObj fields =>
            bind (filterTools ignoredTools items) (fun kept =>
            Normal {| jsonrpc := jsonrpc res; id := id res; method := method res;
                      params := params res;
                      result := VObj (assocSet "tools" (VArr kept) fields);
                      error := error res |})
        | _, _ => Throw (TypeError "res.result.tools.filter is not a function")
        end)
      else Normal res
  end.

(** The [initialize] rewrite: [clientInfo.name] gets the proxy's suffix. *)
Definition tagClientInfo (message : Message) : Completion Thrown Message :=
  bind (getProp (params message) "clientInfo") (fun clientInfo =>
  if truthy clientInfo then
    match clientInfo, params message with
    | VObj info, VObj fields =>
        let name := ToString (assoc "name" info) +:+ " (via mcp-remote "
                    +:+ MCP_REMOTE_VERSION +:+ ")" in
        Normal {| jsonrpc := jsonrpc message; id := id message;
                  method := method message;
                  params := VObj (assocSet "clientInfo"
                                    (VObj (assocSet "name" (VStr name) info)) fields);
                  result := result message; error := error message |}
    | VArr _, _ => Normal message
    | _, _ => Throw (TypeError "Cannot create property 'name'")
    end
  else Normal message).

(** [transportToClient.onmessage] *)
Definition onClientMessage (_message : Message) (st : Proxy)
  : Completion Thrown unit * Proxy :=
  match interceptRequest (Some transformRequestFunction) _message st with
  | (Throw e, st) => (Throw e, st)
  | (Normal MESSAGE_BLOCKED, st) => (Normal tt, st)
  | (Normal (Forward message), st) =>
      if bool_decide (method message = Some "initialize") then
        match tagClientInfo message with
        | Throw e => (Throw e, st)
        | Normal message' =>
            (* the table holds the very object that was rewritten *)
            let st := match truthyId (id message) with
                      | Some i => setPending (<[i := message']> (pendingRequests st)) st
                      | None => st
                      end in
            (Normal tt, emit (SendToServer message') st)
        end
      else (Normal tt, emit (SendToServer message) st)
  end.

(** [transportToServer.onmessage] *)
Definition onServerMessage (_message : Message) (st : Proxy)
  : Completion Thrown unit * Proxy :=
  match interceptResponse (Some transformResponseFunction) _message st with
  | (Throw e, st) => (Throw e, st)
  | (Normal message, st) => (Normal tt, emit (SendToClient message) st)
  end.

(** [transportToClient.onclose] *)
Definition onClientClose (st : Proxy) : Proxy :=
  if transportToServerClosed st then st
  else emit CloseServer
         (mkProxy (pendingRequests st) true (transportToServerClosed st) (wire st)).

(** [transportToServer.onclose] *)
Definition onServerClose (st : Proxy) : Proxy :=
  if transportToClientClosed st then st
  else emit CloseClient
         (mkProxy (pendingRequests st) (transportToClientClosed st) true (wire st)).

(** What the transports report to the proxy. [onerror] only logs. *)
Inductive Event :=
| ClientMessage (m : Message)
| ServerMessage (m : Message)
| ClientClosed
| ServerClosed
| ClientError
| ServerError.

(** A handler that throws leaves the state it had reached. *)
Definition step (st : Proxy) (ev : Event) : Proxy :=
  match ev with
  | ClientMessage m => snd (onClientMessage m st)
  | ServerMessage m => snd (onServerMessage m st)
  | ClientClosed => onClientClose st
  | ServerClosed => onServerClose st
  | ClientError | ServerError => st
  end.

(** [mcpProxy(...)]: a fresh table, both flags down, nothing sent. *)
Definition mcpProxy : Proxy := mkProxy ∅ false false [].

Definition run (events : list Event) : Proxy := fold_left step events mcpProxy.

End McpProxy.

(** *** [calculateDefaultPort]; [None] is [NaN], [%] is the remainder
    with the sign of the dividend. *)
Definition calculateDefaultPort (serverUrlHash : string) : option Z :=
  offset ← parseInt16 (substring0 4 serverUrlHash);
  Some (3335 + Z.rem offset 45816).

(** *** The transport selector: [connectToRemoteServer] *)

Definition REASON_AUTH_NEEDED : string := "authentication-needed".
Definition REASON_TRANSPORT_FALLBACK : string := "falling-back-to-alternate-transport".

(** ['sse-only' | 'http-only' | 'sse-first' | 'http-first'] *)
Inductive TransportStrategy := sse_only | http_only | sse_first | http_first.

Inductive TransportKind := SSEClientTransport | StreamableHTTPClientTransport.

(** What the remote side and the authorization machinery do at the
    [depth]-th call of [connectToRemoteServer] (0 for the outermost): the
    outcome of [client.connect], of [transport.start] and of the throw-away
    test client, of [authInitializer] (the [skipBrowserAuth] flag and what
    [waitForAuthCode] resolves to, [None] when it never does), and of
    [transport.finishAuth]. *)
Record ConnectWorld := mkConnectWorld {
  clientConnect : nat -> TransportKind -> Completion Thrown unit;
  transportStart : nat -> TransportKind -> Completion Thrown unit;
  testClientConnect : nat -> Completion Thrown unit;
  authInitializer : nat -> Completion Thrown (bool * option string);
  finishAuth : nat -> TransportKind -> string -> Completion Thrown unit
}.

Inductive ConnectOutcome :=
| Connected (transport : TransportKind)
| Threw (error : Thrown)
| NeverSettles.

(** The outcome, the caller's [recursionReasons] set as the calls left it,
    and the transports tried, oldest first. *)
Record ConnectResult := mkConnectResult {
  outcome : ConnectOutcome;
  reasonsAfter : gset string;
  attempted : list TransportKind
}.

Definition isProtocolError (error : Thrown) : bool :=
  includes (message error) "405" ||
  includes (message error) "Method Not Allowed" ||
  includes (message error) "404" ||
  includes (message error) "Not Found".

Definition isAuthError (error : Thrown) : bool :=
  instanceofUnauthorizedError error
  || (instanceofError error && includes (message error) "Unauthorized").

Definition sseTransportOf (transportStrategy : TransportStrategy) : bool :=
  match transportStrategy with sse_only | sse_first => true | _ => false end.

Definition transportOf (transportStrategy : TransportStrategy) : TransportKind :=
  if sseTransportOf transportStrategy then SSEClientTransport
  else StreamableHTTPClientTransport.

Section ConnectToRemoteServer.
(** Whether a [Client] was passed; the proxies pass [null]. *)
Variable client : bool.
Variable world : ConnectWorld.

Definition connectAttempt (depth : nat) (sseTransport : bool) (transport : TransportKind)
  : Completion Thrown unit :=
  if client then clientConnect world depth transport
  else bind (transportStart world depth transport) (fun _ =>
       if negb sseTransport then testClientConnect world depth else Normal tt).

(** [fuel] bounds the depth of the recursion; [None] is fuel run out. *)
Fixpoint connectToRemoteServer (fuel depth : nat)
         (transportStrategy : TransportStrategy)
         (recursionReasons : gset string) (tried : list TransportKind)
  : option ConnectResult :=
  match fuel with
  | O => None
  | S fuel =>
    let shouldAttemptFallback :=
      match transportStrategy with http_first | sse_first => true | _ => false end in
    let sseTransport := sseTransportOf transportStrategy in
    let transport := transportOf transportStrategy in
    let tried := tried ++ [transport] in
    match connectAttempt depth sseTransport transport with
    | Normal _ => Some (mkConnectResult (Connected transport) recursionReasons tried)
    | Throw error =>
      if instanceofError error && shouldAttemptFallback && isProtocolError error then
        if bool_decide (REASON_TRANSPORT_FALLBACK ∈ recursionReasons) then
          Some (mkConnectResult
                  (Threw (Error "Already attempted transport fallback. Giving up."))
                  recursionReasons tried)
        else
          connectToRemoteServer fuel (S depth)
            (if sseTransport then http_only else sse_only)
            ({[REASON_TRANSPORT_FALLBACK]} ∪ recursionReasons) tried
      else if isAuthError error then
        match authInitializer world depth with
        | Throw e => Some (mkConnectResult (Threw e) recursionReasons tried)
        | Normal (skipBrowserAuth, waitForAuthCode) =>
          match waitForAuthCode with
          | None => Some (mkConnectResult NeverSettles recursionReasons tried)
          | Some code =>
            match finishAuth world depth transport code with
            | Throw authError =>
                Some (mkConnectResult (Threw authError) recursionReasons tried)
            | Normal _ =>
              if bool_decide (REASON_AUTH_NEEDED ∈ recursionReasons) then
                Some (mkConnectResult
                        (Threw (Error ("Already attempted reconnection for reason: "
                                          +:+ REASON_AUTH_NEEDED +:+ ". Giving up.")))
                        recursionReasons tried)
              else
                connectToRemoteServer fuel (S depth) transportStrategy
                  ({[REASON_AUTH_NEEDED]} ∪ recursionReasons) tried
            end
          end
        end
      else Some (mkConnectResult (Threw error) recursionReasons tried)
    end
  end.

End ConnectToRemoteServer.

End Utils.

(** ** The process and its surroundings

    What the sources reach through Node and through libraries that are not
    theirs is an interface without laws: JSON text, URLs, form encoding,
    the SDK's token schema. *)
Module Node.
Import JS.

Class Runtime := {
  (** [JSON.parse]; [Throw] is its [SyntaxError]. *)
  JSON_parse : string -> Completion Thrown JsVal;
  (** [JSON.stringify(v, null, 2)] *)
  JSON_stringify : JsVal -> string;
  (** [getConfigDir()]: the versioned directory under
      [MCP_REMOTE_CONFIG_DIR] or [~/.mcp-auth]. *)
  configDir : string;
  (** [new URL(s)]; [None] is its [TypeError]. *)
  URL : Type;
  URL_new : string -> option URL;
  URL_origin : URL -> string;
  URL_toString : URL -> string;
  URL_setPathname : URL -> string -> URL;
  URL_setSearchParam : URL -> string -> string -> URL;
  (** [new URLSearchParams(pairs).toString()] *)
  URLSearchParams_toString : list (string * string) -> string;
  (** [sanitizeUrl] of strict-url-sanitise, which may throw. *)
  sanitizeUrl : string -> Completion Thrown string;
  (** [Number(s)] for a string; [None] is [NaN]. *)
  StringToNumber : string -> option Z
}.

(** A file is there with its text, or there and not readable. *)
Inductive File := Content (text : string) | Unreadable (e : Thrown).

(** How [fs.writeFile] fails.  It opens the file with flag [w], which
    empties it, writes and closes: when the open fails the file is as it
    was; when a later step fails the file holds what had got there by then
    (nothing, part of the text, or all of it). *)
Inductive WriteFailure :=
| OpenFailed (e : Thrown)
| WriteFailed (e : Thrown) (remains : File).

Record FileSystem := mkFileSystem {
  (** why [fs.mkdir(configDir, {recursive: true})] fails, if it does *)
  mkdirError : option Thrown;
  files : gmap string File;
  (** how [fs.writeFile] fails, if it does *)
  writeError : option WriteFailure
}.

(** A response as [fetch] resolves it. *)
Record Response := mkResponse {
  status : Z;
  headers : list (string * string);   (* names in lower case *)
  body : string
}.

Definition ok (r : Response) : bool := (200 <=? status r) && (status r <=? 299).

(** What the process does to the outside, oldest first. *)
Inductive Effect :=
| Fetched (url : string) (method : string)
          (requestHeaders : list (string * string)) (requestBody : option string)
| Listening (port : Z)
| CallbackServerClosed
| BrowserOpened (url : string).

Record World := mkWorld {
  fs : FileSystem;
  stderr : list string;
  (** what the next calls of [fetch] meet, in order; none left: the network
      is down *)
  network : list (Completion Thrown Response);
  (** what [open(url)] does *)
  browser : Completion Thrown unit;
  (** the code the callback server receives; [None]: the user never
      completes the authorization *)
  callback : option string;
  (** [this.callbackServer] is set *)
  callbackServer : bool;
  effects : list Effect
}.

(** An awaited promise: fulfilled, rejected, or never settled. *)
Inductive Settled (A : Type) : Type :=
| Fulfilled (a : A)
| Rejected (e : Thrown)
| Unsettled.
Arguments Fulfilled {A} a.
Arguments Rejected {A} e.
Arguments Unsettled {A}.

Definition Async (A : Type) : Type := World -> Settled A * World.

Definition ret {A} (a : A) : Async A := fun w => (Fulfilled a, w).
Definition throw {A} (e : Thrown) : Async A := fun w => (Rejected e, w).

Definition abind {A B} (m : Async A) (k : A -> Async B) : Async B :=
  fun w =>
    match m w with
    | (Fulfilled a, w') => k a w'
    | (Rejected e, w') => (Rejected e, w')
    | (Unsettled, w') => (Unsettled, w')
    end.

(** [try { m } catch (e) { h e }] *)
Definition catch {A} (m : Async A) (h : Thrown -> Async A) : Async A :=
  fun w =>
    match m w with
    | (Rejected e, w') => h e w'
    | r => r
    end.

(** [try { m } finally { f }]: [f] runs when [m] settles. *)
Definition finally {A} (m : Async A) (f : World -> World) : Async A :=
  fun w =>
    match m w with
    | (Unsettled, w') => (Unsettled, w')
    | (r, w') => (r, f w')
    end.

Definition lift {A} (c : Completion Thrown A) : Async A :=
  match c with
  | Normal a => ret a
  | Throw e => throw e
  end.

Declare Scope async_scope.
Delimit Scope async_scope with async.
Notation "'let*' x ':=' m 'in' k" := (abind m (fun x => k))
  (at level 10, x binder, k at level 200) : async_scope.

Definition setStderr (l : list string) (w : World) : World :=
  mkWorld (fs w) l (network w) (browser w) (callback w) (callbackServer w) (effects w).
Definition setFs (f : FileSystem) (w : World) : World :=
  mkWorld f (stderr w) (network w) (browser w) (callback w) (callbackServer w) (effects w).
Definition setNetwork (n : list (Completion Thrown Response)) (w : World) : World :=
  mkWorld (fs w) (stderr w) n (browser w) (callback w) (callbackServer w) (effects w).
Definition setCallbackServer (b : bool) (w : World) : World :=
  mkWorld (fs w) (stderr w) (network w) (browser w) (callback w) b (effects w).
Definition effect (e : Effect) (w : World) : World :=
  mkWorld (fs w) (stderr w) (network w) (browser w) (callback w) (callbackServer w)
          (effects w ++ [e]).

(** [log(str, ...)]: a line on stderr. Debug logging is off: [debugLog]
    returns at once (and, switched on, only writes to stderr and to the
    debug log, inside its own [try]). *)
Definition log (line : string) : Async unit :=
  fun w => (Fulfilled tt, setStderr (stderr w ++ [line]) w).

Definition ENOENT (path : string) : Thrown :=
  mkThrown ClsError ("ENOENT: no such file or directory, open '" +:+ path +:+ "'")
           (Some "ENOENT").

(** [fs.mkdir(dir, { recursive: true })] *)
Definition mkdir : Async unit :=
  fun w => match mkdirError (fs w) with
           | Some e => (Rejected e, w)
           | None => (Fulfilled tt, w)
           end.

(** [fs.readFile(path, 'utf-8')] *)
Definition readFile (path : string) : Async string :=
  fun w => match files (fs w) !! path with
           | None => (Rejected (ENOENT path), w)
           | Some (Unreadable e) => (Rejected e, w)
           | Some (Content text) => (Fulfilled text, w)
           end.

(** [fs.writeFile(path, text, 'utf-8')] *)
Definition writeFile (path text : string) : Async unit :=
  fun w => match writeError (fs w) with
           | Some (OpenFailed e) => (Rejected e, w)
           | Some (WriteFailed e remains) =>
               (Rejected e,
                setFs (mkFileSystem (mkdirError (fs w))
                                    (<[path := remains]> (files (fs w)))
                                    (writeError (fs w))) w)
           | None =>
               (Fulfilled tt,
                setFs (mkFileSystem (mkdirError (fs w))
                                    (<[path := Content text]> (files (fs w)))
                                    (writeError (fs w))) w)
           end.

(** [{...headers, name: value}]: an existing name keeps its place. *)
Fixpoint setHeader (name value : string) (hs : list (string * string))
  : list (string * string) :=
  match hs with
  | [] => [(name, value)]
  | (k, v) :: rest =>
      if String.eqb name k then (name, value) :: rest
      else (k, v) :: setHeader name value rest
  end.

(** [fetch(url, { method, headers, body })] *)
Definition fetch (url method : string) (requestHeaders : list (string * string))
           (requestBody : option string) : Async Response :=
  fun w =>
    let w := effect (Fetched url method requestHeaders requestBody) w in
    match network w with
    | [] => (Rejected (TypeError "fetch failed"), w)
    | Normal r :: rest => (Fulfilled r, setNetwork rest w)
    | Throw e :: rest => (Rejected e, setNetwork rest w)
    end.

End Node.

(** ** src/lib/mcp-auth-config.ts *)
Module McpAuthConfig.
Import JS Node.
Local Open Scope async_scope.

Section WithRuntime.
Context {rt : Runtime}.

Record LockfileData := mkLockfileData { pid : Z; port : Z; timestamp : Z }.

(** [ensureConfigDir] *)
Definition ensureConfigDir : Async unit :=
  catch mkdir (fun error =>
    let* _ := log "Error creating config directory:" in throw error).

(** [getConfigFilePath]: [path.join(configDir, `${serverUrlHash}_${filename}`)] *)
Definition getConfigFilePath (serverUrlHash filename : string) : string :=
  configDir +:+ "/" +:+ serverUrlHash +:+ "_" +:+ filename.

(** [readJsonFile]; the schema is its [parseAsync]. [None] is [undefined]. *)
Definition readJsonFile {T} (serverUrlHash filename : string)
           (schema : JsVal -> Completion Thrown T) : Async (option T) :=
  catch
    (let* _ := ensureConfigDir in
     let filePath := getConfigFilePath serverUrlHash filename in
     let* content := readFile filePath in
     let* json := lift (JSON_parse content) in
     let* result := lift (schema json) in
     ret (Some result))
    (fun error =>
       if bool_decide (code error = Some "ENOENT") then ret None
       else let* _ := log ("Error reading " +:+ filename +:+ ":") in ret None).

(** [writeJsonFile] *)
Definition writeJsonFile (serverUrlHash filename : string) (data : JsVal)
  : Async unit :=
  catch
    (let* _ := ensureConfigDir in
     let filePath := getConfigFilePath serverUrlHash filename in
     writeFile filePath (JSON_stringify data))
    (fun error =>
       let* _ := log ("Error writing " +:+ filename +:+ ":") in throw error).

(** The validator [checkLockfile] hands to [readJsonFile]: [None] is the
    [null] it answers for anything that is not a lockfile. *)
Definition lockfileSchema (data : JsVal) : Completion Thrown (option LockfileData) :=
  match data with
  | VObj fields =>
      match assoc "pid" fields, assoc "port" fields, assoc "timestamp" fields with
      | VNum p, VNum q, VNum t => Normal (Some (mkLockfileData p q t))
      | _, _, _ => Normal None
      end
  | VArr _ => Normal None
  | _ => Normal None
  end.

(** [checkLockfile]: [lockfile || null], inside its own [try]. *)
Definition checkLockfile (serverUrlHash : string) : Async (option LockfileData) :=
  catch
    (let* lockfile := readJsonFile serverUrlHash "lock.json" lockfileSchema in
     ret (match lockfile with
          | Some (Some data) => Some data
          | _ => None
          end))
    (fun _ => ret None).

End WithRuntime.

End McpAuthConfig.

(** ** src/lib/oauth-provider-non-pkce.ts *)
Module OAuthProvider.
Import JS Node McpAuthConfig.
Local Open Scope async_scope.

(** What [OAuthTokensSchema] lets through: [access_token] and [token_type]
    are strings, [expires_in] is a number when present. *)
Record StoredTokens := mkStoredTokens {
  stored_access_token : string;
  stored_token_type : string;
  stored_expires_in : option Z;
  stored_refresh_token : option string;
  stored_scope : option string
}.

(** The SDK's schema, [OAuthTokensSchema.parseAsync]. *)
Class Sdk := { OAuthTokensSchema : JsVal -> Completion Thrown StoredTokens }.

(** A token object in memory: read from the store, or put together from
    the unvalidated JSON of a token endpoint. *)
Record OAuthTokens := mkOAuthTokens {
  access_token : JsVal;
  token_type : JsVal;
  expires_in : JsVal;
  refresh_token : JsVal;
  scope : JsVal
}.

Definition optStr (o : option string) : JsVal :=
  match o with Some s => VStr s | None => VUndefined end.

Definition ofStored (t : StoredTokens) : OAuthTokens :=
  {| access_token := VStr (stored_access_token t);
     token_type := VStr (stored_token_type t);
     expires_in := match stored_expires_in t with Some n => VNum n | None => VUndefined end;
     refresh_token := optStr (stored_refresh_token t);
     scope := optStr (stored_scope t) |}.

(** The object [JSON.stringify] is given. *)
Definition tokensJson (t : OAuthTokens) : JsVal :=
  VObj [("access_token", access_token t); ("token_type", token_type t);
        ("expires_in", expires_in t); ("refresh_token", refresh_token t);
        ("scope", scope t)].

(** [a || b] *)
Definition orElse (a b : JsVal) : JsVal := if truthy a then a else b.

(** A string that JavaScript takes for true. *)
Definition nonEmpty (o : option string) : option string :=
  match o with
  | Some s => if String.eqb s EmptyString then None else Some s
  | None => None
  end.

Record NonPkceOAuthProvider := mkProvider {
  serverUrlHash : string;
  callbackPath : string;
  clientId : string;
  clientSecret : option string;
  redirectUri : string;
  serverUrl : string;
  _state : string
}.

Definition nl : string := String (ascii_of_nat 10) EmptyString.

Section WithRuntime.
Context {rt : Runtime} {sdk : Sdk}.
Variable this : NonPkceOAuthProvider.

(** [getTokens] *)
Definition getTokens : Async (option StoredTokens) :=
  readJsonFile (serverUrlHash this) "tokens.json" OAuthTokensSchema.

(** [saveTokens] *)
Definition saveTokens (tokens : OAuthTokens) : Async unit :=
  writeJsonFile (serverUrlHash this) "tokens.json" (tokensJson tokens).

(** [getAuthorizationUrl] *)
Definition getAuthorizationUrl (authorizationEndpoint : string)
           (authorizeResource : option string) : Completion Thrown URL :=
  match URL_new authorizationEndpoint with
  | None => Throw (TypeError "Invalid URL")
  | Some url =>
      let url := URL_setSearchParam url "response_type" "code" in
      let url := URL_setSearchParam url "client_id" (clientId this) in
      let url := URL_setSearchParam url "redirect_uri" (redirectUri this) in
      let url := URL_setSearchParam url "state" (_state this) in
      Normal (match nonEmpty authorizeResource with
              | Some resource => URL_setSearchParam url "resource" resource
              | None => url
              end)
  end.

Definition formHeaders : list (string * string) :=
  [("Content-Type", "application/x-www-form-urlencoded"); ("Accept", "application/json")].

Definition withSecret (pairs : list (string * string)) : list (string * string) :=
  match nonEmpty (clientSecret this) with
  | Some secret => pairs ++ [("client_secret", secret)]
  | None => pairs
  end.

(** [exchangeCodeForToken] *)
Definition exchangeCodeForToken (authorizationCode tokenEndpoint : string)
  : Async OAuthTokens :=
  let body := withSecret [("grant_type", "authorization_code");
                          ("code", authorizationCode);
                          ("redirect_uri", redirectUri this);
                          ("client_id", clientId this)] in
  let* response := fetch tokenEndpoint "POST" formHeaders
                         (Some (URLSearchParams_toString body)) in
  if negb (ok response) then
    throw (Error ("Token exchange failed: HTTP " +:+ pretty (status response)
                  +:+ " - " +:+ Node.body response))
  else
    let* tokenData := lift (JSON_parse (Node.body response)) in
    let* accessToken := lift (getProp tokenData "access_token") in
    ret {| access_token := accessToken;
           token_type := orElse (getPropOpt tokenData "token_type") (VStr "Bearer");
           expires_in := getPropOpt tokenData "expires_in";
           refresh_token := getPropOpt tokenData "refresh_token";
           scope := getPropOpt tokenData "scope" |}.

(** [refreshToken] *)
Definition refreshToken (tokenEndpoint : string) : Async OAuthTokens :=
  let* existingTokens := getTokens in
  match existingTokens with
  | None => throw (Error "No refresh token available")
  | Some existingTokens =>
    match nonEmpty (stored_refresh_token existingTokens) with
    | None => throw (Error "No refresh token available")
    | Some refresh =>
      let body := withSecret [("grant_type", "refresh_token");
                              ("refresh_token", refresh);
                              ("client_id", clientId this)] in
      let* response := fetch tokenEndpoint "POST" formHeaders
                         (Some (URLSearchParams_toString body)) in
      if negb (ok response) then
        throw (Error ("Token refresh failed: HTTP " +:+ pretty (status response)
                      +:+ " - " +:+ Node.body response))
      else
        let* tokenData := lift (JSON_parse (Node.body response)) in
        let* accessToken := lift (getProp tokenData "access_token") in
        let tokens :=
          {| access_token := accessToken;
             token_type := orElse (getPropOpt tokenData "token_type") (VStr "Bearer");
             expires_in := getPropOpt tokenData "expires_in";
             refresh_token := orElse (getPropOpt tokenData "refresh_token")
                                     (VStr refresh);
             scope := getPropOpt tokenData "scope" |} in
        let* _ := saveTokens tokens in
        ret tokens
    end
  end.

(** [setupOAuthCallbackServerWithLongPoll] as [startAuthorization] uses it:
    the server listens, and [waitForAuthCode] resolves with the code of the
    redirect, if one ever comes. *)
Definition listen (callbackPort : Z) : Async unit :=
  fun w => (Fulfilled tt, setCallbackServer true (effect (Listening callbackPort) w)).

Definition waitForAuthCode : Async string :=
  fun w => match callback w with
           | Some authCode => (Fulfilled authCode, w)
           | None => (Unsettled, w)
           end.

(** [open(url)] *)
Definition open (url : string) : Async unit :=
  fun w => match browser w with
           | Normal _ => (Fulfilled tt, effect (BrowserOpened url) w)
           | Throw e => (Rejected e, w)
           end.

(** The [finally] of [startAuthorization], also [close()]. *)
Definition closeCallbackServer (w : World) : World :=
  if callbackServer w then setCallbackServer false (effect CallbackServerClosed w) else w.

(** [startAuthorization] from "Set up callback server" on: the interactive
    flow. *)
Definition interactiveAuthorization (authorizationEndpoint tokenEndpoint : string)
           (callbackPort : Z) (authorizeResource : option string)
  : Async OAuthTokens :=
  let* _ := listen callbackPort in
  finally
    (let* authUrl := lift (getAuthorizationUrl authorizationEndpoint authorizeResource) in
     let* _ := log (nl +:+ "Please authorize this client by visiting:" +:+ nl
                    +:+ URL_toString authUrl +:+ nl) in
     let* _ := catch
                 (let* safe := lift (sanitizeUrl (URL_toString authUrl)) in
                  let* _ := open safe in
                  log "Browser opened automatically.")
                 (fun _ => log "Could not open browser automatically. Please copy and paste the URL above into your browser.") in
     let* _ := log "Waiting for authorization..." in
     let* authCode := waitForAuthCode in
     let* _ := log "Exchanging authorization code for access token..." in
     let* tokens := exchangeCodeForToken authCode tokenEndpoint in
     let* _ := saveTokens tokens in
     let* _ := log "Authorization successful!" in
     ret tokens)
    closeCallbackServer.

(** [existingTokens.expires_in && existingTokens.expires_in > 0] *)
Definition stillValid (t : StoredTokens) : bool :=
  match stored_expires_in t with
  | Some n => negb (n =? 0) && (0 <? n)
  | None => false
  end.

(** [startAuthorization] *)
Definition startAuthorization (authorizationEndpoint tokenEndpoint : string)
           (callbackPort : Z) (authorizeResource : option string)
  : Async OAuthTokens :=
  let* existingTokens := getTokens in
  match existingTokens with
  | Some existing =>
      if negb (String.eqb (stored_access_token existing) EmptyString) && stillValid existing
      then ret (ofStored existing)
      else interactiveAuthorization authorizationEndpoint tokenEndpoint
                                    callbackPort authorizeResource
  | None => interactiveAuthorization authorizationEndpoint tokenEndpoint
                                     callbackPort authorizeResource
  end.

(** [!tokens || !tokens.access_token ||
     (tokens.expires_in !== undefined && tokens.expires_in <= 0)] *)
Definition expiredOrMissing (tokens : option StoredTokens) : bool :=
  match tokens with
  | None => true
  | Some t =>
      String.eqb (stored_access_token t) EmptyString ||
      match stored_expires_in t with
      | Some n => n <=? 0
      | None => false
      end
  end.

(** The last two statements of [getValidAccessToken]. *)
Definition accessTokenOrFail (tokens : OAuthTokens) : Async JsVal :=
  if negb (truthy (access_token tokens))
  then throw (Error "Failed to obtain access token")
  else ret (access_token tokens).

(** [getValidAccessToken] *)
Definition getValidAccessToken (authorizationEndpoint tokenEndpoint : string)
           (callbackPort : Z) (authorizeResource : option string)
  : Async JsVal :=
  let* tokens := getTokens in
  if expiredOrMissing tokens then
    let* tokens :=
      match tokens ≫= (fun t => nonEmpty (stored_refresh_token t)) with
      | Some _ =>
          catch (refreshToken tokenEndpoint)
                (fun _ => startAuthorization authorizationEndpoint tokenEndpoint
                                             callbackPort authorizeResource)
      | None => startAuthorization authorizationEndpoint tokenEndpoint
                                   callbackPort authorizeResource
      end in
    accessTokenOrFail tokens
  else
    match tokens with
    | Some t => accessTokenOrFail (ofStored t)
    | None => throw (Error "Failed to obtain access token")
    end.

End WithRuntime.

End OAuthProvider.

(** ** src/lib/oauth-connect-non-pkce.ts *)
Module OAuthConnect.
Import JS Node.
Local Open Scope async_scope.

(** [s] without the prefix [p], when it has it. *)
Fixpoint dropPrefix (p s : string) : option string :=
  match p, s with
  | EmptyString, _ => Some s
  | String a p', String b s' => if Ascii.eqb a b then dropPrefix p' s' else None
  | String _ _, EmptyString => None
  end.

(** The longest run of characters other than the double quote, and what
    follows it. *)
Fixpoint spanNonQuote (s : string) : string * string :=
  match s with
  | EmptyString => (EmptyString, EmptyString)
  | String c rest =>
      if Ascii.eqb c dquote then (EmptyString, s)
      else let (run, tail) := spanNonQuote rest in (String c run, tail)
  end.

(** [parseWWWAuthenticate]: the first place where [resource_metadata=] is
    followed by a double quote, one or more characters other than the
    double quote, and a double quote; the characters between the quotes. *)
Fixpoint parseWWWAuthenticate (wwwAuthenticate : string) : option string :=
  let here :=
    match dropPrefix ("resource_metadata=" +:+ String dquote EmptyString)
                     wwwAuthenticate with
    | Some rest =>
        match spanNonQuote rest with
        | (String c run, String _ _) => Some (String c run)
        | _ => None
        end
    | None => None
    end in
  match here with
  | Some url => Some url
  | None =>
      match wwwAuthenticate with
      | EmptyString => None
      | String _ rest => parseWWWAuthenticate rest
      end
  end.

Definition toLowerAscii (c : ascii) : ascii :=
  if inRange 65 90 c then ascii_of_N (N_of_ascii c + 32) else c.

Fixpoint toLowerCase (s : string) : string :=
  match s with
  | EmptyString => EmptyString
  | String c rest => String (toLowerAscii c) (toLowerCase rest)
  end.

(** [headers.get(name)]: the name is matched in lower case; [None] is
    [null]. *)
Fixpoint headersGet (hs : list (string * string)) (name : string) : option string :=
  match hs with
  | [] => None
  | (k, v) :: rest =>
      if String.eqb k (toLowerCase name) then Some v else headersGet rest name
  end.

(** [a || b] on what [headers.get] answers, then the test [if (x)]. *)
Definition firstNonEmpty (a b : option string) : option string :=
  match a with
  | Some s => if String.eqb s EmptyString then b else a
  | None => b
  end.

Definition nonEmptyString (a : option string) : option string :=
  match a with
  | Some s => if String.eqb s EmptyString then None else a
  | None => None
  end.

Section WithRuntime.
Context {rt : Runtime}.

(** [Number(v)] *)
Definition ToNumber (v : JsVal) : option Z :=
  match v with
  | VUndefined => None
  | VNull => Some 0
  | VBool b => Some (if b then 1 else 0)
  | VNum n => Some n
  | VStr s => StringToNumber s
  | VArr _ | VObj _ => StringToNumber (ToString v)
  end.

(** [v > 0] *)
Definition gtZero (v : JsVal) : bool :=
  match ToNumber v with
  | Some n => 0 <? n
  | None => false
  end.

(** [v[0]] of a value that is neither [null] nor [undefined]. *)
Definition index0 (v : JsVal) : JsVal :=
  match v with
  | VArr (x :: _) => x
  | VStr (String c _) => VStr (String c EmptyString)
  | VObj fields => assoc "0" fields
  | _ => VUndefined
  end.

(** What discovery hands back: the two endpoints as the metadata has them,
    or the two fall-back strings. *)
Record Endpoints := mkEndpoints {
  authorizationEndpoint : JsVal;
  tokenEndpoint : JsVal
}.

(** Step 4, inside its own [try]: [Some] is the [return] of the
    endpoints, [None] falls through. *)
Definition fetchAuthServerMetadata (authServerMetadataUrl : URL)
  : Async (option Endpoints) :=
  catch
    (let* authServerMetadataResponse :=
       fetch (URL_toString authServerMetadataUrl) "GET"
             [("Accept", "application/json")] None in
     if ok authServerMetadataResponse then
       let* authServerMetadata := lift (JSON_parse (body authServerMetadataResponse)) in
       let* authorization_endpoint :=
         lift (getProp authServerMetadata "authorization_endpoint") in
       if truthy authorization_endpoint
          && truthy (getPropOpt authServerMetadata "token_endpoint")
       then ret (Some (mkEndpoints authorization_endpoint
                                   (getPropOpt authServerMetadata "token_endpoint")))
       else ret None
     else ret None)
    (fun _ => ret None).

(** Step 3, inside its own [try]. *)
Definition fetchResourceMetadata (resourceMetadataUrl : string)
  : Async (option Endpoints) :=
  catch
    (let* resourceMetadataResponse :=
       fetch resourceMetadataUrl "GET" [("Accept", "application/json")] None in
     if ok resourceMetadataResponse then
       let* resourceMetadata := lift (JSON_parse (body resourceMetadataResponse)) in
       let* authorizationServers :=
         lift (getProp resourceMetadata "authorization_servers") in
       if truthy authorizationServers
          && gtZero (getPropOpt authorizationServers "length")
       then
         let authServerUrl := index0 authorizationServers in
         match URL_new (ToString authServerUrl) with
         | None => throw (TypeError "Invalid URL")
         | Some url =>
             fetchAuthServerMetadata
               (URL_setPathname url "/.well-known/oauth-authorization-server")
         end
       else ret None
     else ret None)
    (fun _ => ret None).

(** [discoverOAuthEndpoints], in a process run without [--debug]: its
    [debugLog] calls return at once and are left out.  (With [--debug]
    each of them writes a line to stderr and to the debug log in the
    configuration directory; nothing here speaks of that run.) *)
Definition discoverOAuthEndpoints (serverUrl : string)
           (headers : list (string * string)) : Async Endpoints :=
  let* discovered :=
    catch
      (let* response :=
         fetch serverUrl "GET" (setHeader "Accept" "application/json" headers) None in
       if status response =? 401 then
         let wwwAuthenticate :=
           firstNonEmpty (headersGet (Node.headers response) "www-authenticate")
                         (headersGet (Node.headers response) "WWW-Authenticate") in
         match nonEmptyString wwwAuthenticate with
         | Some wwwAuthenticate =>
             match parseWWWAuthenticate wwwAuthenticate with
             | Some resourceMetadataUrl => fetchResourceMetadata resourceMetadataUrl
             | None => ret None
             end
         | None => ret None
         end
       else ret None)
      (fun _ => ret None) in
  match discovered with
  | Some endpoints => ret endpoints
  | None =>
      match URL_new serverUrl with
      | None => throw (TypeError "Invalid URL")
      | Some baseUrl =>
          ret (mkEndpoints (VStr (URL_origin baseUrl +:+ "/oauth/authorize"))
                           (VStr (URL_origin baseUrl +:+ "/oauth/token")))
      end
  end.

End WithRuntime.

End OAuthConnect.

(** ** src/lib/mcp-auth-config.ts: deleting, text files, the lockfile *)
Module ConfigFiles.
Import JS Node McpAuthConfig.
Local Open Scope async_scope.

Section WithRuntime.
Context {rt : Runtime}.
(** Why [fs.unlink] fails on a file that is there, if it does. *)
Variable unlinkError : option Thrown.

Definition ENOENT_unlink (path : string) : Thrown :=
  mkThrown ClsError ("ENOENT: no such file or directory, unlink '" +:+ path +:+ "'")
           (Some "ENOENT").

(** [fs.unlink(path)]; a failed unlink leaves the file. *)
Definition unlink (path : string) : Async unit :=
  fun w => match files (fs w) !! path with
           | None => (Rejected (ENOENT_unlink path), w)
           | Some _ =>
               match unlinkError with
               | Some e => (Rejected e, w)
               | None =>
                   (Fulfilled tt,
                    setFs (mkFileSystem (mkdirError (fs w))
                                        (delete path (files (fs w)))
                                        (writeError (fs w))) w)
               end
           end.

(** [deleteConfigFile] *)
Definition deleteConfigFile (serverUrlHash filename : string) : Async unit :=
  catch
    (let filePath := getConfigFilePath serverUrlHash filename in
     unlink filePath)
    (fun error =>
       if bool_decide (code error <> Some "ENOENT")
       then log ("Error deleting " +:+ filename +:+ ":")
       else ret tt).

(** [readTextFile]; [errorMessage] is [None] when the argument is left
    out. *)
Definition readTextFile (serverUrlHash filename : string)
           (errorMessage : option string) : Async string :=
  catch
    (let* _ := ensureConfigDir in
     let filePath := getConfigFilePath serverUrlHash filename in
     readFile filePath)
    (fun _ =>
       throw (Error (match errorMessage with
                     | Some msg =>
                         if String.eqb msg EmptyString
                         then "Error reading " +:+ filename
                         else msg
                     | None => "Error reading " +:+ filename
                     end))).

(** [writeTextFile] *)
Definition writeTextFile (serverUrlHash filename text : string) : Async unit :=
  catch
    (let* _ := ensureConfigDir in
     let filePath := getConfigFilePath serverUrlHash filename in
     writeFile filePath text)
    (fun error =>
       let* _ := log ("Error writing " +:+ filename +:+ ":") in throw error).

(** [createLockfile]; [now] is what [Date.now()] answers. *)
Definition createLockfile (now : Z) (serverUrlHash : string) (pid port : Z)
  : Async unit :=
  let lockData := VObj [("pid", VNum pid); ("port", VNum port);
                        ("timestamp", VNum now)] in
  writeJsonFile serverUrlHash "lock.json" lockData.

(** [deleteLockfile] *)
Definition deleteLockfile (serverUrlHash : string) : Async unit :=
  deleteConfigFile serverUrlHash "lock.json".

End WithRuntime.

End ConfigFiles.

(** ** src/lib/oauth-provider-non-pkce.ts: the constructor, invalidation *)
Module ProviderLifecycle.
Import JS Node McpAuthConfig ConfigFiles OAuthProvider.
Local Open Scope async_scope.

(** [OAuthProviderOptions], the members the provider reads. *)
Record OAuthProviderOptions := mkOptions {
  options_serverUrl : string;
  options_callbackPort : Z;
  options_host : string;
  options_callbackPath : option string
}.

(** [StaticOAuthClientInformationFull] without its [null]: the members
    the provider reads. *)
Record StaticOAuthClientInformation := mkStaticInfo {
  client_id : string;
  client_secret : option string
}.

Section WithRuntime.
Context {rt : Runtime} {sdk : Sdk}.
Variable unlinkError : option Thrown.
(** [crypto.createHash('md5').update(s).digest()] *)
Variable md5 : string -> list Byte.byte.
(** What [randomUUID()] answers. *)
Variable randomUUID : string.

(** [getServerUrlHash] of utils.ts *)
Definition getServerUrlHash (serverUrl : string) : string := digestHex (md5 serverUrl).

(** [new NonPkceOAuthProvider(options, staticOAuthClientInfo, events)];
    [None] is a [null] client information. *)
Definition new_NonPkceOAuthProvider (options : OAuthProviderOptions)
           (staticOAuthClientInfo : option StaticOAuthClientInformation)
  : Completion Thrown NonPkceOAuthProvider :=
  let callbackPath := match nonEmpty (options_callbackPath options) with
                      | Some path => path
                      | None => "/oauth/callback"
                      end in
  match staticOAuthClientInfo with
  | None => Throw (Error "Static OAuth client information with client_id is required")
  | Some info =>
      if String.eqb (client_id info) EmptyString
      then Throw (Error "Static OAuth client information with client_id is required")
      else Normal {| serverUrlHash := getServerUrlHash (options_serverUrl options);
                     callbackPath := callbackPath;
                     clientId := client_id info;
                     clientSecret := client_secret info;
                     redirectUri := "http://" +:+ options_host options +:+ ":"
                                    +:+ pretty (options_callbackPort options)
                                    +:+ callbackPath;
                     serverUrl := options_serverUrl options;
                     _state := randomUUID |}
  end.

(** [invalidateTokens] *)
Definition invalidateTokens (this : NonPkceOAuthProvider) : Async unit :=
  deleteConfigFile unlinkError (serverUrlHash this) "tokens.json".

End WithRuntime.

End ProviderLifecycle.

(** ** src/lib/oauth-connect-non-pkce.ts: [connectWithNonPkceOAuth] *)
Module NonPkceConnect.
Import JS Node McpAuthConfig ConfigFiles OAuthProvider OAuthConnect ProviderLifecycle.
Local Open Scope async_scope.

Section WithRuntime.
Context {rt : Runtime} {sdk : Sdk}.
Variable unlinkError : option Thrown.
Variable md5 : string -> list Byte.byte.
Variable randomUUID : string.
(** The SDK's part: [client.connect(transport)] when a client is given
    (the flag), [transport.start()] when not, for the transport of the
    given kind built on the URL, the token provider and the request
    headers. *)
Variable connect : bool -> Utils.TransportKind -> URL -> Async (option OAuthTokens)
                   -> list (string * string) -> Async unit.

(** [tokens.expires_in && tokens.expires_in <= 0] *)
Definition expiredForRefresh (t : StoredTokens) : bool :=
  match stored_expires_in t with
  | Some n => negb (n =? 0) && (n <=? 0)
  | None => false
  end.

(** [tokenProvider.tokens] *)
Definition tokens (oauthProvider : NonPkceOAuthProvider) (tokenEndpoint : string)
  : Async (option OAuthTokens) :=
  let* tokens := getTokens oauthProvider in
  match tokens with
  | Some t =>
      if expiredForRefresh t then
        catch
          (let* newTokens := refreshToken oauthProvider tokenEndpoint in
           ret (Some {| access_token := access_token newTokens;
                        token_type := orElse (token_type newTokens) (VStr "Bearer");
                        expires_in := expires_in newTokens;
                        refresh_token := refresh_token newTokens;
                        scope := VUndefined |}))
          (fun _ => ret (Some (ofStored t)))
      else ret (Some (ofStored t))
  | None => ret None
  end.

Definition constructorName (transport : Utils.TransportKind) : string :=
  match transport with
  | Utils.SSEClientTransport => "SSEClientTransport"
  | Utils.StreamableHTTPClientTransport => "StreamableHTTPClientTransport"
  end.

(** [connectWithNonPkceOAuth]; [client] tells whether a [Client] was
    passed. The timeout argument is never read. *)
Definition connectWithNonPkceOAuth (client : bool) (serverUrl : string)
           (options : OAuthProviderOptions)
           (staticOAuthClientInfo : option StaticOAuthClientInformation)
           (headers : list (string * string))
           (transportStrategy : Utils.TransportStrategy)
           (authorizeResource : option string) (authTimeoutMs : Z)
  : Async Utils.TransportKind :=
  if match staticOAuthClientInfo with
     | Some info => String.eqb (client_id info) EmptyString
     | None => true
     end
  then throw (Error "Static OAuth client information with client_id is required for non-PKCE OAuth")
  else
    let* endpoints := discoverOAuthEndpoints serverUrl headers in
    let authorizationEndpoint := ToString (authorizationEndpoint endpoints) in
    let tokenEndpoint := ToString (tokenEndpoint endpoints) in
    let* oauthProvider :=
      lift (new_NonPkceOAuthProvider md5 randomUUID options staticOAuthClientInfo) in
    let* _ := log "Obtaining access token..." in
    let* accessToken :=
      getValidAccessToken oauthProvider authorizationEndpoint tokenEndpoint
                          (options_callbackPort options) authorizeResource in
    let* _ := log "Access token obtained successfully" in
    match URL_new serverUrl with
    | None => throw (TypeError "Invalid URL")
    | Some url =>
      let transport := Utils.transportOf transportStrategy in
      let tokenProvider := tokens oauthProvider tokenEndpoint in
      let requestHeaders :=
        setHeader "Authorization" ("Bearer " +:+ ToString accessToken) headers in
      catch
        (let* _ := connect client transport url tokenProvider requestHeaders in
         let* _ := log ("Connected to remote server using " +:+ constructorName transport) in
         ret transport)
        (fun error =>
           let* _ := log "Connection error:" in
           if instanceofError error
              && (includes (message error) "Unauthorized"
                  || includes (message error) "401")
           then
             let* _ := log "Unauthorized, invalidating tokens and re-authenticating..." in
             let* _ := invalidateTokens unlinkError oauthProvider in
             let* newAccessToken :=
               getValidAccessToken oauthProvider authorizationEndpoint tokenEndpoint
                                   (options_callbackPort options) authorizeResource in
             let* _ := log "Re-authenticated, please retry the connection" in
             throw (Error "Please retry after re-authentication")
           else throw error)
    end.

End WithRuntime.

End NonPkceConnect.

(** ** src/lib/utils.ts: the argument loops of [parseCommandLineArgs]

    The blocks of [parseCommandLineArgs] that work on the argument list
    alone, each on the list as the blocks before it have left it; what
    they log is left out. *)
Module CommandLine.
Import JS Utils.

(** The character class of header names: letters, digits, [_] and [-]. *)
Definition isHeaderNameChar (c : ascii) : bool :=
  inRange 65 90 c || inRange 97 122 c || inRange 48 57 c
  || (codeUnit c =? 95) || (codeUnit c =? 45).

(** The longest run of such characters, and what follows it. *)
Fixpoint spanHeaderName (s : string) : string * string :=
  match s with
  | EmptyString => (EmptyString, EmptyString)
  | String c rest =>
      if isHeaderNameChar c
      then let (name, tail) := spanHeaderName rest in (String c name, tail)
      else (EmptyString, s)
  end.

(** No line terminator anywhere: what the dot can run over to the end
    of the string. *)
Fixpoint dotStar (s : string) : bool :=
  match s with
  | EmptyString => true
  | String c rest => negb (isLineTerminator c) && dotStar rest
  end.

(** [value.match(re)] for the header pattern -- start of the string, a
    first group of one or more of [A-Za-z0-9_-], a colon, any number of
    white-space characters, a second group of any characters but line
    terminators, end of the string: the two groups, [None] for [null].
    The name is the longest run of name characters, the blanks after the
    colon are taken as far as they go, and the rest must reach the end of
    the string without a line terminator: giving back name characters or
    blanks cannot turn a failure into a match. *)
Definition matchHeader (value : string) : option (string * string) :=
  match spanHeaderName value with
  | (String c name, String colon rest) =>
      if Ascii.eqb colon ":" then
        let text := trimStart rest in
        if dotStar text then Some (String c name, text) else None
      else None
  | _ => None
  end.

(** [headers[name] = value] on an object literal: every name makes an own
    property but [__proto__], where assigning a string does nothing. *)
Definition setProperty (name value : string) (headers : gmap string string)
  : gmap string string :=
  if String.eqb name "__proto__" then headers else <[name := value]> headers.

(** The [--header] loop (// Process headers): the arguments left and the
    headers. An argument taken out shifts the rest down, and the loop
    looks again at the same index. *)
Fixpoint processHeaders (args : list string) (headers : gmap string string)
  : list string * gmap string string :=
  match args with
  | arg :: rest =>
      match rest with
      | value :: rest' =>
          if String.eqb arg "--header" then
            processHeaders rest'
              (match matchHeader value with
               | Some (name, text) => setProperty name text headers
               | None => headers
               end)
          else
            let (args', headers') := processHeaders rest headers in
            (arg :: args', headers')
      | [] => (args, headers)
      end
  | [] => (args, headers)
  end.

(** [args.indexOf(x)]; [None] for -1. *)
Fixpoint indexOf (x : string) (args : list string) : option nat :=
  match args with
  | [] => None
  | arg :: rest => if String.eqb arg x then Some 0%nat else S <$> indexOf x rest
  end.

(** The argument after the first [flag], when the flag is not the last
    argument: [index !== -1 && index < args.length - 1], [args[index + 1]]. *)
Definition flagValue (flag : string) (args : list string) : option string :=
  match indexOf flag args with
  | Some index =>
      if (index <? length args - 1)%nat then args !! S index else None
  | None => None
  end.

(** // Parse transport strategy *)
Definition parseTransportStrategy (args : list string) : TransportStrategy :=
  match flagValue "--transport" args with
  | Some strategy =>
      if String.eqb strategy "sse-only" then sse_only
      else if String.eqb strategy "http-only" then http_only
      else if String.eqb strategy "sse-first" then sse_first
      else if String.eqb strategy "http-first" then http_first
      else http_first
  | None => http_first
  end.

(** // Parse host *)
Definition parseHost (args : list string) : string :=
  match flagValue "--host" args with
  | Some host => host
  | None => "localhost"
  end.

(** The [--ignore-tool] loop (// Parse ignored tools): the arguments left
    and the tool patterns, in their order. *)
Fixpoint parseIgnoredTools (args : list string) : list string * list string :=
  match args with
  | arg :: rest =>
      match rest with
      | toolName :: rest' =>
          if String.eqb arg "--ignore-tool" then
            let (args', ignoredTools) := parseIgnoredTools rest' in
            (args', toolName :: ignoredTools)
          else
            let (args', ignoredTools) := parseIgnoredTools rest in
            (arg :: args', ignoredTools)
      | [] => (args, [])
      end
  | [] => (args, [])
  end.

End CommandLine.

(** ** Vocabulary of the statements about the credential store *)
Module StoreSpec.
Import JS Node McpAuthConfig.

(** The warning of [readJsonFile]: none for an error coded [ENOENT]. *)
Definition readWarning (filename : string) (error : Thrown) : list string :=
  if bool_decide (code error = Some "ENOENT") then []
  else ["Error reading " +:+ filename +:+ ":"].

(** The world with these lines more on stderr and nothing else changed. *)
Definition logged (lines : list string) (w : World) : World :=
  setStderr (stderr w ++ lines) w.

(** The ways a read can go wrong: no configuration directory, no file, a
    file that cannot be read, text that is not JSON, JSON the schema
    rejects. *)
Inductive ReadFailure `{Runtime} {T} (schema : JsVal -> Completion Thrown T)
          (path : string) (w : World) : Prop :=
| NoConfigDir e :
    mkdirError (fs w) = Some e -> ReadFailure schema path w
| MissingFile :
    files (fs w) !! path = None -> ReadFailure schema path w
| UnreadableFile e :
    files (fs w) !! path = Some (Unreadable e) -> ReadFailure schema path w
| MalformedJson text e :
    files (fs w) !! path = Some (Content text) ->
    JSON_parse text = Throw e -> ReadFailure schema path w
| RejectedBySchema text json e :
    files (fs w) !! path = Some (Content text) ->
    JSON_parse text = Normal json ->
    schema json = Throw e -> ReadFailure schema path w.

End StoreSpec.

(** ** Vocabulary of the statements about the OAuth client *)
Module ClientSpec.
Import JS Node McpAuthConfig OAuthProvider.

(** A stored bundle that can be used as it is: a non-empty access token
    and [expires_in] absent or positive. *)
Definition usable (t : StoredTokens) : Prop :=
  stored_access_token t <> EmptyString /\
  (stored_expires_in t = None \/ exists n, stored_expires_in t = Some n /\ 0 < n).

(** The store holds a (non-empty) refresh token. *)
Definition hasRefreshToken (r : option StoredTokens) : Prop :=
  exists t s, r = Some t /\ stored_refresh_token t = Some s /\ s <> EmptyString.

(** The full interactive authorization, and the access token of the bundle
    it ends with. *)
Definition fullAuthorization `{Runtime} `{Sdk} (this : NonPkceOAuthProvider)
           (authorizationEndpoint tokenEndpoint : string) (callbackPort : Z)
           (authorizeResource : option string) : Async JsVal :=
  abind (interactiveAuthorization this authorizationEndpoint tokenEndpoint
                                  callbackPort authorizeResource)
        accessTokenOrFail.

(** The bundle is what the tokens file holds: the JSON text of an object
    with the five members of the bundle. *)
Definition persisted `{Runtime} (this : NonPkceOAuthProvider) (tokens : OAuthTokens)
           (w : World) : Prop :=
  files (fs w) !! getConfigFilePath (serverUrlHash this) "tokens.json"
  = Some (Content (JSON_stringify
                     (VObj [("access_token", access_token tokens);
                            ("token_type", token_type tokens);
                            ("expires_in", expires_in tokens);
                            ("refresh_token", refresh_token tokens);
                            ("scope", scope tokens)]))).

(** No write fails half-way: a write goes through, or it fails before the
    file is opened. *)
Definition noTornWrite (w : World) : Prop :=
  forall e remains, writeError (fs w) <> Some (WriteFailed e remains).

(** The computation only adds to what the process has done outside. *)
Definition grows {A} (m : Async A) : Prop :=
  forall w, exists more, effects (m w).2 = effects w ++ more.

End ClientSpec.

(** ** Vocabulary of the statement about endpoint discovery *)
Module DiscoverySpec.
Import JS Node OAuthConnect.

(** The fall-back pair for a server URL. *)
Definition fallbackEndpoints `{Runtime} (baseUrl : URL) : Endpoints :=
  mkEndpoints (VStr (URL_origin baseUrl +:+ "/oauth/authorize"))
              (VStr (URL_origin baseUrl +:+ "/oauth/token")).

(** Every step of the chain succeeds: the server answers 401 with a
    [WWW-Authenticate] header that names a [resource_metadata] URL; that
    URL answers 2xx with JSON whose [authorization_servers] is non-empty
    and begins with a URL; the authorization server's metadata answers 2xx
    with JSON that has both endpoints. *)
Inductive Discovered `{Runtime} (w : World) : Endpoints -> Prop :=
| DiscoveredAll r1 r2 r3 rest wwwAuthenticate resourceMetadataUrl
                resourceMetadata servers url metadata authorization token :
    network w = Normal r1 :: Normal r2 :: Normal r3 :: rest ->
    status r1 = 401 ->
    nonEmptyString
      (firstNonEmpty (headersGet (headers r1) "www-authenticate")
                     (headersGet (headers r1) "WWW-Authenticate"))
    = Some wwwAuthenticate ->
    parseWWWAuthenticate wwwAuthenticate = Some resourceMetadataUrl ->
    ok r2 = true ->
    JSON_parse (body r2) = Normal resourceMetadata ->
    getProp resourceMetadata "authorization_servers" = Normal servers ->
    truthy servers = true ->
    gtZero (getPropOpt servers "length") = true ->
    URL_new (ToString (index0 servers)) = Some url ->
    ok r3 = true ->
    JSON_parse (body r3) = Normal metadata ->
    getProp metadata "authorization_endpoint" = Normal authorization ->
    truthy authorization = true ->
    getPropOpt metadata "token_endpoint" = token ->
    truthy token = true ->
    Discovered w (mkEndpoints authorization token).

End DiscoverySpec.

(** ** The tool filter in the words of the specification *)
Module Glob.
Import JS.

(** The string with every code unit canonicalized: two strings are equal
    case-insensitively when their images are equal. *)
Fixpoint canon (s : string) : string :=
  match s with
  | EmptyString => EmptyString
  | String c rest => String (Canonicalize c) (canon rest)
  end.

Fixpoint noLineTerminator (s : string) : bool :=
  match s with
  | EmptyString => true
  | String c rest => negb (isLineTerminator c) && noLineTerminator rest
  end.

(** [GlobMatch segs name]: [name] is the segments in order, each up to
    case, with a stretch of what [.*] accepts between two neighbours and
    nothing before the first or after the last segment. *)
Inductive GlobMatch : list string -> string -> Prop :=
| GlobLast seg t :
    canon seg = canon t -> GlobMatch [seg] t
| GlobMore seg segs t gap rest :
    canon seg = canon t ->
    noLineTerminator gap = true ->
    GlobMatch segs rest ->
    GlobMatch (seg :: segs) (t +:+ gap +:+ rest).

(** The pattern, split on [*], matches the whole name. *)
Definition matchesPattern (pattern name : string) : Prop :=
  GlobMatch (split "*" pattern) name.

(** The regular expression the segments stand for. *)
Fixpoint lits (seg : string) : RegExp :=
  match seg with
  | EmptyString => []
  | String c rest => Lit c :: lits rest
  end.

Fixpoint atomsOf (segs : list string) : RegExp :=
  match segs with
  | [] => []
  | [seg] => lits seg
  | seg :: rest => lits seg ++ AnyStar :: atomsOf rest
  end.

End Glob.

(** ** Vocabulary of the statements about the proxy *)
Module ProxySpec.
Import JS Utils.

(** The ids JavaScript takes for false: none, [0], the empty string. *)
Definition falsyId (i : option RequestId) : Prop :=
  i = None \/ i = Some (IdNum 0) \/ i = Some (IdStr EmptyString).

(** [tools/call] of the tool [deleteTask], as in the specification's third
    scenario. *)
Definition deleteTaskCall (i : option RequestId) : Message :=
  {| jsonrpc := "2.0"; id := i; method := Some "tools/call";
     params := VObj [("name", VStr "deleteTask")];
     result := VUndefined; error := VUndefined |}.

Definition toolsListRequest (i : option RequestId) : Message :=
  {| jsonrpc := "2.0"; id := i; method := Some "tools/list";
     params := VUndefined; result := VUndefined; error := VUndefined |}.

Definition tool (name : string) : JsVal := VObj [("name", VStr name)].

Definition toolsListResponse (i : option RequestId) (names : list string) : Message :=
  {| jsonrpc := "2.0"; id := i; method := None; params := VUndefined;
     result := VObj [("tools", VArr (map tool names))]; error := VUndefined |}.

(** The ids a session leaves in the table, read off the events alone: a
    client message with a (truthy) id puts the id in, a server message with
    that id takes it out, whether or not the request was forwarded. *)
Definition touch (ids : gset RequestId) (ev : Event) : gset RequestId :=
  match ev with
  | ClientMessage m =>
      match truthyId (id m) with Some i => {[i]} ∪ ids | None => ids end
  | ServerMessage m =>
      match truthyId (id m) with Some i => ids ∖ {[i]} | None => ids end
  | _ => ids
  end.

End ProxySpec.

(** ** Vocabulary of the statements about the transport selector *)
Module ConnectSpec.
Import JS Utils.

(** The strategy of the retry: the other family, without fallback. *)
Definition otherOnly (transportStrategy : TransportStrategy) : TransportStrategy :=
  if sseTransportOf transportStrategy then http_only else sse_only.

(** A remote that answers every attempt, on either transport, with
    [HTTP 405], and never asks for authorization. *)
Definition always405 : ConnectWorld :=
  {| clientConnect := fun _ _ => Throw (Error "HTTP 405");
     transportStart := fun _ _ => Throw (Error "HTTP 405");
     testClientConnect := fun _ => Throw (Error "HTTP 405");
     authInitializer := fun _ => Normal (false, None);
     finishAuth := fun _ _ _ => Normal tt |}.

End ConnectSpec.

(** ** Vocabulary of the statement about the callback port *)
Module PortSpec.

(** The first 16 bits of a digest, as an unsigned integer. *)
Definition first16bits (digest : list Byte.byte) : Z :=
  match digest with
  | b0 :: b1 :: _ => 256 * Z.of_N (Byte.to_N b0) + Z.of_N (Byte.to_N b1)
  | _ => 0
  end.

End PortSpec.

(** ** Vocabulary of further statements about the proxy *)
Module RelaySpec.
Import JS Utils.

(** Whether the tool filter lets a name through. *)
Definition included (ignoredTools : list string) (toolName : string) : bool :=
  match shouldIncludeTool (Some ignoredTools) toolName with
  | Normal keep => keep
  | Throw _ => false
  end.

(** The name the filter sees for an entry of [tools]. *)
Definition nameOf (tool : JsVal) : string := ToString (getPropOpt tool "name").

(** What the server transport was asked to send, oldest first. *)
Fixpoint sentToServer (outputs : list Output) : list Message :=
  match outputs with
  | [] => []
  | SendToServer m :: rest => m :: sentToServer rest
  | _ :: rest => sentToServer rest
  end.

(** An output that sends a message, to either side. *)
Definition isSend (o : Output) : Prop :=
  match o with SendToServer _ | SendToClient _ => True | _ => False end.

(** What a proxy without a tool filter passes on for an event: every
    client message, an [initialize] with the client name tagged (and not
    at all when it cannot be tagged). *)
Definition passedOn (MCP_REMOTE_VERSION : string) (ev : Event) : list Message :=
  match ev with
  | ClientMessage m =>
      if bool_decide (method m = Some "initialize") then
        match tagClientInfo MCP_REMOTE_VERSION m with
        | Normal m' => [m']
        | Throw _ => []
        end
      else [m]
  | _ => []
  end.

End RelaySpec.

(** ** Vocabulary of further statements about the transport selector *)
Module RetrySpec.
Import JS Utils.

(** How many of the two reasons for a recursive call are still unused. *)
Definition unused (recursionReasons : gset string) : nat :=
  ((if bool_decide (REASON_TRANSPORT_FALLBACK ∈ recursionReasons) then 0 else 1)
   + (if bool_decide (REASON_AUTH_NEEDED ∈ recursionReasons) then 0 else 1))%nat.

(** A remote that answers every attempt with [Unauthorized], while the
    authorization itself goes through each time. *)
Definition alwaysUnauthorized : ConnectWorld :=
  {| clientConnect := fun _ _ => Throw (Error "Unauthorized");
     transportStart := fun _ _ => Throw (Error "Unauthorized");
     testClientConnect := fun _ => Throw (Error "Unauthorized");
     authInitializer := fun _ => Normal (false, Some "code");
     finishAuth := fun _ _ _ => Normal tt |}.

End RetrySpec.

(** ** Vocabulary of further statements about the credential store *)
Module FilesSpec.
Import JS Node McpAuthConfig.

(** The message [readTextFile] fails with. *)
Definition readTextError (filename : string) (errorMessage : option string) : string :=
  match errorMessage with
  | Some msg => if String.eqb msg EmptyString then "Error reading " +:+ filename else msg
  | None => "Error reading " +:+ filename
  end.

(** The file system with one file removed, or with one file's text set. *)
Definition without (path : string) (f : FileSystem) : FileSystem :=
  mkFileSystem (mkdirError f) (delete path (files f)) (writeError f).

Definition withText (path text : string) (f : FileSystem) : FileSystem :=
  mkFileSystem (mkdirError f) (<[path := Content text]> (files f)) (writeError f).

(** The lock of a process, as [createLockfile] writes it. *)
Definition lockJson (pid port now : Z) : JsVal :=
  VObj [("pid", VNum pid); ("port", VNum port); ("timestamp", VNum now)].

End FilesSpec.

(** ** Vocabulary of statements about what a computation does to the world *)
Module AsyncSpec.
Import JS Node.

(** Every run of the computation takes a world to one related to it. *)
Definition steady (R : relation World) {A} (m : Async A) : Prop :=
  forall w, R w (m w).2.

(** The relation does not look at stderr, at the files, at what the
    network will answer, at the callback server's flag. *)
Class IgnoresStderr (R : relation World) :=
  ignores_stderr : forall l w, R w (setStderr l w).
Class IgnoresFs (R : relation World) :=
  ignores_fs : forall f w, R w (setFs f w).
Class IgnoresNetwork (R : relation World) :=
  ignores_network : forall n w, R w (setNetwork n w).
Class IgnoresCallbackServer (R : relation World) :=
  ignores_callbackServer : forall b w, R w (setCallbackServer b w).

(** The relation lets the effect happen. *)
Definition admits (R : relation World) (e : Effect) : Prop :=
  forall w, R w (effect e w).

(** The files are the same. *)
Definition sameFiles : relation World := fun w w' => fs w' = fs w.

(** Nothing was written to stderr. *)
Definition sameStderr : relation World := fun w w' => stderr w' = stderr w.

(** The callback server is as it was, and so is what the user will do. *)
Definition sameCallback : relation World :=
  fun w w' => callbackServer w' = callbackServer w /\ callback w' = callback w.

(** What was done outside is what had been done and, after it, effects
    that all satisfy [P]. *)
Definition adds (P : Effect -> Prop) : relation World :=
  fun w w' => exists more, effects w' = effects w ++ more /\ Forall P more.

(** The computation can be waiting for ever only for the user. *)
Definition patient {A} (m : Async A) : Prop :=
  forall w, (m w).1 = Unsettled -> callback w = None.

(** The computation changes the files only when it fulfils, and then
    with a result and a world that satisfy [Q] -- short of a write that
    fails half-way. *)
Definition allOrNothing {A} (Q : A -> World -> Prop) (m : Async A) : Prop :=
  forall w, match m w with
            | (Fulfilled a, w') => Q a w'
            | (_, w') => ClientSpec.noTornWrite w -> fs w' = fs w
            end.

(** An effect that is not the callback server's. *)
Definition notServer (e : Effect) : Prop :=
  match e with
  | Listening _ | CallbackServerClosed => False
  | _ => True
  end.

(** Two worlds that differ at most in the browser, in stderr and in the
    effects so far. *)
Definition alike : relation World :=
  fun w1 w2 => fs w1 = fs w2 /\ network w1 = network w2 /\
               callback w1 = callback w2 /\ callbackServer w1 = callbackServer w2.

(** In alike worlds the computation settles alike and leaves alike
    worlds. *)
Definition agrees {A} (m : Async A) : Prop :=
  forall w1 w2, alike w1 w2 -> (m w1).1 = (m w2).1 /\ alike (m w1).2 (m w2).2.

(** The world with another browser. *)
Definition setBrowser (b : Completion Thrown unit) (w : World) : World :=
  mkWorld (fs w) (stderr w) (network w) b (callback w) (callbackServer w) (effects w).

End AsyncSpec.

(** ** Vocabulary of further statements about the OAuth client *)
Module TrafficSpec.
Import JS Node McpAuthConfig OAuthProvider.

(** What obtaining an access token may do outside: POST a form to the
    token endpoint, open the browser at the sanitized authorization URL,
    listen on the callback port and stop listening. *)
Definition tokenTraffic `{Runtime} (this : NonPkceOAuthProvider)
           (authorizationEndpoint tokenEndpoint : string) (callbackPort : Z)
           (authorizeResource : option string) (e : Effect) : Prop :=
  match e with
  | Fetched url method requestHeaders requestBody =>
      url = tokenEndpoint /\ method = "POST" /\ requestHeaders = formHeaders /\
      requestBody <> None
  | BrowserOpened url =>
      exists authUrl,
        getAuthorizationUrl this authorizationEndpoint authorizeResource = Normal authUrl /\
        sanitizeUrl (URL_toString authUrl) = Normal url
  | Listening port => port = callbackPort
  | CallbackServerClosed => True
  end.

End TrafficSpec.

(** ** Vocabulary of further statements about connecting with OAuth *)
Module ConnectFlowSpec.
Import JS Node OAuthProvider OAuthConnect.

(** What discovery may ask of the network: a GET without a body, either
    with nothing but [Accept] among its headers or of the server itself,
    with the caller's headers. *)
Definition discoveryRequest (serverUrl : string) (headers : list (string * string))
           (e : Effect) : Prop :=
  match e with
  | Fetched url method requestHeaders requestBody =>
      method = "GET" /\ requestBody = None /\
      (requestHeaders = [("Accept", "application/json")] \/
       (url = serverUrl /\
        requestHeaders = setHeader "Accept" "application/json" headers))
  | _ => False
  end.

(** No double quote in the string. *)
Fixpoint quoteFree (s : string) : bool :=
  match s with
  | EmptyString => true
  | String c rest => negb (Ascii.eqb c dquote) && quoteFree rest
  end.

(** What the token provider hands to the transport after a refresh. *)
Definition refreshed (newTokens : OAuthTokens) : OAuthTokens :=
  {| access_token := access_token newTokens;
     token_type := orElse (token_type newTokens) (VStr "Bearer");
     expires_in := expires_in newTokens;
     refresh_token := refresh_token newTokens;
     scope := VUndefined |}.

End ConnectFlowSpec.

(** ** Vocabulary of the statements about the argument loops *)
Module ArgsSpec.
Import JS CommandLine.

(** Every character is one of the class. *)
Fixpoint all (p : ascii -> bool) (s : string) : bool :=
  match s with
  | EmptyString => true
  | String c rest => p c && all p rest
  end.

(** The headers once the value of a [--header] has been looked at. *)
Definition noted (value : string) (headers : gmap string string)
  : gmap string string :=
  match matchHeader value with
  | Some (name, text) => setProperty name text headers
  | None => headers
  end.

(** The flag stands nowhere but, at most, in the last place. *)
Definition onlyLast (flag : string) (args : list string) : Prop :=
  forall i, args !! i = Some flag -> S i = length args.

End ArgsSpec.

(** ** A runtime and a world for the closed examples

    JSON text is the compact rendering of a value, and the only texts that
    parse are the renderings of the documents the examples use; a URL is
    its text. *)
Module Fixture.
Import JS Node McpAuthConfig OAuthProvider OAuthConnect.

Fixpoint stringify (v : JsVal) : string :=
  match v with
  | VUndefined | VNull => "null"
  | VBool true => "true"
  | VBool false => "false"
  | VNum n => pretty n
  | VStr s => quoted s
  | VArr items => "[" +:+ join "," (map stringify items) +:+ "]"
  | VObj fields =>
      "{" +:+ join ","
                ((fix members (fs : list (string * JsVal)) : list string :=
                    match fs with
                    | [] => []
                    | (_, VUndefined) :: rest => members rest
                    | (k, x) :: rest =>
                        (quoted k +:+ ":" +:+ stringify x) :: members rest
                    end) fields)
          +:+ "}"
  end.

(** The bundle of the specification's sixth scenario: expired, no refresh
    token. *)
Definition expiredBundle : JsVal :=
  VObj [("access_token", VStr "T0"); ("token_type", VStr "Bearer");
        ("expires_in", VNum (-1))].

(** An expired bundle with a refresh token. *)
Definition refreshableBundle : JsVal :=
  VObj [("access_token", VStr "T0"); ("token_type", VStr "Bearer");
        ("expires_in", VNum 0); ("refresh_token", VStr "R0")].

(** What a token endpoint answers: with and without a refresh token. *)
Definition issuedBundle : JsVal :=
  VObj [("access_token", VStr "T"); ("token_type", VStr "Bearer");
        ("expires_in", VNum 3600)].

Definition rotatedBundle : JsVal :=
  VObj [("access_token", VStr "T"); ("token_type", VStr "Bearer");
        ("expires_in", VNum 3600); ("refresh_token", VStr "R1")].

Definition resourceMetadata : JsVal :=
  VObj [("authorization_servers", VArr [VStr "https://auth.example"])].

Definition authServerMetadata : JsVal :=
  VObj [("authorization_endpoint", VStr "https://auth.example/authorize");
        ("token_endpoint", VStr "https://auth.example/token")].

Definition documents : list JsVal :=
  [expiredBundle; refreshableBundle; issuedBundle; rotatedBundle;
   resourceMetadata; authServerMetadata].

Definition parse (text : string) : Completion Thrown JsVal :=
  match List.find (fun d => String.eqb (stringify d) text) documents with
  | Some d => Normal d
  | None => Throw (mkThrown ClsError "Unexpected token" None)
  end.

(** The text up to the first slash after the scheme. *)
Fixpoint untilSlash (s : string) : string :=
  match s with
  | EmptyString => EmptyString
  | String c rest => if Ascii.eqb c "/" then EmptyString else String c (untilSlash rest)
  end.

Definition origin (url : string) : string :=
  match dropPrefix "https://" url, dropPrefix "http://" url with
  | Some rest, _ => "https://" +:+ untilSlash rest
  | None, Some rest => "http://" +:+ untilSlash rest
  | None, None => url
  end.

#[export] Instance runtime : Runtime := {|
  JSON_parse := parse;
  JSON_stringify := stringify;
  configDir := "/home/user/.mcp-auth/mcp-remote-0.1.0";
  URL := string;
  URL_new := fun s => if startsWith "https://" s || startsWith "http://" s
                      then Some s else None;
  URL_origin := origin;
  URL_toString := fun u => u;
  URL_setPathname := fun u path => origin u +:+ path;
  URL_setSearchParam := fun u k v =>
    u +:+ (if includes u "?" then "&" else "?") +:+ k +:+ "=" +:+ v;
  URLSearchParams_toString := fun pairs =>
    join "&" (map (fun kv : string * string => kv.1 +:+ "=" +:+ kv.2) pairs);
  sanitizeUrl := fun u => Normal u;
  StringToNumber := fun _ => None
|}.

(** The SDK's schema for token bundles. *)
Definition tokensSchema (v : JsVal) : Completion Thrown StoredTokens :=
  let invalid := Throw (mkThrown ClsError "Invalid token bundle" None) in
  match v with
  | VObj fields =>
      match assoc "access_token" fields, assoc "token_type" fields with
      | VStr accessToken, VStr tokenType =>
          let number x := match x with
                          | VNum n => Some (Some n)
                          | VUndefined => Some None
                          | _ => None
                          end in
          let text x := match x with
                        | VStr t => Some (Some t)
                        | VUndefined => Some None
                        | _ => None
                        end in
          match number (assoc "expires_in" fields),
                text (assoc "refresh_token" fields),
                text (assoc "scope" fields) with
          | Some expiresIn, Some refreshToken, Some scope_ =>
              Normal (mkStoredTokens accessToken tokenType expiresIn refreshToken scope_)
          | _, _, _ => invalid
          end
      | _, _ => invalid
      end
  | _ => invalid
  end.

#[export] Instance sdk : Sdk := {| OAuthTokensSchema := tokensSchema |}.

(** The provider of the specification's second scenario. *)
Definition provider : NonPkceOAuthProvider :=
  {| serverUrlHash := "ff000102030405060708090a0b0c0d0e";
     callbackPath := "/oauth/callback";
     clientId := "A";
     clientSecret := Some "B";
     redirectUri := "http://localhost:3334/oauth/callback";
     serverUrl := "https://r.example/mcp";
     _state := "c0ffee" |}.

Definition tokensFile : string :=
  getConfigFilePath (serverUrlHash provider) "tokens.json".

Definition response (code : Z) (hs : list (string * string)) (v : JsVal) : Response :=
  mkResponse code hs (stringify v).

(** A world whose store holds [bundle], whose network answers with
    [answers], whose browser opens and whose user authorizes with the code
    [xyz]. *)
Definition world (bundle : option JsVal) (answers : list (Completion Thrown Response))
  : World :=
  {| fs := {| mkdirError := None;
              files := match bundle with
                       | Some v => {[ tokensFile := Content (stringify v) ]}
                       | None => ∅
                       end;
              writeError := None |};
     stderr := [];
     network := answers;
     browser := Normal tt;
     callback := Some "xyz";
     callbackServer := false;
     effects := [] |}.

(** The 401 of the specification's second scenario. *)
Definition unauthorized : Response :=
  mkResponse 401
    [("www-authenticate", "Bearer resource_metadata=" +:+ quoted "https://r.example/meta")]
    EmptyString.

End Fixture.

(** ** A runtime that also reads a lock file *)
Module LockFixture.
Import JS Node FilesSpec.

(** The lock of process 4711, listening on port 3334. *)
Definition lock : JsVal := lockJson 4711 3334 1700000000000.

Definition parse (text : string) : Completion Thrown JsVal :=
  if String.eqb text (Fixture.stringify lock) then Normal lock else Fixture.parse text.

(** [Fixture.runtime] with that [JSON.parse]. *)
Definition runtime : Runtime := {|
  JSON_parse := parse;
  JSON_stringify := Fixture.stringify;
  configDir := @configDir Fixture.runtime;
  URL := @URL Fixture.runtime;
  URL_new := @URL_new Fixture.runtime;
  URL_origin := @URL_origin Fixture.runtime;
  URL_toString := @URL_toString Fixture.runtime;
  URL_setPathname := @URL_setPathname Fixture.runtime;
  URL_setSearchParam := @URL_setSearchParam Fixture.runtime;
  URLSearchParams_toString := @URLSearchParams_toString Fixture.runtime;
  sanitizeUrl := @sanitizeUrl Fixture.runtime;
  StringToNumber := @StringToNumber Fixture.runtime
|}.

End LockFixture.

(** ** A runtime for a token endpoint that answers without an access token *)
Module RefreshFixture.
Import JS Node.

(** What such an endpoint answers, with status 200. *)
Definition tokenlessAnswer : JsVal :=
  VObj [("token_type", VStr "Bearer"); ("expires_in", VNum 3600)].

Definition parse (text : string) : Completion Thrown JsVal :=
  if String.eqb text (Fixture.stringify tokenlessAnswer) then Normal tokenlessAnswer
  else Fixture.parse text.

(** [Fixture.runtime] with that [JSON.parse]. *)
Definition runtime : Runtime := {|
  JSON_parse := parse;
  JSON_stringify := Fixture.stringify;
  configDir := @configDir Fixture.runtime;
  URL := @URL Fixture.runtime;
  URL_new := @URL_new Fixture.runtime;
  URL_origin := @URL_origin Fixture.runtime;
  URL_toString := @URL_toString Fixture.runtime;
  URL_setPathname := @URL_setPathname Fixture.runtime;
  URL_setSearchParam := @URL_setSearchParam Fixture.runtime;
  URLSearchParams_toString := @URLSearchParams_toString Fixture.runtime;
  sanitizeUrl := @sanitizeUrl Fixture.runtime;
  StringToNumber := @StringToNumber Fixture.runtime
|}.

End RefreshFixture.

(* ===================================================================== *)
(** * Part II: theorems                                                   *)
(* ===================================================================== *)


(** ** The tool filter *)
Section ToolFilter.
Import JS Utils Glob.

Lemma split_nonempty sep s : split sep s <> [].
Proof.
  destruct s as [|c rest]; simpl; [discriminate|].
  destruct (Ascii.eqb c sep); [discriminate|].
  destruct (split sep rest); discriminate.
Qed.

Lemma append_cons (x : ascii) (a b : string) :
  String x a +:+ b = String x (a +:+ b).
Proof. reflexivity. Qed.

Lemma append_nil_l (b : string) : EmptyString +:+ b = b.
Proof. reflexivity. Qed.

Lemma append_assoc' (a b c : string) : (a +:+ b) +:+ c = a +:+ b +:+ c.
Proof.
  induction a as [|x a IH]; [reflexivity|].
  rewrite !append_cons, IH. reflexivity.
Qed.

Lemma parseBody_escape seg k :
  parseBody (escapeNonWord seg +:+ k) = app (lits seg) <$> parseBody k.
Proof.
  induction seg as [|c rest IH]; simpl.
  - rewrite append_nil_l. destruct (parseBody k); reflexivity.
  - destruct (isWordChar c) eqn:Hw; rewrite ?append_cons; simpl.
    + rewrite Hw, IH. destruct (parseBody k); reflexivity.
    + rewrite Hw, IH. destruct (parseBody k); reflexivity.
Qed.

Lemma parseBody_join segs :
  segs <> [] ->
  parseBody (join ".*" (map escapeNonWord segs) +:+ "$") = Some (atomsOf segs).
Proof.
  induction segs as [|seg rest IH]; [congruence|]. intros _.
  destruct rest as [|seg' rest'].
  - simpl. rewrite parseBody_escape. simpl. rewrite app_nil_r. reflexivity.
  - change (join ".*" (map escapeNonWord (seg :: seg' :: rest')))
      with (escapeNonWord seg +:+ ".*" +:+ join ".*" (map escapeNonWord (seg' :: rest'))).
    rewrite !append_assoc', parseBody_escape.
    rewrite !append_cons, append_nil_l.
    change (parseBody (String "." (String "*" (join ".*" (map escapeNonWord (seg' :: rest')) +:+ "$"))))
      with (cons AnyStar <$> parseBody (join ".*" (map escapeNonWord (seg' :: rest')) +:+ "$")).
    rewrite IH by discriminate. reflexivity.
Qed.

(** The [RegExp] constructor accepts every source [patternToRegex] builds:
    escaping leaves no metacharacter behind. *)
Lemma patternToRegex_atoms pattern :
  patternToRegex pattern = Some (atomsOf (split "*" pattern)).
Proof.
  unfold patternToRegex, regexPattern, RegExp_new.
  rewrite append_cons, append_nil_l. simpl.
  apply parseBody_join, split_nonempty.
Qed.

Lemma test_star_unfold r s :
  test (AnyStar :: r) s =
  test r s || match s with
              | String x s' => negb (isLineTerminator x) && test (AnyStar :: r) s'
              | EmptyString => false
              end.
Proof. destruct s; reflexivity. Qed.

Lemma test_lits_only seg s :
  test (lits seg) s = true <-> canon seg = canon s.
Proof.
  revert s. induction seg as [|c seg IH]; intros [|x s]; simpl;
    try (split; [discriminate | congruence]); [tauto|].
  rewrite andb_true_iff, IH, Ascii.eqb_eq. split.
  - intros [-> ->]. reflexivity.
  - intros H. injection H. auto.
Qed.

Lemma test_lits seg r s :
  test (lits seg ++ r) s = true <->
  exists t s', s = t +:+ s' /\ canon seg = canon t /\ test r s' = true.
Proof.
  revert s. induction seg as [|c seg IH]; intros s.
  - simpl. split.
    + intros H. exists EmptyString, s. auto.
    + intros (t & s' & -> & Ht & H). destruct t; [exact H | discriminate Ht].
  - change (lits (String c seg) ++ r) with (Lit c :: (lits seg ++ r)).
    destruct s as [|x s]; simpl.
    + split; [discriminate|].
      intros (t & s' & Hs & Ht & _). destruct t; [discriminate Ht | discriminate Hs].
    + rewrite andb_true_iff, IH, Ascii.eqb_eq. split.
      * intros (Hc & t & s' & -> & Ht & H).
        exists (String x t), s'. simpl. rewrite Hc, Ht. auto.
      * intros (t & s' & Hs & Ht & H). destruct t as [|y t]; [discriminate Ht|].
        rewrite append_cons in Hs. injection Hs as -> ->. simpl in Ht.
        injection Ht as Hc Ht. split; [exact Hc|]. exists t, s'. auto.
Qed.

Lemma test_star r s :
  test (AnyStar :: r) s = true <->
  exists gap s', s = gap +:+ s' /\ noLineTerminator gap = true /\ test r s' = true.
Proof.
  induction s as [|x s IH]; rewrite test_star_unfold.
  - rewrite orb_false_r. split.
    + intros H. exists EmptyString, EmptyString. auto.
    + intros (gap & s' & Hs & _ & H). destruct gap; [|discriminate Hs].
      rewrite append_nil_l in Hs. subst s'. exact H.
  - rewrite orb_true_iff, andb_true_iff, IH. split.
    + intros [H | (Hx & gap & s' & -> & Hg & H)].
      * exists EmptyString, (String x s). auto.
      * exists (String x gap), s'. simpl. rewrite Hx, Hg. auto.
    + intros (gap & s' & Hs & Hg & H). destruct gap as [|y gap].
      * rewrite append_nil_l in Hs. subst s'. left. exact H.
      * rewrite append_cons in Hs. injection Hs as -> ->. simpl in Hg.
        apply andb_true_iff in Hg as [Hy Hg]. right. split; [exact Hy|].
        exists gap, s'. auto.
Qed.

(** The engine's backtracking search decides exactly the decomposition the
    specification describes. *)
Lemma test_atomsOf segs name :
  segs <> [] ->
  test (atomsOf segs) name = true <-> GlobMatch segs name.
Proof.
  revert name. induction segs as [|seg rest IH]; [congruence|]. intros name _.
  destruct rest as [|seg' rest'].
  - simpl. rewrite test_lits_only. split.
    + apply GlobLast.
    + intros H. inversion H; subst; [assumption|].
      match goal with H' : GlobMatch [] _ |- _ => inversion H' end.
  - change (atomsOf (seg :: seg' :: rest'))
      with (lits seg ++ AnyStar :: atomsOf (seg' :: rest')).
    rewrite test_lits. split.
    + intros (t & s' & -> & Ht & H). apply test_star in H as (gap & s'' & -> & Hg & H).
      apply IH in H; [|discriminate]. now apply GlobMore.
    + intros H. inversion H as [|? ? t gap rest0 Ht Hg Hrest]; subst.
      exists t, (gap +:+ rest0). split; [reflexivity|]. split; [exact Ht|].
      apply test_star. exists gap, rest0. split; [reflexivity|]. split; [exact Hg|].
      apply IH; [discriminate | exact Hrest].
Qed.

Lemma shouldIncludeTool_loop_spec patterns name :
  exists b, shouldIncludeTool_loop patterns name = Normal b /\
            (b = false <-> exists p, In p patterns /\ matchesPattern p name).
Proof.
  induction patterns as [|p rest (b & Hb & IH)]; simpl.
  - exists true. split; [reflexivity|]. split; [discriminate|]. intros (p & [] & _).
  - rewrite patternToRegex_atoms.
    destruct (test (atomsOf (split "*" p)) name) eqn:Ht.
    + exists false. split; [reflexivity|]. split; [|reflexivity]. intros _.
      exists p. split; [now left|]. apply test_atomsOf; [apply split_nonempty | exact Ht].
    + exists b. split; [exact Hb|]. rewrite IH. split.
      * intros (q & Hq & Hm). exists q. split; [now right | exact Hm].
      * intros (q & [<- | Hq] & Hm); [|exists q; auto].
        apply test_atomsOf in Hm; [congruence | apply split_nonempty].
Qed.

(** C3. For every pattern list and every tool name, [shouldIncludeTool]
    returns (the [RegExp] constructor never throws on an escaped pattern),
    and it returns [false] iff at least one pattern of the list matches the
    name: split on [*], its segments taken literally and joined by [.*],
    from end to end and up to case; with an empty or a missing pattern list
    every name is included. *)
Theorem shouldIncludeTool_iff_some_pattern_matches :
  forall (ignorePatterns : option (list string)) (toolName : string),
    (exists b, shouldIncludeTool ignorePatterns toolName = Normal b /\
       (b = false <->
        exists patterns pattern,
          ignorePatterns = Some patterns /\ In pattern patterns /\
          matchesPattern pattern toolName)) /\
    shouldIncludeTool None toolName = Normal true /\
    shouldIncludeTool (Some []) toolName = Normal true.
Proof.
  intros ignorePatterns toolName. split; [|split; reflexivity].
  destruct ignorePatterns as [patterns|].
  - destruct (shouldIncludeTool_loop_spec patterns toolName) as (b & Hb & Hiff).
    exists b. split.
    + destruct patterns; [|exact Hb]. simpl in Hb. exact Hb.
    + rewrite Hiff. split.
      * intros (p & Hin & Hm). exists patterns, p. auto.
      * intros (ps & p & Heq & Hin & Hm). injection Heq as <-. exists p. auto.
  - exists true. split; [reflexivity|]. split; [discriminate|].
    intros (ps & p & Heq & _). discriminate Heq.
Qed.

End ToolFilter.

(** ** The proxy router *)
Section ProxyRouter.
Import JS Utils ProxySpec.
Variable MCP_REMOTE_VERSION : string.
Variable ignoredTools : list string.

Local Abbreviation onClientMessage := (onClientMessage MCP_REMOTE_VERSION ignoredTools).
Local Abbreviation onServerMessage := (onServerMessage ignoredTools).
Local Abbreviation step := (step MCP_REMOTE_VERSION ignoredTools).

Lemma truthyId_None i : truthyId i = None <-> falsyId i.
Proof.
  unfold falsyId. destruct i as [[n|s]|]; simpl.
  - destruct (Z.eqb_spec n 0) as [->|Hn]; split; auto; try discriminate.
    intros [H|[H|H]]; congruence.
  - destruct (String.eqb_spec s EmptyString) as [->|Hs]; split; auto; try discriminate.
    intros [H|[H|H]]; congruence.
  - tauto.
Qed.

(** C10. A request whose id is absent, [0] or the empty string is
    forwarded without being recorded in the pending-request table; a
    response with such an id is handed to the client as it came, the table
    neither consulted nor changed; so the answer to a [tools/list] request
    with id [0] reaches the client unfiltered, whatever the ignore
    patterns. *)
Theorem falsy_id_is_treated_as_no_id :
  forall (st : Proxy) (m : Message),
    falsyId (id m) ->
    interceptRequest (Some (transformRequestFunction ignoredTools)) m st
      = (Normal (Forward m), st) /\
    pendingRequests (snd (onClientMessage m st)) = pendingRequests st /\
    interceptResponse (Some (transformResponseFunction ignoredTools)) m st
      = (Normal m, st) /\
    onServerMessage m st = (Normal tt, emit (SendToClient m) st) /\
    (forall names,
        id m = Some (IdNum 0) ->
        step (step st (ClientMessage (toolsListRequest (id m))))
             (ServerMessage (toolsListResponse (id m) names))
        = emit (SendToClient (toolsListResponse (id m) names))
               (emit (SendToServer (toolsListRequest (id m))) st)).
Proof.
  intros st m Hf. apply truthyId_None in Hf.
  assert (Hreq : interceptRequest (Some (transformRequestFunction ignoredTools)) m st
                 = (Normal (Forward m), st))
    by (unfold interceptRequest; rewrite Hf; reflexivity).
  assert (Hres : interceptResponse (Some (transformResponseFunction ignoredTools)) m st
                 = (Normal m, st))
    by (unfold interceptResponse; rewrite Hf; reflexivity).
  split; [exact Hreq|]. split; [|split; [exact Hres|split]].
  - unfold Utils.onClientMessage. rewrite Hreq, Hf.
    destruct (bool_decide (method m = Some "initialize")); [|reflexivity].
    destruct (tagClientInfo MCP_REMOTE_VERSION m); reflexivity.
  - unfold Utils.onServerMessage. rewrite Hres. reflexivity.
  - intros names ->. reflexivity.
Qed.

(** C4, as the code has it. A [tools/call] that carries an id other than
    [0] and the empty string and names (non-empty name) a tool the filter
    excludes is not forwarded: the client is sent the JSON-RPC error
    [-32603] with the request's id, and nothing goes to the server.  A
    [tools/call] whose name the filter includes is forwarded unchanged. A
    [tools/call] without an id is forwarded without the filter being
    consulted. *)
Theorem excluded_tools_call_with_id_is_answered_not_forwarded :
  forall (st : Proxy) (request : Message) (toolName : JsVal),
    method request = Some "tools/call" ->
    toolName = getPropOpt (params request) "name" ->
    (forall i,
        truthyId (id request) = Some i ->
        truthy toolName = true ->
        shouldIncludeTool (Some ignoredTools) (ToString toolName) = Normal false ->
        onClientMessage request st
        = (Normal tt,
           emit (SendToClient
                   {| jsonrpc := "2.0"; id := id request; method := None;
                      params := VUndefined; result := VUndefined;
                      error := VObj [("code", VNum (-32603));
                                     ("message",
                                      VStr ("Tool " +:+ quoted (ToString toolName)
                                            +:+ " is not available"))] |})
                (setPending (<[i := request]> (pendingRequests st)) st))) /\
    (shouldIncludeTool (Some ignoredTools) (ToString toolName) = Normal true ->
     wire (snd (onClientMessage request st)) = wire st ++ [SendToServer request]) /\
    (id request = None ->
     onClientMessage request st = (Normal tt, emit (SendToServer request) st)).
Proof.
  intros st request toolName Hm Hname.
  assert (Hinit : bool_decide (method request = Some "initialize") = false)
    by (rewrite Hm; reflexivity).
  assert (Hcall : bool_decide (method request = Some "tools/call") = true)
    by (rewrite Hm; reflexivity).
  split; [|split].
  - intros i Hi Ht Hex.
    unfold Utils.onClientMessage, interceptRequest, transformRequestFunction.
    rewrite Hi, Hcall, <- Hname, Ht, Hex. reflexivity.
  - intros Hin.
    unfold Utils.onClientMessage, interceptRequest, transformRequestFunction.
    rewrite Hcall, <- Hname, Hin.
    destruct (truthyId (id request)); [destruct (truthy toolName)|];
      simpl; rewrite Hinit; reflexivity.
  - intros Hid.
    unfold Utils.onClientMessage, interceptRequest. rewrite Hid. simpl.
    rewrite Hinit. reflexivity.
Qed.

Lemma transformRequestFunction_pending request st :
  pendingRequests (snd (transformRequestFunction ignoredTools request st))
  = pendingRequests st.
Proof.
  unfold transformRequestFunction.
  destruct (_ && _); [|reflexivity].
  destruct (shouldIncludeTool _ _) as [[|]|]; reflexivity.
Qed.

Lemma step_dom st ev :
  dom (pendingRequests (step st ev)) = touch (dom (pendingRequests st)) ev.
Proof.
  destruct ev as [m|m| | | |]; simpl; try reflexivity.
  - unfold Utils.onClientMessage, interceptRequest.
    destruct (truthyId (id m)) as [i|] eqn:Hi.
    + pose proof (transformRequestFunction_pending m
                    (setPending (<[i:=m]> (pendingRequests st)) st)) as Hp.
      destruct (transformRequestFunction _ _ _) as [[[m'|]|e] st'] eqn:Htr;
        simpl in Hp; simpl; try (rewrite Hp; simpl; apply dom_insert_L).
      assert (m' = m) as ->.
      { unfold transformRequestFunction in Htr.
        destruct (_ && _); [|congruence].
        destruct (shouldIncludeTool _ _) as [[|]|]; congruence. }
      destruct (bool_decide _); [|simpl; rewrite Hp; simpl; apply dom_insert_L].
      destruct (tagClientInfo _ _); simpl; [|rewrite Hp; simpl; apply dom_insert_L].
      rewrite Hi. simpl. rewrite dom_insert_L, Hp. simpl. rewrite dom_insert_L.
      apply set_eq. intros x. rewrite !elem_of_union. tauto.
    + destruct (bool_decide _); [|reflexivity].
      destruct (tagClientInfo _ _); [|reflexivity]. simpl. rewrite Hi. reflexivity.
  - unfold Utils.onServerMessage, interceptResponse.
    destruct (truthyId (id m)) as [i|] eqn:Hi; [|reflexivity].
    destruct (transformResponseFunction _ _ _); simpl; apply dom_delete_L.
  - unfold onClientClose. destruct (transportToServerClosed st); reflexivity.
  - unfold onServerClose. destruct (transportToClientClosed st); reflexivity.
Qed.

(** The ids in the table after a session are those the events alone
    determine: recorded on every client message with an id, removed on
    every server message with that id. *)
Lemma run_dom events :
  dom (pendingRequests (run MCP_REMOTE_VERSION ignoredTools events))
  = fold_left touch events ∅.
Proof.
  unfold run.
  assert (H : forall st ids, dom (pendingRequests st) = ids ->
                dom (pendingRequests (fold_left step events st))
                = fold_left touch events ids).
  { induction events as [|ev evs IH]; intros st ids Hst; simpl; [exact Hst|].
    apply IH. rewrite step_dom, Hst. reflexivity. }
  apply H. simpl. apply dom_empty_L.
Qed.

(** C7 at a blocked request. With [delete*] ignored, a [tools/call] of
    [deleteTask] with id 1 is answered by the proxy and never forwarded, so
    no forwarded request is waiting for a response; all the same its entry
    is in the pending-request table, and is still there when the session
    has been closed. *)
Theorem blocked_request_stays_in_pending_table :
  let call := deleteTaskCall (Some (IdNum 1)) in
  let st := run MCP_REMOTE_VERSION ["delete*"] [ClientMessage call; ClientClosed] in
  wire st = [SendToClient (errorResponse call (VStr "deleteTask")); CloseServer] /\
  pendingRequests st !! IdNum 1 = Some call /\
  pendingRequests st <> ∅.
Proof.
  vm_compute. split; [reflexivity|]. split; [reflexivity|]. discriminate.
Qed.

End ProxyRouter.

(** C4 as stated fails: a [tools/call] of an excluded tool that carries no
    id goes to the server, and the client gets no error response. *)
Lemma tools_call_without_id_is_forwarded :
  Utils.shouldIncludeTool (Some ["delete*"]) "deleteTask" = JS.Normal false /\
  Utils.wire (Utils.run "0.1.0" ["delete*"]
                [Utils.ClientMessage (ProxySpec.deleteTaskCall None)])
  = [Utils.SendToServer (ProxySpec.deleteTaskCall None)].
Proof. vm_compute. split; reflexivity. Qed.

(** Scenario 3, the call: [deleteTask] with id "3" is answered with the
    error and not forwarded. *)
Lemma excluded_tools_call_with_id_witness :
  let request := ProxySpec.deleteTaskCall (Some (Utils.IdStr "3")) in
  Utils.method request = Some "tools/call" /\
  Utils.onClientMessage "0.1.0" ["delete*"] request Utils.mcpProxy
  = (JS.Normal tt,
     Utils.emit (Utils.SendToClient
       {| Utils.jsonrpc := "2.0"; Utils.id := Some (Utils.IdStr "3");
          Utils.method := None; Utils.params := JS.VUndefined;
          Utils.result := JS.VUndefined;
          Utils.error := JS.VObj [("code", JS.VNum (-32603));
                                  ("message", JS.VStr ("Tool " +:+ JS.quoted "deleteTask"
                                           +:+ " is not available"))] |})
       (Utils.setPending (<[Utils.IdStr "3" := request]> ∅) Utils.mcpProxy)).
Proof.
  split; [reflexivity|].
  refine (proj1 (excluded_tools_call_with_id_is_answered_not_forwarded
                   "0.1.0" ["delete*"] Utils.mcpProxy
                   (ProxySpec.deleteTaskCall (Some (Utils.IdStr "3")))
                   (JS.VStr "deleteTask") eq_refl eq_refl)
                (Utils.IdStr "3") eq_refl eq_refl _).
  vm_compute. reflexivity.
Defined.

(** A [tools/list] answer with id 0 passes the [delete*] filter whole. *)
Lemma falsy_id_is_treated_as_no_id_witness :
  let answer := ProxySpec.toolsListResponse (Some (Utils.IdNum 0))
                  ["createTask"; "deleteTask"] in
  ProxySpec.falsyId (Utils.id answer) /\
  Utils.onServerMessage ["delete*"] answer Utils.mcpProxy
  = (JS.Normal tt, Utils.emit (Utils.SendToClient answer) Utils.mcpProxy).
Proof.
  assert (H : ProxySpec.falsyId
                (Utils.id (ProxySpec.toolsListResponse (Some (Utils.IdNum 0))
                             ["createTask"; "deleteTask"])))
    by (right; left; reflexivity).
  split; [exact H|].
  exact (proj1 (proj2 (proj2 (proj2
           (falsy_id_is_treated_as_no_id "0.1.0" ["delete*"] Utils.mcpProxy
              (ProxySpec.toolsListResponse (Some (Utils.IdNum 0))
                 ["createTask"; "deleteTask"]) H))))).
Defined.

(** ** The default callback port *)
Section DefaultPort.
Import JS Utils PortSpec.

Lemma hexChar_facts d :
  0 <= d < 16 ->
  hexDigit (hexChar d) = Some d /\ isWhiteSpace (hexChar d) = false /\
  Ascii.eqb (hexChar d) "-" = false /\ Ascii.eqb (hexChar d) "+" = false /\
  Ascii.eqb (hexChar d) "x" = false /\ Ascii.eqb (hexChar d) "X" = false.
Proof.
  intros Hd.
  assert (H : d = 0 \/ d = 1 \/ d = 2 \/ d = 3 \/ d = 4 \/ d = 5 \/ d = 6 \/ d = 7 \/
              d = 8 \/ d = 9 \/ d = 10 \/ d = 11 \/ d = 12 \/ d = 13 \/ d = 14 \/ d = 15)
    by lia.
  repeat (destruct H as [-> | H]; [vm_compute; repeat split|]).
  subst d. vm_compute. repeat split.
Qed.

Lemma parseInt16_four_digits a b c d :
  0 <= a < 16 -> 0 <= b < 16 -> 0 <= c < 16 -> 0 <= d < 16 ->
  parseInt16 (String (hexChar a) (String (hexChar b)
                (String (hexChar c) (String (hexChar d) EmptyString))))
  = Some (((a * 16 + b) * 16 + c) * 16 + d).
Proof.
  intros Ha Hb Hc Hd.
  destruct (hexChar_facts a Ha) as (Ha1 & Ha2 & Ha3 & Ha4 & _).
  destruct (hexChar_facts b Hb) as (Hb1 & _ & _ & _ & Hb5 & Hb6).
  destruct (hexChar_facts c Hc) as (Hc1 & _).
  destruct (hexChar_facts d Hd) as (Hd1 & _).
  unfold parseInt16. simpl trimStart. rewrite Ha2, Ha3, Ha4.
  unfold stripHexPrefix. rewrite Hb5, Hb6, andb_false_r.
  simpl. rewrite Ha1, Hb1, Hc1, Hd1. simpl. f_equal. lia.
Qed.

Lemma byte_range (b : Byte.byte) : 0 <= Z.of_N (Byte.to_N b) < 256.
Proof. pose proof (Byte.to_N_bounded b). lia. Qed.

(** C8. For the fingerprint of every 16-byte digest, the default callback
    port is 3335 plus the first 16 bits of the digest modulo 45816, and it
    lies between 3335 and 49150; a fingerprint that begins [ff00] gives
    port 22799. *)
Theorem calculateDefaultPort_of_fingerprint :
  forall digest : list Byte.byte,
    length digest = 16%nat ->
    calculateDefaultPort (digestHex digest)
      = Some (3335 + first16bits digest mod 45816) /\
    3335 <= 3335 + first16bits digest mod 45816 <= 49150 /\
    (forall rest, calculateDefaultPort ("ff00" +:+ rest) = Some 22799).
Proof.
  intros digest Hlen.
  destruct digest as [|b0 [|b1 rest]]; try discriminate Hlen.
  pose proof (byte_range b0) as H0. pose proof (byte_range b1) as H1.
  set (n0 := Z.of_N (Byte.to_N b0)) in *. set (n1 := Z.of_N (Byte.to_N b1)) in *.
  assert (Hv : ((n0 / 16 * 16 + n0 mod 16) * 16 + n1 / 16) * 16 + n1 mod 16
               = first16bits (b0 :: b1 :: rest)).
  { unfold first16bits. fold n0 n1.
    pose proof (Z.div_mod n0 16). pose proof (Z.div_mod n1 16). lia. }
  assert (Hr : 0 <= first16bits (b0 :: b1 :: rest) < 65536)
    by (unfold first16bits; fold n0 n1; lia).
  split; [|split].
  - unfold calculateDefaultPort. simpl digestHex. fold n0 n1. simpl substring0.
    rewrite parseInt16_four_digits.
    + rewrite Hv. simpl. rewrite Z.rem_mod_nonneg by lia. reflexivity.
    + split; [apply Z.div_pos; lia | apply Z.div_lt_upper_bound; lia].
    + apply Z.mod_pos_bound; lia.
    + split; [apply Z.div_pos; lia | apply Z.div_lt_upper_bound; lia].
    + apply Z.mod_pos_bound; lia.
  - pose proof (Z.mod_pos_bound (first16bits (b0 :: b1 :: rest)) 45816). lia.
  - intros r. reflexivity.
Qed.

End DefaultPort.

(** Scenario 5: a digest that begins ff 00. *)
Lemma calculateDefaultPort_of_fingerprint_witness :
  let digest := [Byte.xff; Byte.x00; Byte.x01; Byte.x02; Byte.x03; Byte.x04;
                 Byte.x05; Byte.x06; Byte.x07; Byte.x08; Byte.x09; Byte.x0a;
                 Byte.x0b; Byte.x0c; Byte.x0d; Byte.x0e] in
  length digest = 16%nat /\
  JS.digestHex digest = "ff000102030405060708090a0b0c0d0e" /\
  Utils.calculateDefaultPort (JS.digestHex digest) = Some 22799.
Proof.
  split; [reflexivity|]. split; [reflexivity|].
  exact (proj1 (calculateDefaultPort_of_fingerprint
                  [Byte.xff; Byte.x00; Byte.x01; Byte.x02; Byte.x03; Byte.x04;
                   Byte.x05; Byte.x06; Byte.x07; Byte.x08; Byte.x09; Byte.x0a;
                   Byte.x0b; Byte.x0c; Byte.x0d; Byte.x0e] eq_refl)).
Defined.

(** ** The transport selector *)
Section TransportSelector.
Import JS Utils ConnectSpec.
Variable client : bool.
Variable world : ConnectWorld.

Local Abbreviation connect := (connectToRemoteServer client world).
Local Abbreviation attempt :=
  (fun depth strategy =>
     connectAttempt client world depth (sseTransportOf strategy) (transportOf strategy)).

(** What the selector does with a protocol error.  When the attempt of a
    [*-first] strategy fails with an [Error] whose message contains 404,
    405, Not Found or Method Not Allowed: if REASON_TRANSPORT_FALLBACK is
    not yet in [recursionReasons] it is added and the connection is retried
    once, on the other transport family under that family's [*-only]
    strategy, so a second such failure is rethrown as it is; only a call
    that is handed the reason together with a [*-first] strategy fails
    with "Already attempted transport fallback. Giving up.".  Under a
    [*-only] strategy no other transport is tried, and an error that does
    not ask for authorization is rethrown. *)
Theorem transport_fallback_happens_once :
  forall (fuel depth : nat) (transportStrategy : TransportStrategy)
         (recursionReasons : gset string) (tried : list TransportKind)
         (error : Thrown),
    attempt depth transportStrategy = Throw error ->
    instanceofError error = true ->
    isProtocolError error = true ->
    ((transportStrategy = sse_first \/ transportStrategy = http_first) ->
     (REASON_TRANSPORT_FALLBACK ∉ recursionReasons ->
      connect (S fuel) depth transportStrategy recursionReasons tried
      = connect fuel (S depth) (otherOnly transportStrategy)
          ({[REASON_TRANSPORT_FALLBACK]} ∪ recursionReasons)
          (tried ++ [transportOf transportStrategy])) /\
     (REASON_TRANSPORT_FALLBACK ∉ recursionReasons ->
      forall error2,
        attempt (S depth) (otherOnly transportStrategy) = Throw error2 ->
        isAuthError error2 = false ->
        connect (S (S fuel)) depth transportStrategy recursionReasons tried
        = Some {| outcome := Threw error2;
                  reasonsAfter := {[REASON_TRANSPORT_FALLBACK]} ∪ recursionReasons;
                  attempted := tried ++ [transportOf transportStrategy;
                                         transportOf (otherOnly transportStrategy)] |}) /\
     (REASON_TRANSPORT_FALLBACK ∈ recursionReasons ->
      connect (S fuel) depth transportStrategy recursionReasons tried
      = Some {| outcome := Threw (Error "Already attempted transport fallback. Giving up.");
                reasonsAfter := recursionReasons;
                attempted := tried ++ [transportOf transportStrategy] |})) /\
    ((transportStrategy = sse_only \/ transportStrategy = http_only) ->
     isAuthError error = false ->
     connect (S fuel) depth transportStrategy recursionReasons tried
     = Some {| outcome := Threw error;
               reasonsAfter := recursionReasons;
               attempted := tried ++ [transportOf transportStrategy] |}).
Proof.
  intros fuel depth strategy reasons tried error Hatt Herr Hproto.
  assert (Honly : forall f d s r t e,
             (s = sse_only \/ s = http_only) ->
             attempt d s = Throw e -> isAuthError e = false ->
             connect (S f) d s r t
             = Some {| outcome := Threw e; reasonsAfter := r;
                       attempted := t ++ [transportOf s] |}).
  { intros f d s r t e Hs Ha He. simpl. rewrite Ha.
    destruct Hs as [-> | ->]; simpl; rewrite andb_false_r, He; reflexivity. }
  split.
  - intros Hfirst.
    assert (Hsaf : instanceofError error &&
                   match strategy with http_first | sse_first => true | _ => false end &&
                   isProtocolError error = true)
      by (rewrite Herr, Hproto; destruct Hfirst as [-> | ->]; reflexivity).
    assert (Hstep : REASON_TRANSPORT_FALLBACK ∉ reasons ->
                    connect (S fuel) depth strategy reasons tried
                    = connect fuel (S depth) (otherOnly strategy)
                        ({[REASON_TRANSPORT_FALLBACK]} ∪ reasons)
                        (tried ++ [transportOf strategy])).
    { intros Hfresh. simpl. rewrite Hatt, Hsaf.
      rewrite bool_decide_eq_false_2 by exact Hfresh. reflexivity. }
    split; [exact Hstep|]. split.
    + intros Hfresh error2 Hatt2 Hauth2.
      change (connect (S (S fuel)) depth strategy reasons tried)
        with (connect (S (S fuel)) depth strategy reasons tried).
      assert (Hstep2 : connect (S (S fuel)) depth strategy reasons tried
                       = connect (S fuel) (S depth) (otherOnly strategy)
                           ({[REASON_TRANSPORT_FALLBACK]} ∪ reasons)
                           (tried ++ [transportOf strategy])).
      { simpl. rewrite Hatt, Hsaf.
        rewrite bool_decide_eq_false_2 by exact Hfresh. reflexivity. }
      rewrite Hstep2, (Honly fuel (S depth) (otherOnly strategy) _ _ error2).
      * rewrite <- app_assoc. reflexivity.
      * unfold otherOnly. destruct (sseTransportOf strategy); auto.
      * exact Hatt2.
      * exact Hauth2.
    + intros Hin. simpl. rewrite Hatt, Hsaf.
      rewrite bool_decide_eq_true_2 by exact Hin. reflexivity.
  - intros Hs Hauth. apply Honly; assumption.
Qed.

(** Three nested calls are the most there can be: each recursive call puts
    a reason in the set that it did not hold, and there are two reasons. *)
Lemma connectToRemoteServer_settles fuel depth transportStrategy recursionReasons tried :
  ((if bool_decide (REASON_TRANSPORT_FALLBACK ∈ recursionReasons) then 0 else 1)
   + (if bool_decide (REASON_AUTH_NEEDED ∈ recursionReasons) then 0 else 1)
   < fuel)%nat ->
  is_Some (connect fuel depth transportStrategy recursionReasons tried).
Proof.
  revert depth transportStrategy recursionReasons tried.
  induction fuel as [|fuel IH]; intros depth strategy reasons tried Hf; [lia|].
  simpl connectToRemoteServer.
  destruct (connectAttempt _ _ _ _ _) as [|error]; [eauto|].
  destruct (_ && _ && _).
  - destruct (bool_decide (REASON_TRANSPORT_FALLBACK ∈ reasons)) eqn:Hfb; [eauto|].
    apply IH. clear IH.
    rewrite (bool_decide_eq_true_2 (REASON_TRANSPORT_FALLBACK ∈ _)) by set_solver.
    destruct (bool_decide (REASON_AUTH_NEEDED ∈ reasons)) eqn:Hau.
    + apply bool_decide_eq_true in Hau.
      rewrite (bool_decide_eq_true_2 (REASON_AUTH_NEEDED ∈ _)) by set_solver. lia.
    + destruct (bool_decide (REASON_AUTH_NEEDED ∈ {[REASON_TRANSPORT_FALLBACK]} ∪ reasons)); lia.
  - destruct (isAuthError error); [|eauto].
    destruct (authInitializer world depth) as [[skip [code|]]|]; eauto.
    destruct (finishAuth world depth _ code); [|eauto].
    destruct (bool_decide (REASON_AUTH_NEEDED ∈ reasons)) eqn:Hau; [eauto|].
    apply IH. clear IH.
    rewrite (bool_decide_eq_true_2 (REASON_AUTH_NEEDED ∈ _)) by set_solver.
    destruct (bool_decide (REASON_TRANSPORT_FALLBACK ∈ reasons)) eqn:Hfb.
    + apply bool_decide_eq_true in Hfb.
      rewrite (bool_decide_eq_true_2 (REASON_TRANSPORT_FALLBACK ∈ _)) by set_solver. lia.
    + destruct (bool_decide (REASON_TRANSPORT_FALLBACK ∈ {[REASON_AUTH_NEEDED]} ∪ reasons)); lia.
Qed.

End TransportSelector.

(** C2 at the first scenario of the specification.  With [http-first]
    and a remote that answers 405 on both transports, the second failure
    -- REASON_TRANSPORT_FALLBACK is in the set by then -- is rethrown as the
    405 error it is, not as "Already attempted transport fallback. Giving
    up.": the retry runs under [sse-only], and the test of the set stands
    behind a test for a [*-first] strategy. *)
Lemma second_fallback_failure_is_rethrown :
  exists r,
    Utils.connectToRemoteServer false ConnectSpec.always405 3 0 Utils.http_first ∅ []
    = Some r /\
    Utils.attempted r = [Utils.StreamableHTTPClientTransport; Utils.SSEClientTransport] /\
    Utils.REASON_TRANSPORT_FALLBACK ∈ Utils.reasonsAfter r /\
    Utils.outcome r = Utils.Threw (JS.Error "HTTP 405") /\
    Utils.outcome r
    <> Utils.Threw (JS.Error "Already attempted transport fallback. Giving up.").
Proof.
  eexists. split; [reflexivity|]. simpl.
  split; [reflexivity|]. split; [set_solver|]. split; [reflexivity | discriminate].
Qed.

(** The first scenario as the code runs it: 405 on streamable HTTP, then
    405 on SSE, and the second error is what the caller gets. *)
Lemma transport_fallback_happens_once_witness :
  Utils.connectAttempt false ConnectSpec.always405 0 false
    Utils.StreamableHTTPClientTransport = JS.Throw (JS.Error "HTTP 405") /\
  Utils.connectToRemoteServer false ConnectSpec.always405 2 0 Utils.http_first ∅ []
  = Some {| Utils.outcome := Utils.Threw (JS.Error "HTTP 405");
            Utils.reasonsAfter := {[Utils.REASON_TRANSPORT_FALLBACK]} ∪ ∅;
            Utils.attempted := [Utils.StreamableHTTPClientTransport;
                                Utils.SSEClientTransport] |}.
Proof.
  split; [reflexivity|].
  refine (proj1 (proj2 (proj1 (transport_fallback_happens_once false ConnectSpec.always405
            0 0 Utils.http_first ∅ [] (JS.Error "HTTP 405") eq_refl eq_refl eq_refl)
            (or_intror eq_refl))) _ (JS.Error "HTTP 405") eq_refl eq_refl).
  set_solver.
Defined.

(** ** The credential store *)
Section CredentialStore.
Import JS Node McpAuthConfig OAuthProvider StoreSpec.
Context {rt : Runtime} {sdk : Sdk}.

(** What [readJsonFile] does, case by case. *)
Lemma readJsonFile_cases {T} (schema : JsVal -> Completion Thrown T)
      serverUrlHash filename (w : World) :
  readJsonFile serverUrlHash filename schema w =
  match mkdirError (fs w) with
  | Some e =>
      (Fulfilled None,
       setStderr ((stderr w ++ ["Error creating config directory:"])
                  ++ readWarning filename e) w)
  | None =>
      match files (fs w) !! getConfigFilePath serverUrlHash filename with
      | None => (Fulfilled None, w)
      | Some (Unreadable e) =>
          (Fulfilled None, setStderr (stderr w ++ readWarning filename e) w)
      | Some (Content text) =>
          match JSON_parse text with
          | Throw e => (Fulfilled None, setStderr (stderr w ++ readWarning filename e) w)
          | Normal json =>
              match schema json with
              | Throw e =>
                  (Fulfilled None, setStderr (stderr w ++ readWarning filename e) w)
              | Normal result => (Fulfilled (Some result), w)
              end
          end
      end
  end.
Proof.
  assert (Hw : forall e (w' : World),
             (if bool_decide (code e = Some "ENOENT") then ret None
              else abind (log ("Error reading " +:+ filename +:+ ":"))
                         (fun _ => ret (@None T))) w'
             = (Fulfilled None, setStderr (stderr w' ++ readWarning filename e) w')).
  { intros e w'. unfold readWarning. destruct (bool_decide _); simpl.
    - unfold ret, setStderr. rewrite app_nil_r. destruct w'; reflexivity.
    - reflexivity. }
  unfold readJsonFile, catch, abind, ensureConfigDir, catch, mkdir, readFile.
  destruct (mkdirError (fs w)) as [e|] eqn:Hmk; simpl.
  - rewrite Hw. reflexivity.
  - destruct (files (fs w) !! getConfigFilePath serverUrlHash filename)
      as [[text|e]|] eqn:Hf; simpl.
    + destruct (JSON_parse text) as [json|e]; simpl.
      * destruct (schema json) as [result|e]; simpl; [reflexivity|]. apply Hw.
      * apply Hw.
    + apply Hw.
    + unfold ENOENT. simpl. reflexivity.
Qed.

Lemma readJsonFile_total {T} (schema : JsVal -> Completion Thrown T)
      serverUrlHash filename (w : World) :
  exists r lines,
    readJsonFile serverUrlHash filename schema w = (Fulfilled r, logged lines w) /\
    (length lines <= 2)%nat /\
    (ReadFailure schema (getConfigFilePath serverUrlHash filename) w -> r = None).
Proof.
  assert (Hlen : forall e, (length (readWarning filename e) <= 1)%nat)
    by (intros e; unfold readWarning; destruct (bool_decide _); simpl; lia).
  assert (Hid : w = logged [] w)
    by (unfold logged, setStderr; rewrite app_nil_r; destruct w; reflexivity).
  rewrite readJsonFile_cases.
  destruct (mkdirError (fs w)) as [e|] eqn:Hmk.
  { exists None, ("Error creating config directory:" :: readWarning filename e).
    split; [|split; [simpl; specialize (Hlen e); lia | reflexivity]].
    unfold logged. rewrite <- app_assoc. reflexivity. }
  destruct (files (fs w) !! getConfigFilePath serverUrlHash filename)
    as [[text|e]|] eqn:Hf.
  - destruct (JSON_parse text) as [json|e] eqn:Hp.
    + destruct (schema json) as [result|e] eqn:Hs.
      * exists (Some result), []. split; [f_equal; exact Hid|].
        split; [simpl; lia|]. intros Hfail.
        destruct Hfail; congruence.
      * exists None, (readWarning filename e).
        split; [reflexivity|]. split; [specialize (Hlen e); lia | reflexivity].
    + exists None, (readWarning filename e).
      split; [reflexivity|]. split; [specialize (Hlen e); lia | reflexivity].
  - exists None, (readWarning filename e).
    split; [reflexivity|]. split; [specialize (Hlen e); lia | reflexivity].
  - exists None, []. split; [f_equal; exact Hid|]. split; [simpl; lia | reflexivity].
Qed.

(** C9. [readJsonFile] always fulfils: whatever the file system holds and
    whatever the schema does, the caller gets a value and the only trace is
    at most two lines on stderr; a missing configuration directory, a
    missing or unreadable file, malformed JSON or a schema rejection all
    give [undefined].  So do [getTokens], and [checkLockfile] with [null];
    for the lockfile also content that its validator answers with [null]. *)
Theorem corrupt_store_reads_as_absent :
  forall (T : Type) (schema : JsVal -> Completion Thrown T)
         (this : NonPkceOAuthProvider) (serverUrlHash filename : string) (w : World),
    (exists r lines,
        readJsonFile serverUrlHash filename schema w = (Fulfilled r, logged lines w) /\
        (length lines <= 2)%nat /\
        (ReadFailure schema (getConfigFilePath serverUrlHash filename) w -> r = None)) /\
    (exists r lines,
        getTokens this w = (Fulfilled r, logged lines w) /\
        (length lines <= 2)%nat /\
        (ReadFailure OAuthTokensSchema
           (getConfigFilePath (OAuthProvider.serverUrlHash this) "tokens.json") w ->
         r = None)) /\
    (exists r lines,
        checkLockfile serverUrlHash w = (Fulfilled r, logged lines w) /\
        (length lines <= 2)%nat /\
        (ReadFailure lockfileSchema (getConfigFilePath serverUrlHash "lock.json") w ->
         r = None) /\
        (forall text json,
            files (fs w) !! getConfigFilePath serverUrlHash "lock.json"
              = Some (Content text) ->
            JSON_parse text = Normal json ->
            lockfileSchema json = Normal None -> r = None)).
Proof.
  intros T schema this serverUrlHash filename w.
  split; [apply readJsonFile_total|]. split; [apply readJsonFile_total|].
  destruct (readJsonFile_total lockfileSchema serverUrlHash "lock.json" w)
    as (r & lines & Hr & Hlen & Hfail).
  exists (match r with Some (Some data) => Some data | _ => None end), lines.
  split; [|split; [exact Hlen|split]].
  - unfold checkLockfile, catch, abind. rewrite Hr. reflexivity.
  - intros H. rewrite (Hfail H). reflexivity.
  - intros text json Hf Hp Hs.
    rewrite readJsonFile_cases in Hr.
    destruct (mkdirError (fs w)); [injection Hr as <- _; reflexivity|].
    rewrite Hf, Hp, Hs in Hr. injection Hr as <- _. reflexivity.
Qed.

End CredentialStore.

(** ** The classical OAuth client *)
Section OAuthClient.
Import JS Node McpAuthConfig OAuthProvider StoreSpec ClientSpec.
Context {rt : Runtime} {sdk : Sdk}.
Variable this : NonPkceOAuthProvider.

Local Abbreviation tokensPath :=
  (getConfigFilePath (OAuthProvider.serverUrlHash this) "tokens.json").

Lemma getTokens_logged (w : World) :
  exists r lines, getTokens this w = (Fulfilled r, logged lines w).
Proof.
  destruct (readJsonFile_total OAuthTokensSchema (OAuthProvider.serverUrlHash this)
              "tokens.json" w) as (r & lines & Hr & _).
  exists r, lines. exact Hr.
Qed.

Lemma saveTokens_writes tokens (w : World) :
  mkdirError (fs w) = None -> writeError (fs w) = None ->
  saveTokens this tokens w
  = (Fulfilled tt,
     setFs (mkFileSystem None
              (<[tokensPath := Content (JSON_stringify (tokensJson tokens))]> (files (fs w)))
              None) w).
Proof.
  intros Hmk Hwr.
  unfold saveTokens, writeJsonFile, catch, abind, ensureConfigDir, catch, mkdir, writeFile.
  rewrite Hmk. simpl. rewrite Hwr, Hmk. reflexivity.
Qed.


Lemma getTokens_depends_on_fs (w w' : World) :
  fs w = fs w' -> (getTokens this w).1 = (getTokens this w').1.
Proof.
  intros Hfs. unfold getTokens. rewrite !readJsonFile_cases, Hfs.
  destruct (mkdirError (fs w')); [reflexivity|].
  destruct (files (fs w') !! _) as [[text|e]|]; try reflexivity.
  destruct (JSON_parse text) as [json|e]; [|reflexivity].
  destruct (OAuthTokensSchema json); reflexivity.
Qed.

Lemma getTokens_again (w w' w1 : World) r :
  getTokens this w = (Fulfilled r, w1) -> fs w' = fs w ->
  exists lines, getTokens this w' = (Fulfilled r, logged lines w').
Proof.
  intros Hr Hfs.
  destruct (getTokens_logged w') as (r' & lines & Hr').
  pose proof (getTokens_depends_on_fs w' w Hfs) as H.
  rewrite Hr, Hr' in H. simpl in H. injection H as ->. eauto.
Qed.

Lemma saveTokens_settles tokens (w : World) :
  match saveTokens this tokens w with
  | (Fulfilled _, w') => persisted this tokens w' /\ effects w' = effects w
  | (Rejected _, w') => (noTornWrite w -> fs w' = fs w) /\ effects w' = effects w
  | (Unsettled, _) => False
  end.
Proof.
  unfold saveTokens, writeJsonFile, catch, abind, ensureConfigDir, catch, mkdir, writeFile.
  destruct (mkdirError (fs w)); simpl; [split; reflexivity|].
  destruct (writeError (fs w)) as [[e|e remains]|] eqn:Hwr; simpl.
  - split; reflexivity.
  - split; [|reflexivity]. intros Hwhole. destruct (Hwhole e remains Hwr).
  - split; [apply lookup_insert_eq | reflexivity].
Qed.

(** [refreshToken] settles: with the bundle it returns in the store, or
    rejected with the files as they were, unless the write of the bundle
    failed half-way. *)
Lemma refreshToken_settles tokenEndpoint (w : World) :
  match refreshToken this tokenEndpoint w with
  | (Fulfilled tokens, w') => persisted this tokens w'
  | (Rejected _, w') => noTornWrite w -> fs w' = fs w
  | (Unsettled, _) => False
  end.
Proof.
  destruct (getTokens_logged w) as (r & lines & Hr).
  unfold refreshToken, abind. rewrite Hr.
  destruct r as [t|]; [|intros _; reflexivity].
  destruct (nonEmpty (stored_refresh_token t)) as [previous|]; [|intros _; reflexivity].
  unfold fetch. simpl.
  destruct (network w) as [|[response|e] rest]; simpl; try (intros _; reflexivity).
  destruct (ok response); simpl; [|intros _; reflexivity].
  unfold lift.
  destruct (JSON_parse (body response)) as [tokenData|e]; [|intros _; reflexivity].
  unfold ret at 1. cbv beta iota.
  destruct (getProp tokenData "access_token") as [accessToken|e]; [|intros _; reflexivity].
  unfold ret at 1. cbv beta iota.
  match goal with |- context [saveTokens this ?tk ?w0] =>
    pose proof (saveTokens_settles tk w0) as Hsave;
    destruct (saveTokens this tk w0) as [[[]|e|] w']
  end.
  - unfold ret. apply Hsave.
  - intros Hwhole. exact (proj1 Hsave Hwhole).
  - exact Hsave.
Qed.

(** Whenever [refreshToken] hands back a bundle, the store held a
    non-empty refresh token, the token endpoint answered 2xx with JSON, the
    bundle is in the tokens file, and its refresh token is the answer's, or
    the stored one when the answer has none. *)
Lemma refreshToken_fulfilled tokenEndpoint (w w' : World) tokens :
  refreshToken this tokenEndpoint w = (Fulfilled tokens, w') ->
  exists t previous response rest tokenData,
    (getTokens this w).1 = Fulfilled (Some t) /\
    nonEmpty (stored_refresh_token t) = Some previous /\
    network w = Normal response :: rest /\
    ok response = true /\
    JSON_parse (body response) = Normal tokenData /\
    persisted this tokens w' /\
    refresh_token tokens
    = orElse (getPropOpt tokenData "refresh_token") (VStr previous).
Proof.
  destruct (getTokens_logged w) as (r & lines & Hr).
  unfold refreshToken, abind. rewrite Hr.
  destruct r as [t|]; [|discriminate].
  destruct (nonEmpty (stored_refresh_token t)) as [previous|] eqn:Hprev; [|discriminate].
  unfold fetch. simpl.
  destruct (network w) as [|[response|e] rest] eqn:Hnet; simpl; try discriminate.
  destruct (ok response) eqn:Hok; simpl; [|discriminate].
  unfold lift.
  destruct (JSON_parse (body response)) as [tokenData|e] eqn:Hjson; [|discriminate].
  unfold ret at 1. cbv beta iota.
  destruct (getProp tokenData "access_token") as [accessToken|e]; [|discriminate].
  unfold ret at 1. cbv beta iota.
  match goal with |- context [saveTokens this ?tk ?w0] =>
    pose proof (saveTokens_settles tk w0) as Hsave;
    destruct (saveTokens this tk w0) as [[[]|e|] w1]
  end; try discriminate.
  unfold ret. intros H. injection H as <- <-.
  exists t, previous, response, rest, tokenData.
  repeat split; try assumption; try reflexivity. apply Hsave.
Qed.

(** C6. [refreshToken] fails with "No refresh token available" when the
    store holds no (non-empty) refresh token, touching neither the network
    nor the files.  Whenever it hands back a bundle, the tokens file holds
    the JSON text of that bundle, and the [refresh_token] member of what is
    stored and of what is handed back is the stored refresh token if the
    2xx answer of the token endpoint has none, and the answer's refresh
    token if it has one; and it does hand back a bundle when the store
    holds a refresh token, the endpoint answers 2xx with JSON and the file
    can be written. *)
Theorem refreshToken_keeps_or_replaces_refresh_token :
  forall (tokenEndpoint : string) (w : World),
    ((forall t, (getTokens this w).1 = Fulfilled (Some t) ->
                nonEmpty (stored_refresh_token t) = None) ->
     exists w',
       refreshToken this tokenEndpoint w
       = (Rejected (Error "No refresh token available"), w') /\
       effects w' = effects w /\ fs w' = fs w) /\
    (forall tokens w',
        refreshToken this tokenEndpoint w = (Fulfilled tokens, w') ->
        exists t previous response rest tokenData,
          (getTokens this w).1 = Fulfilled (Some t) /\
          nonEmpty (stored_refresh_token t) = Some previous /\
          network w = Normal response :: rest /\
          ok response = true /\
          JSON_parse (body response) = Normal tokenData /\
          let kept := if truthy (getPropOpt tokenData "refresh_token")
                      then getPropOpt tokenData "refresh_token"
                      else VStr previous in
          refresh_token tokens = kept /\
          files (fs w') !! tokensPath
          = Some (Content (JSON_stringify
                             (VObj [("access_token", access_token tokens);
                                    ("token_type", token_type tokens);
                                    ("expires_in", expires_in tokens);
                                    ("refresh_token", kept);
                                    ("scope", scope tokens)])))) /\
    (forall t previous response rest tokenData accessToken,
        (getTokens this w).1 = Fulfilled (Some t) ->
        nonEmpty (stored_refresh_token t) = Some previous ->
        network w = Normal response :: rest ->
        ok response = true ->
        JSON_parse (body response) = Normal tokenData ->
        getProp tokenData "access_token" = Normal accessToken ->
        mkdirError (fs w) = None ->
        writeError (fs w) = None ->
        let kept := if truthy (getPropOpt tokenData "refresh_token")
                    then getPropOpt tokenData "refresh_token"
                    else VStr previous in
        exists tokens w',
          refreshToken this tokenEndpoint w = (Fulfilled tokens, w') /\
          access_token tokens = accessToken /\
          refresh_token tokens = kept /\
          files (fs w') !! tokensPath
          = Some (Content (JSON_stringify
                             (VObj [("access_token", accessToken);
                                    ("token_type", token_type tokens);
                                    ("expires_in", expires_in tokens);
                                    ("refresh_token", kept);
                                    ("scope", scope tokens)])))).
Proof.
  intros tokenEndpoint w.
  destruct (getTokens_logged w) as (r & lines & Hr).
  split; [|split].
  - intros Hnone. exists (logged lines w).
    split; [|split; reflexivity].
    unfold refreshToken, abind. rewrite Hr.
    destruct r as [t|]; [|reflexivity].
    rewrite (Hnone t) by (rewrite Hr; reflexivity). reflexivity.
  - intros tokens w' Hrun.
    destruct (refreshToken_fulfilled tokenEndpoint w w' tokens Hrun)
      as (t & previous & response & rest & tokenData & H1 & H2 & H3 & H4 & H5 & H6 & H7).
    exists t, previous, response, rest, tokenData.
    do 5 (split; [assumption|]).
    cbv zeta. split; [exact H7|].
    unfold persisted in H6. rewrite H6, H7. reflexivity.
  - intros t previous response rest tokenData accessToken Ht Hprev Hnet Hok Hjson Hacc Hmk Hwr.
    rewrite Hr in Ht. simpl in Ht. injection Ht as ->.
    unfold refreshToken, abind. rewrite Hr, Hprev.
    unfold fetch at 1. simpl. rewrite Hnet, Hok. simpl.
    unfold lift. rewrite Hjson. unfold ret at 1. cbv beta iota.
    rewrite Hacc. unfold ret at 1. cbv beta iota.
    rewrite saveTokens_writes by assumption. unfold ret. cbv beta iota.
    eexists _, _. split; [reflexivity|]. simpl.
    split; [reflexivity|]. split; [reflexivity|]. apply lookup_insert_eq.
Qed.

Lemma expiredOrMissing_usable r :
  expiredOrMissing r = false <-> exists t, r = Some t /\ usable t.
Proof.
  unfold usable. destruct r as [t|]; simpl.
  - rewrite orb_false_iff. split.
    + intros [Ha He]. exists t. split; [reflexivity|]. split.
      * intros Heq. rewrite Heq in Ha. discriminate.
      * destruct (stored_expires_in t) as [n|]; [|left; reflexivity].
        right. exists n. split; [reflexivity|]. apply Z.leb_gt in He. exact He.
    + intros (t' & Ht & Ha & He). injection Ht as <-. split.
      * apply String.eqb_neq. exact Ha.
      * destruct He as [-> | (n & -> & Hn)]; [reflexivity|]. apply Z.leb_gt. exact Hn.
  - split; [discriminate|]. intros (t & Ht & _). discriminate.
Qed.

Lemma nonEmpty_hasRefreshToken r :
  (exists s, r ≫= (fun t => nonEmpty (stored_refresh_token t)) = Some s)
  <-> hasRefreshToken r.
Proof.
  unfold hasRefreshToken. destruct r as [t|]; simpl.
  - unfold nonEmpty. destruct (stored_refresh_token t) as [s|] eqn:Hrt.
    + destruct (String.eqb_spec s EmptyString) as [->|Hs].
      * split; [intros (x & Hx); discriminate|].
        intros (t' & s' & Ht & Hs' & Hne). congruence.
      * split; [|eauto]. intros _. exists t, s. auto.
    + split; [intros (x & Hx); discriminate|].
      intros (t' & s' & Ht & Hs' & _). congruence.
  - split; [intros (x & Hx); discriminate|]. intros (t & s & Ht & _). discriminate.
Qed.

(** Reached with a store that is not usable, [startAuthorization] goes
    past its own check of the stored tokens and into the interactive
    flow. *)
Lemma startAuthorization_interactive ep tp port res (w w1 : World) r :
  getTokens this w = (Fulfilled r, w1) ->
  expiredOrMissing r = true ->
  startAuthorization this ep tp port res w
  = interactiveAuthorization this ep tp port res w1.
Proof.
  intros Hr Hexp. unfold startAuthorization, abind. rewrite Hr.
  destruct r as [t|]; [|reflexivity].
  simpl in Hexp. unfold stillValid.
  destruct (String.eqb (stored_access_token t) EmptyString); [reflexivity|]. simpl in *.
  destruct (stored_expires_in t) as [n|]; [|discriminate].
  apply Z.leb_le in Hexp.
  replace (0 <? n) with false by (symmetry; apply Z.ltb_ge; exact Hexp).
  rewrite andb_false_r. reflexivity.
Qed.

Lemma grows_ret {A} (a : A) : grows (ret a).
Proof. intros w. exists []. simpl. rewrite app_nil_r. reflexivity. Qed.

Lemma grows_throw {A} e : grows (@throw A e).
Proof. intros w. exists []. simpl. rewrite app_nil_r. reflexivity. Qed.

Lemma grows_lift {A} (c : Completion Thrown A) : grows (lift c).
Proof. destruct c; [apply grows_ret | apply grows_throw]. Qed.

Lemma grows_abind {A B} (m : Async A) (k : A -> Async B) :
  grows m -> (forall a, grows (k a)) -> grows (abind m k).
Proof.
  intros Hm Hk w. unfold abind. destruct (Hm w) as (more & Hmore).
  destruct (m w) as [[a|e|] w']; simpl in *; eauto.
  destruct (Hk a w') as (more' & Hmore'). exists (more ++ more').
  rewrite Hmore', Hmore, app_assoc. reflexivity.
Qed.

Lemma grows_catch {A} (m : Async A) (h : Thrown -> Async A) :
  grows m -> (forall e, grows (h e)) -> grows (catch m h).
Proof.
  intros Hm Hh w. unfold catch. destruct (Hm w) as (more & Hmore).
  destruct (m w) as [[a|e|] w']; simpl in *; eauto.
  destruct (Hh e w') as (more' & Hmore'). exists (more ++ more').
  rewrite Hmore', Hmore, app_assoc. reflexivity.
Qed.

Lemma grows_finally {A} (m : Async A) :
  grows m -> grows (finally m closeCallbackServer).
Proof.
  intros Hm w. unfold finally. destruct (Hm w) as (more & Hmore).
  assert (Hc : forall w0 : World, effects w0 = effects w ++ more ->
               exists more', effects (closeCallbackServer w0) = effects w ++ more').
  { intros w0 H0. unfold closeCallbackServer. destruct (callbackServer w0); simpl.
    - exists (more ++ [CallbackServerClosed]). rewrite H0, app_assoc. reflexivity.
    - eauto. }
  destruct (m w) as [[a|e|] w']; simpl in *; eauto.
Qed.

Lemma grows_log line : grows (log line).
Proof. intros w. exists []. simpl. rewrite app_nil_r. reflexivity. Qed.

Lemma grows_fetch url method requestHeaders requestBody :
  grows (fetch url method requestHeaders requestBody).
Proof.
  intros w. exists [Fetched url method requestHeaders requestBody]. unfold fetch. simpl.
  destruct (network w) as [|[r|e] rest]; reflexivity.
Qed.

Lemma grows_getTokens : grows (getTokens this).
Proof.
  intros w. destruct (getTokens_logged w) as (r & lines & ->).
  exists []. simpl. rewrite app_nil_r. reflexivity.
Qed.

Lemma grows_saveTokens tokens : grows (saveTokens this tokens).
Proof.
  intros w. pose proof (saveTokens_settles tokens w) as H. exists [].
  rewrite app_nil_r.
  destruct (saveTokens this tokens w) as [[[]|e|] w']; simpl; [apply H | apply H | tauto].
Qed.

Lemma grows_exchangeCodeForToken authorizationCode tokenEndpoint :
  grows (exchangeCodeForToken this authorizationCode tokenEndpoint).
Proof.
  unfold exchangeCodeForToken. apply grows_abind; [apply grows_fetch|].
  intros response. destruct (negb (ok response)); [apply grows_throw|].
  apply grows_abind; [apply grows_lift|]. intros tokenData.
  apply grows_abind; [apply grows_lift|]. intros accessToken. apply grows_ret.
Qed.

(** The interactive flow begins by listening on the callback port; every
    later effect comes after that. *)
Lemma interactiveAuthorization_listens ep tp port res (w : World) :
  exists more,
    effects (interactiveAuthorization this ep tp port res w).2
    = effects w ++ Listening port :: more.
Proof.
  unfold interactiveAuthorization, abind at 1, listen.
  match goal with |- context [finally ?m closeCallbackServer ?w0] =>
    assert (Hg : grows (finally m closeCallbackServer))
  end.
  { apply grows_finally.
    apply grows_abind; [apply grows_lift|]. intros authUrl.
    apply grows_abind; [apply grows_log|]. intros _.
    apply grows_abind.
    { apply grows_catch; [|intros e; apply grows_log].
      apply grows_abind; [apply grows_lift|]. intros safe.
      apply grows_abind; [|intros _; apply grows_log].
      intros w0. unfold open. destruct (browser w0); simpl.
      - exists [BrowserOpened safe]. reflexivity.
      - exists []. rewrite app_nil_r. reflexivity. }
    intros _. apply grows_abind; [apply grows_log|]. intros _.
    apply grows_abind.
    { intros w0. unfold waitForAuthCode. exists []. rewrite app_nil_r.
      destruct (callback w0); reflexivity. }
    intros authCode. apply grows_abind; [apply grows_log|]. intros _.
    apply grows_abind; [apply grows_exchangeCodeForToken|]. intros tokens.
    apply grows_abind; [apply grows_saveTokens|]. intros _.
    apply grows_abind; [apply grows_log|]. intros _. apply grows_ret. }
  match goal with |- context [finally ?m closeCallbackServer ?w0] =>
    destruct (Hg w0) as (more & Hmore)
  end.
  exists more. rewrite Hmore. simpl. rewrite <- app_assoc. reflexivity.
Qed.

Lemma fullAuthorization_listens ep tp port res (w : World) :
  exists more,
    effects (fullAuthorization this ep tp port res w).2
    = effects w ++ Listening port :: more.
Proof.
  unfold fullAuthorization, abind.
  destruct (interactiveAuthorization_listens ep tp port res w) as (more & Hmore).
  destruct (interactiveAuthorization this ep tp port res w) as [[tokens|e|] w']; eauto.
  exists more. unfold accessTokenOrFail.
  destruct (negb (truthy (access_token tokens))); exact Hmore.
Qed.

Lemma getTokens_world (w w1 : World) r :
  getTokens this w = (Fulfilled r, w1) -> exists lines, w1 = logged lines w.
Proof.
  intros Hr. destruct (getTokens_logged w) as (r' & lines & H).
  rewrite H in Hr. injection Hr as _ <-. eauto.
Qed.

(** C1, as the code has it. [getValidAccessToken] reads the stored
    bundle and then: (1) if it has a non-empty access token and
    [expires_in] is absent or positive, returns that access token, with no
    network call and nothing else done outside; (2) otherwise, if the
    bundle has a (non-empty) refresh token, calls [refreshToken]: when
    that hands back a bundle with an access token, the bundle is in the
    store and its access token is returned; when it hands back a bundle
    without an access token, the call fails with "Failed to obtain access
    token"; and when it fails, [startAuthorization] is called, which is the
    full interactive authorization when the failure has left the files as
    they were -- as every failure does but a write of the tokens file that
    fails half-way; (3) otherwise the full interactive authorization is
    run; (4) so a bundle with [expires_in <= 0] and no refresh token leads
    to the interactive flow, whose first effect is to listen on the
    callback port. *)
Theorem getValidAccessToken_decision_chain :
  forall (authorizationEndpoint tokenEndpoint : string) (callbackPort : Z)
         (authorizeResource : option string) (w w1 : World)
         (r : option StoredTokens),
    getTokens this w = (Fulfilled r, w1) ->
    let call := getValidAccessToken this authorizationEndpoint tokenEndpoint
                                    callbackPort authorizeResource w in
    let authorize := fullAuthorization this authorizationEndpoint tokenEndpoint
                                       callbackPort authorizeResource in
    (forall t, r = Some t -> usable t ->
       call = (Fulfilled (VStr (stored_access_token t)), w1) /\
       effects w1 = effects w /\ network w1 = network w /\ fs w1 = fs w) /\
    ((forall t, r = Some t -> ~ usable t) -> hasRefreshToken r ->
       match refreshToken this tokenEndpoint w1 with
       | (Fulfilled tokens, w2) =>
           (truthy (access_token tokens) = true ->
            persisted this tokens w2 /\
            call = (Fulfilled (access_token tokens), w2)) /\
           (truthy (access_token tokens) = false ->
            call = (Rejected (Error "Failed to obtain access token"), w2))
       | (Rejected _, w2) =>
           call = abind (startAuthorization this authorizationEndpoint tokenEndpoint
                                            callbackPort authorizeResource)
                        accessTokenOrFail w2 /\
           (noTornWrite w -> fs w2 = fs w) /\
           (fs w2 = fs w ->
            exists w3, getTokens this w2 = (Fulfilled r, w3) /\ call = authorize w3)
       | (Unsettled, _) => False
       end) /\
    ((forall t, r = Some t -> ~ usable t) -> ~ hasRefreshToken r ->
       exists w3 more,
         getTokens this w1 = (Fulfilled r, w3) /\ call = authorize w3 /\
         effects call.2 = effects w ++ Listening callbackPort :: more) /\
    (forall t n, r = Some t -> stored_expires_in t = Some n -> n <= 0 ->
                 stored_refresh_token t = None ->
       exists w3 more,
         call = authorize w3 /\
         effects call.2 = effects w ++ Listening callbackPort :: more).
Proof.
  intros ep tp port res w w1 r Hr call authorize.
  destruct (getTokens_world w w1 r Hr) as (lines & Hw1).
  assert (Hfs1 : fs w1 = fs w) by (rewrite Hw1; reflexivity).
  assert (Hexp : (forall t, r = Some t -> ~ usable t) -> expiredOrMissing r = true).
  { intros Hnot. destruct (expiredOrMissing r) eqn:He; [reflexivity|].
    apply expiredOrMissing_usable in He as (t & Ht & Hu). destruct (Hnot t Ht Hu). }
  assert (Hnone : (forall t, r = Some t -> ~ usable t) -> ~ hasRefreshToken r ->
                  exists w3 more,
                    getTokens this w1 = (Fulfilled r, w3) /\ call = authorize w3 /\
                    effects call.2 = effects w ++ Listening port :: more).
  { intros Hnot Hno.
    destruct (getTokens_again w w1 w1 r Hr Hfs1) as (lines3 & Hr3).
    destruct (fullAuthorization_listens ep tp port res (logged lines3 w1)) as (more & Hmore).
    exists (logged lines3 w1), more.
    assert (Hcall : call = authorize (logged lines3 w1)).
    { unfold call, getValidAccessToken, abind at 1. rewrite Hr, (Hexp Hnot).
      destruct (r ≫= _) as [s|] eqn:Hs.
      - exfalso. apply Hno, nonEmpty_hasRefreshToken. eauto.
      - unfold abind at 1.
        rewrite (startAuthorization_interactive ep tp port res w1 _ r Hr3 (Hexp Hnot)).
        reflexivity. }
    split; [exact Hr3|]. split; [exact Hcall|].
    rewrite Hcall. unfold authorize. rewrite Hmore, Hw1. reflexivity. }
  split; [|split; [|split]].
  - intros t -> Hu.
    assert (He : expiredOrMissing (Some t) = false)
      by (apply expiredOrMissing_usable; eauto).
    split; [|rewrite Hw1; repeat split; reflexivity].
    unfold call, getValidAccessToken, abind. rewrite Hr, He.
    unfold accessTokenOrFail. simpl.
    destruct Hu as [Ha _]. apply String.eqb_neq in Ha. rewrite Ha. reflexivity.
  - intros Hnot Hhas.
    apply nonEmpty_hasRefreshToken in Hhas as (s & Hs).
    pose proof (refreshToken_settles tp w1) as Hset.
    assert (Hcall : call =
              abind (catch (refreshToken this tp)
                           (fun _ => startAuthorization this ep tp port res))
                    accessTokenOrFail w1).
    { unfold call, getValidAccessToken, abind at 1. rewrite Hr, (Hexp Hnot), Hs.
      reflexivity. }
    unfold abind, catch in Hcall.
    destruct (refreshToken this tp w1) as [[tokens|e|] w2]; [| |exact Hset].
    + unfold accessTokenOrFail in Hcall.
      split; intros Ht; rewrite Ht in Hcall; [split; [exact Hset | exact Hcall] | exact Hcall].
    + split; [exact Hcall|]. split.
      * intros Hwhole. rewrite <- Hfs1. apply Hset.
        unfold noTornWrite. rewrite Hfs1. exact Hwhole.
      * intros Hfs2.
        destruct (getTokens_again w w2 w1 r Hr Hfs2) as (lines3 & Hr3).
        exists (logged lines3 w2). split; [exact Hr3|].
        rewrite (startAuthorization_interactive ep tp port res w2 _ r Hr3 (Hexp Hnot))
          in Hcall.
        exact Hcall.
  - exact Hnone.
  - intros t n -> Hn Hle Hrt.
    destruct (Hnone) as (w3 & more & _ & Hc & He).
    + intros t' Ht' [_ [Hu | (m & Hm & Hpos)]]; injection Ht' as <-.
      * congruence.
      * rewrite Hn in Hm. injection Hm as <-. lia.
    + intros (t' & s & Ht' & Hs & _). injection Ht' as <-. congruence.
    + eauto.
Qed.

End OAuthClient.

(** ** Endpoint discovery *)
Section EndpointDiscovery.
Import JS Node OAuthConnect DiscoverySpec.
Context {rt : Runtime}.

Local Ltac no_discovery :=
  let e0 := fresh "e0" in
  let Hd := fresh "Hd" in
  intros e0 Hd; destruct Hd; simplify_eq/=;
  repeat match goal with H : (_ =? _) = false |- _ => apply Z.eqb_neq in H end;
  congruence.

Local Ltac fall_back Hbase :=
  cbv [ret throw lift]; simpl; rewrite ?Hbase;
  eexists _, _; split; [reflexivity|];
  right; split; [no_discovery | reflexivity].

Lemma fetch_eq url method requestHeaders requestBody (w : World) :
  fetch url method requestHeaders requestBody w
  = let w1 := effect (Fetched url method requestHeaders requestBody) w in
    match network w with
    | [] => (Rejected (TypeError "fetch failed"), w1)
    | Normal r :: rest => (Fulfilled r, setNetwork rest w1)
    | Throw e :: rest => (Rejected e, setNetwork rest w1)
    end.
Proof. reflexivity. Qed.

Lemma discoverOAuthEndpoints_cases serverUrl headers (w : World) baseUrl :
  URL_new serverUrl = Some baseUrl ->
  exists endpoints w',
    discoverOAuthEndpoints serverUrl headers w = (Fulfilled endpoints, w') /\
    (Discovered w endpoints \/
     ((forall e, ~ Discovered w e) /\ endpoints = fallbackEndpoints baseUrl)).
Proof.
  intros Hbase.
  unfold discoverOAuthEndpoints, abind, catch. rewrite fetch_eq.
  destruct (network w) as [|[r1|e1] rest1] eqn:Hn1; try (fall_back Hbase).
  cbv beta iota zeta.
  destruct (status r1 =? 401) eqn:Hs1; [|fall_back Hbase].
  destruct (nonEmptyString _) as [www|] eqn:Hwww; [|fall_back Hbase].
  destruct (parseWWWAuthenticate www) as [rmUrl|] eqn:Hrm; [|fall_back Hbase].
  unfold fetchResourceMetadata, abind, catch. rewrite fetch_eq. simpl network.
  destruct rest1 as [|[r2|e2] rest2]; try (fall_back Hbase).
  cbv beta iota zeta.
  destruct (ok r2) eqn:Hok2; [|fall_back Hbase].
  destruct (JSON_parse (body r2)) as [rm|e] eqn:Hp2; [|fall_back Hbase].
  cbv [lift ret]. cbv beta iota.
  destruct (getProp rm "authorization_servers") as [servers|e] eqn:Hsv; [|fall_back Hbase].
  cbv beta iota.
  destruct (truthy servers) eqn:Hts; [|fall_back Hbase].
  destruct (gtZero (getPropOpt servers "length")) eqn:Hlen; [|fall_back Hbase].
  cbv beta iota delta [andb].
  destruct (URL_new (ToString (index0 servers))) as [url|] eqn:Hurl; [|fall_back Hbase].
  unfold fetchAuthServerMetadata, abind, catch. rewrite fetch_eq. simpl network.
  destruct rest2 as [|[r3|e3] rest3]; try (fall_back Hbase).
  cbv beta iota zeta.
  destruct (ok r3) eqn:Hok3; [|fall_back Hbase].
  destruct (JSON_parse (body r3)) as [md|e] eqn:Hp3; [|fall_back Hbase].
  cbv [lift ret]. cbv beta iota.
  destruct (getProp md "authorization_endpoint") as [authorization|e] eqn:Hae;
    [|fall_back Hbase].
  cbv beta iota.
  destruct (truthy authorization) eqn:Hta; [|fall_back Hbase].
  destruct (truthy (getPropOpt md "token_endpoint")) eqn:Htt; [|fall_back Hbase].
  simpl. eexists _, _. split; [reflexivity|]. left.
  apply Z.eqb_eq in Hs1.
  eapply DiscoveredAll; eauto.
Qed.

(** C5. For a server URL (a string that [new URL] accepts) discovery
    always fulfils, whatever the network does; it hands back the
    endpoints of the authorization-server metadata when every step of the
    chain succeeds, and when any step fails the pair
    [<origin>/oauth/authorize], [<origin>/oauth/token]. *)
Theorem discoverOAuthEndpoints_never_fails :
  forall (serverUrl : string) (headers : list (string * string))
         (w : World) (baseUrl : URL),
    URL_new serverUrl = Some baseUrl ->
    exists endpoints w',
      discoverOAuthEndpoints serverUrl headers w = (Fulfilled endpoints, w') /\
      (forall e, Discovered w e -> endpoints = e) /\
      ((forall e, ~ Discovered w e) -> endpoints = fallbackEndpoints baseUrl).
Proof.
  intros serverUrl headers w baseUrl Hbase.
  destruct (discoverOAuthEndpoints_cases serverUrl headers w baseUrl Hbase)
    as (endpoints & w' & Hrun & Hcase).
  exists endpoints, w'. split; [exact Hrun|]. split.
  - intros e He. destruct Hcase as [Hd | [Hnone _]]; [|destruct (Hnone e He)].
    destruct Hd, He. simplify_eq/=. congruence.
  - intros Hnone. destruct Hcase as [Hd | [_ ->]]; [destruct (Hnone _ Hd) | reflexivity].
Qed.

(** A server URL that [new URL] rejects is the one input on which
    discovery throws: the first request fails, and so does the fall-back. *)
Lemma discoverOAuthEndpoints_invalid_url serverUrl headers (w : World) :
  URL_new serverUrl = None ->
  network w = [] ->
  (discoverOAuthEndpoints serverUrl headers w).1 = Rejected (TypeError "Invalid URL").
Proof.
  intros Hbase Hn.
  unfold discoverOAuthEndpoints, abind, catch. rewrite fetch_eq, Hn. simpl.
  rewrite Hbase. reflexivity.
Qed.

End EndpointDiscovery.

(** ** The scenarios of the specification, run *)
Section Scenarios.
Import JS Node McpAuthConfig OAuthProvider OAuthConnect Fixture.

Local Abbreviation authorize := "https://auth.example/authorize".
Local Abbreviation token := "https://auth.example/token".

(** Scenario 3: [delete*] and [*account] hide [deleteTask] and
    [getAccount] and leave [createTask] and [listTasks]. *)
Example tool_filter_scenario :
  map (fun name => Utils.shouldIncludeTool (Some ["delete*"; "*account"]) name)
      ["createTask"; "deleteTask"; "getAccount"; "listTasks"]
  = [Normal true; Normal false; Normal false; Normal true].
Proof. reflexivity. Qed.

(** The dot of [.*] stops at a line terminator. *)
Example tool_filter_line_terminator :
  Utils.shouldIncludeTool (Some ["a*b"]) ("a" +:+ nl +:+ "b") = Normal true.
Proof. reflexivity. Qed.

(** Scenario 3, the listing: the client sees the tools that are left. *)
Example tools_list_scenario :
  Utils.wire
    (Utils.run "0.1.0" ["delete*"; "*account"]
       [Utils.ClientMessage (ProxySpec.toolsListRequest (Some (Utils.IdNum 2)));
        Utils.ServerMessage
          (ProxySpec.toolsListResponse (Some (Utils.IdNum 2))
             ["createTask"; "deleteTask"; "getAccount"; "listTasks"])])
  = [Utils.SendToServer (ProxySpec.toolsListRequest (Some (Utils.IdNum 2)));
     Utils.SendToClient
       (ProxySpec.toolsListResponse (Some (Utils.IdNum 2)) ["createTask"; "listTasks"])].
Proof. vm_compute. reflexivity. Qed.

(** Scenario 2: discovery, then the interactive authorization. *)
Example discovery_scenario :
  (discoverOAuthEndpoints "https://r.example/mcp" []
     (world None [Normal unauthorized;
                  Normal (response 200 [] resourceMetadata);
                  Normal (response 200 [] authServerMetadata)])).1
  = Fulfilled (mkEndpoints (VStr authorize) (VStr token)).
Proof. vm_compute. reflexivity. Qed.

Example authorization_scenario :
  let r := getValidAccessToken provider authorize token 3334 None
             (world None [Normal (response 200 [] issuedBundle)]) in
  r.1 = Fulfilled (VStr "T") /\
  effects r.2
  = [Listening 3334;
     BrowserOpened ("https://auth.example/authorize?response_type=code&client_id=A"
                    +:+ "&redirect_uri=http://localhost:3334/oauth/callback&state=c0ffee");
     Fetched token "POST" formHeaders
       (Some ("grant_type=authorization_code&code=xyz"
              +:+ "&redirect_uri=http://localhost:3334/oauth/callback"
              +:+ "&client_id=A&client_secret=B"));
     CallbackServerClosed] /\
  files (fs r.2) !! tokensFile = Some (Content (stringify issuedBundle)).
Proof. vm_compute. repeat split; reflexivity. Qed.

(** A token endpoint that answers 200 without a refresh token: the stored
    one is kept. *)
Example refresh_scenario :
  let r := refreshToken provider token
             (world (Some refreshableBundle) [Normal (response 200 [] issuedBundle)]) in
  (exists tokens, r.1 = Fulfilled tokens /\ refresh_token tokens = VStr "R0") /\
  files (fs r.2) !! tokensFile
  = Some (Content (stringify (VObj [("access_token", VStr "T");
                                    ("token_type", VStr "Bearer");
                                    ("expires_in", VNum 3600);
                                    ("refresh_token", VStr "R0")]))).
Proof. vm_compute. split; [eexists; split; reflexivity | reflexivity]. Qed.

(** A token endpoint that rotates the refresh token: the new one is
    stored. *)
Example refresh_rotation_scenario :
  let r := refreshToken provider token
             (world (Some refreshableBundle) [Normal (response 200 [] rotatedBundle)]) in
  (exists tokens, r.1 = Fulfilled tokens /\ refresh_token tokens = VStr "R1") /\
  files (fs r.2) !! tokensFile = Some (Content (stringify rotatedBundle)).
Proof. vm_compute. split; [eexists; split; reflexivity | reflexivity]. Qed.

(** A tokens file that is not JSON reads as no tokens, with one warning. *)
Example corrupt_tokens_scenario :
  let w := setFs {| mkdirError := None;
                    files := {[ tokensFile := Content "{not json" ]};
                    writeError := None |} (world None []) in
  getTokens provider w = (Fulfilled None, StoreSpec.logged ["Error reading tokens.json:"] w).
Proof. vm_compute. reflexivity. Qed.

(** Scenario 6: the store holds an expired bundle without a refresh token;
    the next call runs the interactive flow. *)
Lemma getValidAccessToken_decision_chain_witness :
  let w := Fixture.world (Some Fixture.expiredBundle)
             [JS.Normal (Fixture.response 200 [] Fixture.issuedBundle)] in
  let stored := OAuthProvider.mkStoredTokens "T0" "Bearer" (Some (-1)) None None in
  OAuthProvider.getTokens Fixture.provider w = (Node.Fulfilled (Some stored), w) /\
  exists w3 more,
    OAuthProvider.getValidAccessToken Fixture.provider
      "https://auth.example/authorize" "https://auth.example/token" 3334 None w
    = ClientSpec.fullAuthorization Fixture.provider
        "https://auth.example/authorize" "https://auth.example/token" 3334 None w3 /\
    Node.effects
      (OAuthProvider.getValidAccessToken Fixture.provider
         "https://auth.example/authorize" "https://auth.example/token" 3334 None w).2
    = Node.effects w ++ Node.Listening 3334 :: more.
Proof.
  assert (H : OAuthProvider.getTokens Fixture.provider
                (Fixture.world (Some Fixture.expiredBundle)
                   [JS.Normal (Fixture.response 200 [] Fixture.issuedBundle)])
              = (Node.Fulfilled
                   (Some (OAuthProvider.mkStoredTokens "T0" "Bearer" (Some (-1)) None None)),
                 Fixture.world (Some Fixture.expiredBundle)
                   [JS.Normal (Fixture.response 200 [] Fixture.issuedBundle)]))
    by (vm_compute; reflexivity).
  split; [exact H|].
  refine (proj2 (proj2 (proj2
            (getValidAccessToken_decision_chain Fixture.provider
               "https://auth.example/authorize" "https://auth.example/token" 3334 None
               _ _ _ H)))
            (OAuthProvider.mkStoredTokens "T0" "Bearer" (Some (-1)) None None) (-1)
            eq_refl eq_refl _ eq_refl).
  lia.
Defined.

(** C1 as stated fails: the store holds an expired bundle with a refresh
    token, and the token endpoint answers the refresh with 200 and a JSON
    object that has no [access_token].  The refresh goes through, and the
    call neither returns an access token nor starts the interactive
    authorization: it fails with "Failed to obtain access token", the one
    request to the token endpoint being all that was done outside. *)
Lemma refresh_without_access_token_fails :
  let w := Fixture.world (Some Fixture.refreshableBundle)
             [JS.Normal (Fixture.response 200 [] RefreshFixture.tokenlessAnswer)] in
  let call := @getValidAccessToken RefreshFixture.runtime Fixture.sdk Fixture.provider
                                   authorize token 3334 None w in
  (@getTokens RefreshFixture.runtime Fixture.sdk Fixture.provider w).1
  = Fulfilled (Some (mkStoredTokens "T0" "Bearer" (Some 0) (Some "R0") None)) /\
  (exists tokens,
      (@refreshToken RefreshFixture.runtime Fixture.sdk Fixture.provider token w).1
      = Fulfilled tokens) /\
  call.1 = Rejected (Error "Failed to obtain access token") /\
  effects call.2
  = [Fetched token "POST" formHeaders
       (Some "grant_type=refresh_token&refresh_token=R0&client_id=A&client_secret=B")].
Proof.
  vm_compute. split; [reflexivity|]. split; [eexists; reflexivity|].
  split; reflexivity.
Qed.

(** A refresh that fails with the new bundle already in the file: the
    write of the tokens file throws when the file is closed, its text in
    place.  [startAuthorization] then finds the new bundle, which has time
    left, and the call returns its access token: no interactive flow, the
    request to the token endpoint being all that was done outside. *)
Example failed_refresh_may_leave_the_new_bundle :
  let w0 := Fixture.world (Some Fixture.refreshableBundle)
              [JS.Normal (Fixture.response 200 [] Fixture.rotatedBundle)] in
  let w := setFs {| mkdirError := None;
                    files := files (fs w0);
                    writeError :=
                      Some (WriteFailed (Error "EIO: i/o error, close")
                              (Content (stringify Fixture.rotatedBundle))) |} w0 in
  let call := getValidAccessToken Fixture.provider authorize token 3334 None w in
  (refreshToken Fixture.provider token w).1 = Rejected (Error "EIO: i/o error, close") /\
  call.1 = Fulfilled (VStr "T") /\
  effects call.2
  = [Fetched token "POST" formHeaders
       (Some "grant_type=refresh_token&refresh_token=R0&client_id=A&client_secret=B")].
Proof.
  vm_compute. split; [reflexivity|]. split; reflexivity.
Qed.

(** A server that answers 200 to the first request: the fall-back pair. *)
Lemma discoverOAuthEndpoints_never_fails_witness :
  let w := Fixture.world None
             [JS.Normal (Fixture.response 200 [] Fixture.issuedBundle)] in
  Node.URL_new "https://r.example/mcp" = Some "https://r.example/mcp" /\
  exists endpoints w',
    OAuthConnect.discoverOAuthEndpoints "https://r.example/mcp"
      [("Authorization", "Bearer none")] w
    = (Node.Fulfilled endpoints, w') /\
    (forall e, DiscoverySpec.Discovered w e -> endpoints = e) /\
    ((forall e, ~ DiscoverySpec.Discovered w e) ->
     endpoints = DiscoverySpec.fallbackEndpoints "https://r.example/mcp").
Proof.
  split; [reflexivity|].
  exact (discoverOAuthEndpoints_never_fails "https://r.example/mcp"
           [("Authorization", "Bearer none")]
           (Fixture.world None [JS.Normal (Fixture.response 200 [] Fixture.issuedBundle)])
           "https://r.example/mcp" eq_refl).
Defined.

(** The refresh of the expired bundle, answered without a refresh token:
    the bundle written and the bundle returned keep [R0]. *)
Lemma refreshToken_keeps_or_replaces_refresh_token_witness :
  let w := Fixture.world (Some Fixture.refreshableBundle)
             [JS.Normal (Fixture.response 200 [] Fixture.issuedBundle)] in
  exists tokens w',
    refreshToken Fixture.provider token w = (Fulfilled tokens, w') /\
    access_token tokens = VStr "T" /\
    refresh_token tokens = VStr "R0" /\
    files (fs w') !! tokensFile
    = Some (Content (stringify (VObj [("access_token", VStr "T");
                                      ("token_type", token_type tokens);
                                      ("expires_in", expires_in tokens);
                                      ("refresh_token", VStr "R0");
                                      ("scope", scope tokens)]))).
Proof.
  set (w := Fixture.world (Some Fixture.refreshableBundle)
              [JS.Normal (Fixture.response 200 [] Fixture.issuedBundle)]).
  assert (Hstored : (getTokens Fixture.provider w).1
                    = Fulfilled (Some (mkStoredTokens "T0" "Bearer" (Some 0)
                                                      (Some "R0") None)))
    by (vm_compute; reflexivity).
  assert (Hjson : JSON_parse (body (Fixture.response 200 [] Fixture.issuedBundle))
                  = Normal Fixture.issuedBundle)
    by (vm_compute; reflexivity).
  exact (proj2 (proj2 (refreshToken_keeps_or_replaces_refresh_token
                         Fixture.provider token w))
           (mkStoredTokens "T0" "Bearer" (Some 0) (Some "R0") None) "R0"
           (Fixture.response 200 [] Fixture.issuedBundle) [] Fixture.issuedBundle
           (VStr "T") Hstored eq_refl eq_refl eq_refl Hjson eq_refl eq_refl eq_refl).
Defined.

(** A tokens file that is not JSON: [getTokens] answers [undefined]. *)
Lemma corrupt_store_reads_as_absent_witness :
  let w := setFs {| mkdirError := None;
                    files := {[ tokensFile := Content "{not json" ]};
                    writeError := None |} (Fixture.world None []) in
  exists r lines,
    getTokens Fixture.provider w = (Fulfilled r, StoreSpec.logged lines w) /\
    (length lines <= 2)%nat /\ r = None.
Proof.
  destruct (proj1 (proj2
              (corrupt_store_reads_as_absent StoredTokens OAuthTokensSchema
                 Fixture.provider EmptyString EmptyString
                 (setFs {| mkdirError := None;
                           files := {[ tokensFile := Content "{not json" ]};
                           writeError := None |} (Fixture.world None [])))))
    as (r & lines & Hrun & Hlen & Hfail).
  exists r, lines. split; [exact Hrun|]. split; [exact Hlen|].
  apply Hfail.
  apply (StoreSpec.MalformedJson _ _ _ "{not json"
           (mkThrown ClsError "Unexpected token" None)); reflexivity.
Defined.

End Scenarios.

(** ** The tool filter, further *)
Section ToolFilterMore.
Import JS Utils Glob RelaySpec.

Lemma split_without_separator sep s :
  includes s (String sep EmptyString) = false -> split sep s = [s].
Proof.
  induction s as [|c rest IH]; [reflexivity|].
  simpl. destruct (Ascii.eqb_spec c sep) as [->|Hne].
  - rewrite Ascii.eqb_refl. discriminate.
  - destruct (Ascii.eqb_spec sep c) as [->|_]; [congruence|]. simpl.
    intros H. rewrite (IH H). reflexivity.
Qed.

Lemma shouldIncludeTool_is_loop patterns toolName :
  shouldIncludeTool (Some patterns) toolName = shouldIncludeTool_loop patterns toolName.
Proof. destruct patterns; reflexivity. Qed.

Lemma shouldIncludeTool_true patterns toolName :
  shouldIncludeTool (Some patterns) toolName = Normal true <->
  forall p, In p patterns -> ~ matchesPattern p toolName.
Proof.
  rewrite shouldIncludeTool_is_loop.
  destruct (shouldIncludeTool_loop_spec patterns toolName) as (b & Hb & Hiff).
  rewrite Hb. split.
  - intros H p Hin Hm. injection H as ->.
    assert (true = false) by (apply Hiff; eauto). discriminate.
  - intros H. destruct b; [reflexivity|].
    destruct (proj1 Hiff eq_refl) as (p & Hin & Hm). destruct (H p Hin Hm).
Qed.

Lemma shouldIncludeTool_total patterns toolName :
  shouldIncludeTool (Some patterns) toolName = Normal (included patterns toolName).
Proof.
  unfold included. rewrite shouldIncludeTool_is_loop.
  destruct (shouldIncludeTool_loop_spec patterns toolName) as (b & -> & _).
  reflexivity.
Qed.

(** X1. A pattern without [*] is taken literally, whatever characters it
    holds: it excludes a tool exactly when the tool's name is the pattern
    up to case. *)
Theorem literal_pattern_excludes_exactly_its_name :
  forall pattern toolName : string,
    includes pattern "*" = false ->
    (shouldIncludeTool (Some [pattern]) toolName = Normal false <->
     canon pattern = canon toolName) /\
    (shouldIncludeTool (Some [pattern]) toolName = Normal true <->
     canon pattern <> canon toolName).
Proof.
  intros pattern toolName Hstar.
  assert (Hrun : shouldIncludeTool (Some [pattern]) toolName
                 = Normal (negb (test (lits pattern) toolName))).
  { simpl. rewrite patternToRegex_atoms, (split_without_separator _ _ Hstar). simpl.
    destruct (test (lits pattern) toolName); reflexivity. }
  rewrite Hrun. pose proof (test_lits_only pattern toolName) as Ht.
  destruct (test (lits pattern) toolName); simpl.
  - assert (Heq : canon pattern = canon toolName) by (apply Ht; reflexivity).
    split; split; intros H; try discriminate; try reflexivity; try assumption.
    destruct (H Heq).
  - assert (Hne : canon pattern <> canon toolName)
      by (intros H; apply Ht in H; discriminate).
    split; split; intros H; try discriminate; try reflexivity; try assumption.
    destruct (Hne H).
Qed.

(** X2. Ignore lists compose: a tool passes the concatenation of two
    lists exactly when it passes each, so the order of the patterns does
    not matter and a longer list never lets more through. *)
Theorem ignore_patterns_compose :
  forall (ps qs : list string) (toolName : string),
    (shouldIncludeTool (Some (ps ++ qs)) toolName = Normal true <->
     shouldIncludeTool (Some ps) toolName = Normal true /\
     shouldIncludeTool (Some qs) toolName = Normal true) /\
    shouldIncludeTool (Some (ps ++ qs)) toolName
    = shouldIncludeTool (Some (qs ++ ps)) toolName.
Proof.
  intros ps qs toolName.
  assert (H : forall xs ys,
             shouldIncludeTool (Some (xs ++ ys)) toolName = Normal true <->
             shouldIncludeTool (Some xs) toolName = Normal true /\
             shouldIncludeTool (Some ys) toolName = Normal true).
  { intros xs ys. rewrite !shouldIncludeTool_true. split.
    - intros H. split; intros p Hin; apply H, in_or_app; auto.
    - intros [Hx Hy] p Hin. apply in_app_or in Hin as [Hin | Hin]; auto. }
  split; [apply H|].
  rewrite !shouldIncludeTool_total. f_equal.
  destruct (included (ps ++ qs) toolName) eqn:H1, (included (qs ++ ps) toolName) eqn:H2;
    try reflexivity; exfalso.
  - assert (Ht : shouldIncludeTool (Some (ps ++ qs)) toolName = Normal true)
      by (rewrite shouldIncludeTool_total, H1; reflexivity).
    apply H in Ht as [Hp Hq].
    assert (Hf : shouldIncludeTool (Some (qs ++ ps)) toolName = Normal true)
      by (apply H; auto).
    rewrite shouldIncludeTool_total, H2 in Hf. discriminate.
  - assert (Ht : shouldIncludeTool (Some (qs ++ ps)) toolName = Normal true)
      by (rewrite shouldIncludeTool_total, H2; reflexivity).
    apply H in Ht as [Hq Hp].
    assert (Hf : shouldIncludeTool (Some (ps ++ qs)) toolName = Normal true)
      by (apply H; auto).
    rewrite shouldIncludeTool_total, H1 in Hf. discriminate.
Qed.

End ToolFilterMore.

(** ** The proxy router, further *)
Section ProxyRelay.
Import JS Utils ProxySpec RelaySpec.
Variable MCP_REMOTE_VERSION : string.
Variable ignoredTools : list string.

Local Abbreviation onClientMessage := (onClientMessage MCP_REMOTE_VERSION ignoredTools).
Local Abbreviation onServerMessage := (onServerMessage ignoredTools).
Local Abbreviation step := (step MCP_REMOTE_VERSION ignoredTools).
Local Abbreviation run := (run MCP_REMOTE_VERSION ignoredTools).

Lemma assoc_assocSet_eq k v fields : assoc k (assocSet k v fields) = v.
Proof.
  induction fields as [|[k' v'] rest IH]; simpl.
  - rewrite String.eqb_refl. reflexivity.
  - destruct (String.eqb k k') eqn:Hk; simpl; rewrite ?String.eqb_refl, ?Hk; auto.
Qed.

Lemma assoc_assocSet_ne k k' v fields :
  k' <> k -> assoc k' (assocSet k v fields) = assoc k' fields.
Proof.
  intros Hne. induction fields as [|[k0 v0] rest IH]; simpl.
  - apply String.eqb_neq in Hne. rewrite Hne. reflexivity.
  - destruct (String.eqb_spec k k0) as [->|Hk]; simpl.
    + apply String.eqb_neq in Hne. rewrite Hne. reflexivity.
    + destruct (String.eqb k' k0); auto.
Qed.

Lemma getProp_defined v k :
  v <> VUndefined -> v <> VNull -> getProp v k = Normal (getPropOpt v k).
Proof. intros H1 H2. unfold getPropOpt. destruct v; try congruence; reflexivity. Qed.

Lemma filterTools_filter items :
  Forall (fun t => t <> VUndefined /\ t <> VNull) items ->
  filterTools ignoredTools items
  = Normal (List.filter (fun t => included ignoredTools (nameOf t)) items).
Proof.
  induction 1 as [|t rest [H1 H2] _ IH]; [reflexivity|].
  cbn [filterTools List.filter].
  rewrite (getProp_defined t "name" H1 H2). cbn [bind].
  change (ToString (getPropOpt t "name")) with (nameOf t).
  rewrite shouldIncludeTool_total. cbn [bind]. rewrite IH. cbn [bind].
  destruct (included ignoredTools (nameOf t)); reflexivity.
Qed.

(** X3. The answer to a [tools/list] request goes to the client with
    [result.tools] cut down to the tools whose name passes the filter, in
    their order; every other member of [result] and of the message is as
    the server sent it. *)
Theorem tools_list_answer_keeps_the_included_tools :
  forall (req res : Message) (fields : list (string * JsVal)) (items : list JsVal),
    method req = Some "tools/list" ->
    result res = VObj fields ->
    assoc "tools" fields = VArr items ->
    Forall (fun t => t <> VUndefined /\ t <> VNull) items ->
    exists res',
      transformResponseFunction ignoredTools (Some req) res = Normal res' /\
      getProp (result res') "tools"
      = Normal (VArr (List.filter (fun t => included ignoredTools (nameOf t)) items)) /\
      (forall k, k <> "tools" -> getProp (result res') k = getProp (result res) k) /\
      jsonrpc res' = jsonrpc res /\ id res' = id res /\ method res' = method res /\
      params res' = params res /\ error res' = error res.
Proof.
  intros req res fields items Hm Hres Htools Hitems.
  unfold transformResponseFunction. rewrite Hm, Hres. simpl. rewrite Htools.
  rewrite (filterTools_filter items Hitems). simpl.
  eexists. split; [reflexivity|]. simpl.
  split; [rewrite assoc_assocSet_eq; reflexivity|].
  split; [|repeat split; reflexivity].
  intros k Hk. rewrite assoc_assocSet_ne by exact Hk. reflexivity.
Qed.

(** X4. A message from the server that carries an id for which no request
    is waiting is not passed on: the response transformer throws on the
    missing request and the client is sent nothing.  So a second answer
    with the same id is lost, whatever happened before. *)
Theorem server_message_without_pending_request_is_dropped :
  forall (events : list Event) (m m' : Message) (i : RequestId),
    truthyId (id m) = Some i ->
    (forall st,
        pendingRequests st !! i = None ->
        wire (step st (ServerMessage m)) = wire st /\
        exists e, (onServerMessage m st).1 = Throw e) /\
    (id m' = id m ->
     wire (run (events ++ [ServerMessage m'; ServerMessage m]))
     = wire (run (events ++ [ServerMessage m']))).
Proof.
  intros events m m' i Hi.
  assert (Hdrop : forall st,
             pendingRequests st !! i = None ->
             wire (step st (ServerMessage m)) = wire st /\
             exists e, (onServerMessage m st).1 = Throw e).
  { intros st Hnone. simpl.
    unfold Utils.onServerMessage, interceptResponse. rewrite Hi, Hnone. simpl.
    split; [reflexivity | eauto]. }
  split; [exact Hdrop|].
  intros Hid. unfold Utils.run. rewrite !fold_left_app. cbn [fold_left].
  apply Hdrop.
  apply not_elem_of_dom. rewrite step_dom. cbn [touch]. rewrite Hid, Hi.
  apply not_elem_of_difference. right. apply elem_of_singleton. reflexivity.
Qed.

(** X5. When the server answers a waiting [tools/list] request with
    anything whose [result.tools] is not an array -- a JSON-RPC error, which
    has no [result], is the common case -- the answer is not passed on: the
    client is sent nothing, and the request is no longer waiting. *)
Theorem tools_list_answer_without_tools_is_dropped :
  forall (st : Proxy) (req res : Message) (i : RequestId),
    truthyId (id res) = Some i ->
    pendingRequests st !! i = Some req ->
    method req = Some "tools/list" ->
    (forall items, getProp (result res) "tools" <> Normal (VArr items)) ->
    wire (step st (ServerMessage res)) = wire st /\
    pendingRequests (step st (ServerMessage res)) = delete i (pendingRequests st) /\
    exists e, (onServerMessage res st).1 = Throw e.
Proof.
  intros st req res i Hi Hp Hm Hno. simpl.
  unfold Utils.onServerMessage, interceptResponse. rewrite Hi, Hp.
  unfold transformResponseFunction. rewrite Hm. simpl.
  destruct (getProp (result res) "tools") as [tools|e] eqn:Ht; simpl.
  - destruct tools; try (destruct (Hno items eq_refl)); repeat split; eauto.
  - repeat split; eauto.
Qed.


(** A message handler leaves the two flags alone and asks the transports
    for nothing but sends. *)
Lemma step_message st ev :
  (exists m, ev = ClientMessage m \/ ev = ServerMessage m) ->
  transportToClientClosed (step st ev) = transportToClientClosed st /\
  transportToServerClosed (step st ev) = transportToServerClosed st /\
  exists more, wire (step st ev) = wire st ++ more /\ Forall isSend more.
Proof.
  assert (Hnil : exists more, wire st = wire st ++ more /\ Forall isSend more)
    by (exists []; rewrite app_nil_r; auto).
  assert (Hone : forall o, isSend o ->
                 exists more, wire st ++ [o] = wire st ++ more /\ Forall isSend more)
    by (intros o Ho; exists [o]; auto).
  intros (m & [-> | ->]); simpl.
  - unfold Utils.onClientMessage, interceptRequest, transformRequestFunction.
    destruct (truthyId (id m)) as [i|] eqn:Hi;
      [destruct (_ && _); [destruct (shouldIncludeTool _ _) as [[|]|]|]|];
      simpl;
      try (destruct (bool_decide _); simpl;
           [destruct (tagClientInfo _ _); simpl; rewrite ?Hi; simpl|]);
      repeat split; auto; apply Hone; exact I.
  - unfold Utils.onServerMessage, interceptResponse.
    destruct (truthyId (id m)) as [i|]; simpl;
      [destruct (transformResponseFunction _ _ _); simpl|];
      repeat split; auto; apply Hone; exact I.
Qed.

Lemma step_close_invariant st ev :
  let good st :=
    (In CloseServer (wire st) -> transportToClientClosed st = true) /\
    (In CloseClient (wire st) -> transportToServerClosed st = true) /\
    ~ (transportToClientClosed st = true /\ transportToServerClosed st = true) in
  good st -> good (step st ev).
Proof.
  intros good (H1 & H2 & H3).
  assert (Hmsg : (exists m, ev = ClientMessage m \/ ev = ServerMessage m) ->
                 good (step st ev)).
  { intros Hev. destruct (step_message st ev Hev) as (Hc & Hs & more & Hw & Hsend).
    unfold good. rewrite Hc, Hs, Hw. repeat split; auto.
    - intros Hin. apply in_app_or in Hin as [Hin | Hin]; auto.
      rewrite List.Forall_forall in Hsend. destruct (Hsend _ Hin).
    - intros Hin. apply in_app_or in Hin as [Hin | Hin]; auto.
      rewrite List.Forall_forall in Hsend. destruct (Hsend _ Hin). }
  destruct ev as [m|m| | | |]; try solve [apply Hmsg; eauto];
    try solve [repeat split; assumption].
  - unfold good, step, onClientClose.
    destruct (transportToServerClosed st) eqn:Hs; [rewrite Hs; repeat split; assumption|].
    simpl. repeat split; auto.
    + intros Hin. apply in_app_or in Hin as [Hin | [Hin | []]]; [|discriminate].
      specialize (H2 Hin). discriminate.
    + intros [_ ?]. discriminate.
  - unfold good, step, onServerClose.
    destruct (transportToClientClosed st) eqn:Hc; [rewrite Hc; repeat split; assumption|].
    simpl. repeat split; auto.
    + intros Hin. apply in_app_or in Hin as [Hin | [Hin | []]]; [|discriminate].
      specialize (H1 Hin). discriminate.
    + intros [? _]. discriminate.
Qed.

Lemma step_close_cause st ev :
  (In CloseServer (wire (step st ev)) -> In CloseServer (wire st) \/ ev = ClientClosed) /\
  (In CloseClient (wire (step st ev)) -> In CloseClient (wire st) \/ ev = ServerClosed).
Proof.
  assert (Hmsg : (exists m, ev = ClientMessage m \/ ev = ServerMessage m) ->
                 forall o, ~ isSend o -> In o (wire (step st ev)) -> In o (wire st)).
  { intros Hev o Ho. destruct (step_message st ev Hev) as (_ & _ & more & -> & Hsend).
    intros Hin. apply in_app_or in Hin as [Hin | Hin]; [exact Hin|].
    rewrite List.Forall_forall in Hsend. destruct (Ho (Hsend _ Hin)). }
  destruct ev as [m|m| | | |]; simpl; auto;
    try solve [split; intros Hin; left; revert Hin; apply Hmsg; simpl; eauto].
  - split; auto. unfold onClientClose.
    destruct (transportToServerClosed st); simpl; auto.
    intros Hin. apply in_app_or in Hin as [Hin | [Hin | []]]; [auto | discriminate].
  - split; auto. unfold onServerClose.
    destruct (transportToClientClosed st); simpl; auto.
    intros Hin. apply in_app_or in Hin as [Hin | [Hin | []]]; [auto | discriminate].
Qed.

(** X6. Whatever the two sides do, the proxy passes a close on in one
    direction only: it never asks both transports to close, since once it
    has closed one side for the other's sake it ignores that side's own
    close; and it closes a side only when the other side has closed. *)
Theorem proxy_passes_a_close_on_one_way_only :
  forall events : list Event,
    let st := run events in
    ~ (In CloseServer (wire st) /\ In CloseClient (wire st)) /\
    ~ (transportToClientClosed st = true /\ transportToServerClosed st = true) /\
    (In CloseServer (wire st) -> In ClientClosed events) /\
    (In CloseClient (wire st) -> In ServerClosed events).
Proof.
  intros events. cbv zeta. unfold Utils.run.
  induction events as [|ev events IH] using rev_ind.
  - simpl. repeat split; try tauto. intros [? _]. discriminate.
  - rewrite fold_left_app. cbn [fold_left].
    set (st := fold_left step events mcpProxy) in *.
    destruct IH as (IH1 & IH2 & IH3 & IH4).
    assert (Hgood : (In CloseServer (wire st) -> transportToClientClosed st = true) /\
                    (In CloseClient (wire st) -> transportToServerClosed st = true) /\
                    ~ (transportToClientClosed st = true /\
                       transportToServerClosed st = true)).
    { clear IH1 IH2 IH3 IH4. subst st.
      induction events as [|e es IHe] using rev_ind.
      - simpl. repeat split; try tauto. intros [? _]. discriminate.
      - rewrite fold_left_app. cbn [fold_left]. apply step_close_invariant, IHe. }
    destruct (step_close_invariant st ev Hgood) as (G1 & G2 & G3).
    destruct (step_close_cause st ev) as (C1 & C2).
    repeat split.
    + intros [Hs Hc]. apply G3. auto.
    + exact G3.
    + intros Hin. apply in_or_app. destruct (C1 Hin) as [H | ->]; [left; auto | right; left; reflexivity].
    + intros Hin. apply in_or_app. destruct (C2 Hin) as [H | ->]; [left; auto | right; left; reflexivity].
Qed.


Lemma sentToServer_app a b :
  sentToServer (a ++ b) = sentToServer a ++ sentToServer b.
Proof.
  induction a as [|o a IH]; [reflexivity|].
  destruct o; simpl; rewrite IH; reflexivity.
Qed.

Lemma step_without_filter st ev :
  sentToServer (wire (Utils.step MCP_REMOTE_VERSION [] st ev))
  = sentToServer (wire st) ++ passedOn MCP_REMOTE_VERSION ev.
Proof.
  destruct ev as [m|m| | | |]; simpl; rewrite ?app_nil_r; try reflexivity.
  - unfold Utils.onClientMessage, interceptRequest, transformRequestFunction.
    destruct (truthyId (id m)) as [i|] eqn:Hi;
      [destruct (_ && _)|]; simpl;
      (destruct (bool_decide (method m = Some "initialize")); simpl;
       [destruct (tagClientInfo _ _); simpl; rewrite ?Hi; simpl|]);
      rewrite ?sentToServer_app, ?app_nil_r; reflexivity.
  - unfold Utils.onServerMessage, interceptResponse.
    destruct (truthyId (id m)) as [i|]; simpl;
      [destruct (transformResponseFunction _ _ _); simpl|];
      rewrite ?sentToServer_app, ?app_nil_r; reflexivity.
  - unfold onClientClose. destruct (transportToServerClosed st); simpl;
      rewrite ?sentToServer_app, ?app_nil_r; reflexivity.
  - unfold onServerClose. destruct (transportToClientClosed st); simpl;
      rewrite ?sentToServer_app, ?app_nil_r; reflexivity.
Qed.

(** X7. Without ignore patterns the proxy is transparent towards the
    server: what the server is sent is the client's messages, each one and
    in their order, whatever else happens in between -- unchanged, but for
    the client name of an [initialize]. *)
Theorem proxy_without_filter_passes_every_client_message_on :
  forall events : list Event,
    sentToServer (wire (Utils.run MCP_REMOTE_VERSION [] events))
    = concat (map (passedOn MCP_REMOTE_VERSION) events).
Proof.
  intros events. unfold Utils.run.
  induction events as [|ev events IH] using rev_ind; [reflexivity|].
  rewrite fold_left_app, map_app, concat_app. cbn [fold_left map concat].
  rewrite step_without_filter, IH, app_nil_r. reflexivity.
Qed.

(** X8. An [initialize] request goes to the server with
    [params.clientInfo.name] followed by the proxy's mark, and with every
    other member of [clientInfo], of [params] and of the message as the
    client sent it, whatever the ignore patterns; an [initialize] without
    [params] is not forwarded at all. *)
Theorem initialize_marks_the_client_name :
  forall (st : Proxy) (m : Message),
    method m = Some "initialize" ->
    (forall fields info,
        params m = VObj fields ->
        assoc "clientInfo" fields = VObj info ->
        exists fields' info',
          wire (step st (ClientMessage m))
          = wire st ++ [SendToServer
                          {| jsonrpc := jsonrpc m; id := id m; method := method m;
                             params := VObj fields'; result := result m;
                             error := error m |}] /\
          assoc "clientInfo" fields' = VObj info' /\
          assoc "name" info'
          = VStr (ToString (assoc "name" info) +:+ " (via mcp-remote "
                  +:+ MCP_REMOTE_VERSION +:+ ")") /\
          (forall k, k <> "name" -> assoc k info' = assoc k info) /\
          (forall k, k <> "clientInfo" -> assoc k fields' = assoc k fields)) /\
    (params m = VUndefined -> wire (step st (ClientMessage m)) = wire st).
Proof.
  intros st m Hm.
  assert (Hcall : bool_decide (method m = Some "tools/call") = false)
    by (rewrite Hm; reflexivity).
  assert (Hinit : bool_decide (method m = Some "initialize") = true)
    by (rewrite Hm; reflexivity).
  split.
  - intros fields info Hp Hci.
    exists (assocSet "clientInfo"
              (VObj (assocSet "name"
                       (VStr (ToString (assoc "name" info) +:+ " (via mcp-remote "
                              +:+ MCP_REMOTE_VERSION +:+ ")")) info)) fields),
           (assocSet "name"
              (VStr (ToString (assoc "name" info) +:+ " (via mcp-remote "
                     +:+ MCP_REMOTE_VERSION +:+ ")")) info).
    split; [|split; [apply assoc_assocSet_eq|split; [apply assoc_assocSet_eq|split]]].
    + simpl. unfold Utils.onClientMessage, interceptRequest, transformRequestFunction.
      rewrite Hcall. simpl.
      destruct (truthyId (id m)) as [i|] eqn:Hi; simpl; rewrite Hinit;
        unfold tagClientInfo; rewrite Hp; simpl; rewrite Hci; simpl;
        rewrite ?Hi; reflexivity.
    + intros k Hk. apply assoc_assocSet_ne. exact Hk.
    + intros k Hk. apply assoc_assocSet_ne. exact Hk.
  - intros Hp. simpl.
    unfold Utils.onClientMessage, interceptRequest, transformRequestFunction.
    rewrite Hcall. simpl.
    destruct (truthyId (id m)) as [i|] eqn:Hi; simpl; rewrite Hinit;
      unfold tagClientInfo; rewrite Hp; reflexivity.
Qed.

End ProxyRelay.

(** ** The transport selector, further *)
Section TransportSelectorMore.
Import JS Utils ConnectSpec RetrySpec.
Variable client : bool.
Variable world : ConnectWorld.

Local Abbreviation connect := (connectToRemoteServer client world).
Local Abbreviation attempt :=
  (fun depth strategy =>
     connectAttempt client world depth (sseTransportOf strategy) (transportOf strategy)).

Lemma unused_after_fallback recursionReasons :
  REASON_TRANSPORT_FALLBACK ∉ recursionReasons ->
  (S (unused ({[REASON_TRANSPORT_FALLBACK]} ∪ recursionReasons))
   = unused recursionReasons)%nat.
Proof.
  intros Hfresh. unfold unused.
  rewrite (bool_decide_eq_true_2 (REASON_TRANSPORT_FALLBACK ∈ _ ∪ _))
    by (apply elem_of_union; left; apply elem_of_singleton; reflexivity).
  rewrite (bool_decide_eq_false_2 (REASON_TRANSPORT_FALLBACK ∈ recursionReasons))
    by exact Hfresh.
  destruct (decide (REASON_AUTH_NEEDED ∈ recursionReasons)) as [Hin | Hout].
  - rewrite !bool_decide_eq_true_2; [reflexivity | exact Hin |].
    apply elem_of_union. right. exact Hin.
  - rewrite !bool_decide_eq_false_2; [reflexivity | exact Hout |].
    intros H. apply elem_of_union in H as [H | H]; [|auto].
    apply elem_of_singleton in H. discriminate.
Qed.

Lemma unused_after_auth recursionReasons :
  REASON_AUTH_NEEDED ∉ recursionReasons ->
  (S (unused ({[REASON_AUTH_NEEDED]} ∪ recursionReasons))
   = unused recursionReasons)%nat.
Proof.
  intros Hfresh. unfold unused.
  rewrite (bool_decide_eq_true_2 (REASON_AUTH_NEEDED ∈ _ ∪ _))
    by (apply elem_of_union; left; apply elem_of_singleton; reflexivity).
  rewrite (bool_decide_eq_false_2 (REASON_AUTH_NEEDED ∈ recursionReasons))
    by exact Hfresh.
  destruct (decide (REASON_TRANSPORT_FALLBACK ∈ recursionReasons)) as [Hin | Hout].
  - rewrite !bool_decide_eq_true_2; [lia | exact Hin |].
    apply elem_of_union. right. exact Hin.
  - rewrite !bool_decide_eq_false_2; [lia | exact Hout |].
    intros H. apply elem_of_union in H as [H | H]; [|auto].
    apply elem_of_singleton in H. discriminate.
Qed.

Lemma unused_le_2 recursionReasons : (unused recursionReasons <= 2)%nat.
Proof. unfold unused. repeat destruct (bool_decide _); lia. Qed.

(** What a call leaves behind, whatever its outcome. *)
Lemma connectToRemoteServer_trace fuel :
  forall depth transportStrategy recursionReasons tried r,
    connect fuel depth transportStrategy recursionReasons tried = Some r ->
    exists more,
      attempted r = tried ++ more /\
      (1 <= length more <= 1 + unused recursionReasons)%nat /\
      recursionReasons ⊆ reasonsAfter r /\
      reasonsAfter r ⊆ recursionReasons ∪ {[REASON_TRANSPORT_FALLBACK; REASON_AUTH_NEEDED]} /\
      (forall t, outcome r = Connected t -> List.last more t = t /\ In t more) /\
      (outcome r = NeverSettles ->
       exists d skip, authInitializer world d = Normal (skip, None)).
Proof.
  induction fuel as [|fuel IH]; intros depth strategy reasons tried r; [discriminate|].
  assert (Hleaf : forall o,
             (forall t, o = Connected t -> t = transportOf strategy) ->
             (o = NeverSettles ->
              exists d skip, authInitializer world d = Normal (skip, None)) ->
             Some (mkConnectResult o reasons (tried ++ [transportOf strategy])) = Some r ->
             exists more,
               attempted r = tried ++ more /\
               (1 <= length more <= 1 + unused reasons)%nat /\
               reasons ⊆ reasonsAfter r /\
               reasonsAfter r ⊆ reasons ∪ {[REASON_TRANSPORT_FALLBACK; REASON_AUTH_NEEDED]} /\
               (forall t, outcome r = Connected t -> List.last more t = t /\ In t more) /\
               (outcome r = NeverSettles ->
                exists d skip, authInitializer world d = Normal (skip, None))).
  { intros o Hconn Hnever Ho. injection Ho as <-. exists [transportOf strategy]. simpl.
    split; [reflexivity|]. split; [lia|]. split; [reflexivity|].
    split; [apply union_subseteq_l|]. split; [|exact Hnever].
    intros t Ht. rewrite (Hconn t Ht). auto. }
  assert (Hrec : forall strategy' reason,
             reason ∉ reasons ->
             (reason = REASON_TRANSPORT_FALLBACK \/ reason = REASON_AUTH_NEEDED) ->
             connect fuel (S depth) strategy' ({[reason]} ∪ reasons)
                     (tried ++ [transportOf strategy]) = Some r ->
             exists more,
               attempted r = tried ++ more /\
               (1 <= length more <= 1 + unused reasons)%nat /\
               reasons ⊆ reasonsAfter r /\
               reasonsAfter r ⊆ reasons ∪ {[REASON_TRANSPORT_FALLBACK; REASON_AUTH_NEEDED]} /\
               (forall t, outcome r = Connected t -> List.last more t = t /\ In t more) /\
               (outcome r = NeverSettles ->
                exists d skip, authInitializer world d = Normal (skip, None))).
  { intros strategy' reason Hfresh Hreason Hrun.
    destruct (IH _ _ _ _ _ Hrun) as (more & Hatt & Hlen & Hsub & Hsup & Hlast & Hnever).
    exists (transportOf strategy :: more).
    split; [rewrite Hatt, <- app_assoc; reflexivity|].
    split.
    { simpl. destruct Hreason as [-> | ->];
        [rewrite <- (unused_after_fallback reasons Hfresh)
        |rewrite <- (unused_after_auth reasons Hfresh)]; lia. }
    split; [etransitivity; [|exact Hsub]; apply union_subseteq_r|].
    split.
    { etransitivity; [exact Hsup|].
      apply union_least; [|apply union_subseteq_r].
      apply union_least; [|apply union_subseteq_l].
      apply singleton_subseteq_l, elem_of_union. right.
      destruct Hreason as [-> | ->]; set_solver. }
    split; [|exact Hnever].
    intros t Ht. destruct (Hlast t Ht) as [Hl Hin]. split; [|right; exact Hin].
    destruct more as [|x more']; [destruct Hin|]. exact Hl. }
  simpl connectToRemoteServer.
  destruct (connectAttempt _ _ _ _ _) as [|error].
  { apply Hleaf; [congruence | discriminate]. }
  destruct (_ && _ && _).
  - destruct (bool_decide (REASON_TRANSPORT_FALLBACK ∈ reasons)) eqn:Hfb.
    + apply Hleaf; discriminate.
    + apply bool_decide_eq_false in Hfb. apply Hrec; auto.
  - destruct (isAuthError error); [|apply Hleaf; discriminate].
    destruct (authInitializer world depth) as [[skip [code|]]|] eqn:Hinit;
      [|apply Hleaf; [discriminate | eauto] | apply Hleaf; discriminate].
    destruct (finishAuth world depth _ code); [|apply Hleaf; discriminate].
    destruct (bool_decide (REASON_AUTH_NEEDED ∈ reasons)) eqn:Hau.
    + apply Hleaf; discriminate.
    + apply bool_decide_eq_false in Hau. apply Hrec; auto.
Qed.

(** X9. A call of [connectToRemoteServer] makes at least one and at most
    three connection attempts, its recursive calls included: each
    recursive call uses up one of the two reasons.  The reasons it was
    given are still in the set afterwards, nothing but the two reasons is
    added, and the transport it returns is the one tried last.  With
    every attempt and every [finishAuth] taken as settling, the call
    returns or throws after its attempts, unless an authorization it went
    into never hands over a code: then it waits for ever. *)
Theorem connectToRemoteServer_tries_at_most_three_times :
  forall (k depth : nat) (transportStrategy : TransportStrategy)
         (recursionReasons : gset string) (tried : list TransportKind),
    exists r more,
      connect (3 + k) depth transportStrategy recursionReasons tried = Some r /\
      attempted r = tried ++ more /\
      (1 <= length more <= 3)%nat /\
      recursionReasons ⊆ reasonsAfter r /\
      reasonsAfter r
        ⊆ recursionReasons ∪ {[REASON_TRANSPORT_FALLBACK; REASON_AUTH_NEEDED]} /\
      (forall t, outcome r = Connected t -> List.last more t = t /\ In t more) /\
      (outcome r = NeverSettles ->
       exists d skip, authInitializer world d = Normal (skip, None)).
Proof.
  intros k depth strategy reasons tried.
  destruct (connectToRemoteServer_settles client world (3 + k) depth strategy reasons tried)
    as (r & Hr).
  { pose proof (unused_le_2 reasons) as H. unfold unused in H. lia. }
  destruct (connectToRemoteServer_trace _ _ _ _ _ _ Hr)
    as (more & Hatt & Hlen & Hsub & Hsup & Hlast & Hnever).
  pose proof (unused_le_2 reasons).
  exists r, more. split; [exact Hr|]. split; [exact Hatt|]. split; [lia|]. auto.
Qed.

(** The guard of the transport fallback is dead.  A call that holds
    REASON_TRANSPORT_FALLBACK only under an [*-only] strategy -- every call
    that starts from the empty set, and every call it makes -- never fails
    with "Already attempted transport fallback. Giving up." of its own:
    where that error comes out, a connection attempt or the authorization
    had thrown it. *)
Lemma transport_fallback_guard_is_dead fuel :
  forall depth transportStrategy recursionReasons tried r,
    (REASON_TRANSPORT_FALLBACK ∈ recursionReasons ->
     transportStrategy = sse_only \/ transportStrategy = http_only) ->
    connect fuel depth transportStrategy recursionReasons tried = Some r ->
    outcome r = Threw (Error "Already attempted transport fallback. Giving up.") ->
    (exists d sseTransport transport,
        connectAttempt client world d sseTransport transport
        = Throw (Error "Already attempted transport fallback. Giving up.")) \/
    (exists d, authInitializer world d
               = Throw (Error "Already attempted transport fallback. Giving up.")) \/
    (exists d transport code,
        finishAuth world d transport code
        = Throw (Error "Already attempted transport fallback. Giving up.")).
Proof.
  induction fuel as [|fuel IH]; intros depth strategy reasons tried r Hinv; [discriminate|].
  simpl connectToRemoteServer.
  destruct (connectAttempt _ _ _ _ _) as [|error] eqn:Hattempt.
  { intros H. injection H as <-. discriminate. }
  destruct (instanceofError error && _ && _) eqn:Hfallback.
  - destruct (bool_decide (REASON_TRANSPORT_FALLBACK ∈ reasons)) eqn:Hfb.
    + apply bool_decide_eq_true in Hfb.
      destruct (Hinv Hfb) as [-> | ->]; rewrite andb_false_r in Hfallback; discriminate.
    + apply IH. intros _. destruct (sseTransportOf strategy); auto.
  - destruct (isAuthError error).
    + destruct (authInitializer world depth) as [[skip [code|]]|e] eqn:Hinit.
      * destruct (finishAuth world depth _ code) as [|e] eqn:Hfinish.
        -- destruct (bool_decide (REASON_AUTH_NEEDED ∈ reasons)).
           ++ intros H. injection H as <-. discriminate.
           ++ apply IH. intros Hin. apply Hinv.
              apply elem_of_union in Hin as [Hin | Hin]; [|exact Hin].
              apply elem_of_singleton in Hin. discriminate.
        -- intros H. injection H as <-. simpl. intros He. injection He as ->.
           right. right. eauto.
      * intros H. injection H as <-. discriminate.
      * intros H. injection H as <-. simpl. intros He. injection He as ->.
        right. left. eauto.
    + intros H. injection H as <-. simpl. intros He. injection He as ->.
      left. eauto.
Qed.

Lemma only_strategy_trace fuel :
  forall depth transportStrategy recursionReasons tried r,
    transportStrategy = sse_only \/ transportStrategy = http_only ->
    connect fuel depth transportStrategy recursionReasons tried = Some r ->
    exists n,
      attempted r = tried ++ repeat (transportOf transportStrategy) (S n) /\
      (REASON_TRANSPORT_FALLBACK ∈ reasonsAfter r ->
       REASON_TRANSPORT_FALLBACK ∈ recursionReasons).
Proof.
  induction fuel as [|fuel IH]; intros depth strategy reasons tried r Hs; [discriminate|].
  assert (Hleaf : forall o,
             Some (mkConnectResult o reasons (tried ++ [transportOf strategy])) = Some r ->
             exists n,
               attempted r = tried ++ repeat (transportOf strategy) (S n) /\
               (REASON_TRANSPORT_FALLBACK ∈ reasonsAfter r ->
                REASON_TRANSPORT_FALLBACK ∈ reasons)).
  { intros o Ho. injection Ho as <-. exists 0%nat. simpl. auto. }
  simpl connectToRemoteServer.
  destruct (connectAttempt _ _ _ _ _) as [|error]; [apply Hleaf|].
  replace (match strategy with http_first | sse_first => true | _ => false end)
    with false by (destruct Hs as [-> | ->]; reflexivity).
  rewrite andb_false_r. cbn [andb].
  destruct (isAuthError error); [|apply Hleaf].
  destruct (authInitializer world depth) as [[skip [code|]]|]; try apply Hleaf.
  destruct (finishAuth world depth _ code); [|apply Hleaf].
  destruct (bool_decide (REASON_AUTH_NEEDED ∈ reasons)); [apply Hleaf|].
  intros Hrun. destruct (IH _ _ _ _ _ Hs Hrun) as (n & Hatt & Hfb).
  exists (S n). split.
  - rewrite Hatt, <- app_assoc. reflexivity.
  - intros Hin. apply Hfb, elem_of_union in Hin as [Hin | Hin]; [|exact Hin].
    apply elem_of_singleton in Hin. discriminate.
Qed.

(** X10. Under an [*-only] strategy every connection attempt of a call,
    the retry after an authorization included, is on the transport the
    strategy names, and the call never records a transport fallback. *)
Theorem only_strategy_stays_on_its_transport :
  forall (fuel depth : nat) (transportStrategy : TransportStrategy)
         (recursionReasons : gset string) (tried : list TransportKind)
         (r : ConnectResult),
    transportStrategy = sse_only \/ transportStrategy = http_only ->
    connect fuel depth transportStrategy recursionReasons tried = Some r ->
    exists n,
      attempted r = tried ++ repeat (transportOf transportStrategy) (S n) /\
      (REASON_TRANSPORT_FALLBACK ∈ reasonsAfter r ->
       REASON_TRANSPORT_FALLBACK ∈ recursionReasons).
Proof. intros fuel. apply only_strategy_trace. Qed.

(** X11. Authorization is tried again once and no more: when the attempt
    after a completed authorization is answered with an authorization
    error again, the authorization is gone through a second time -- the
    initializer, the wait for the code, [finishAuth] -- and only then the
    call fails with "Already attempted reconnection for reason:
    authentication-needed. Giving up.". *)
Theorem second_authorization_demand_gives_up :
  forall (fuel depth : nat) (transportStrategy : TransportStrategy)
         (recursionReasons : gset string) (tried : list TransportKind)
         (error1 error2 : Thrown) (skip1 skip2 : bool) (code1 code2 : string),
    REASON_AUTH_NEEDED ∉ recursionReasons ->
    attempt depth transportStrategy = Throw error1 ->
    isProtocolError error1 = false -> isAuthError error1 = true ->
    authInitializer world depth = Normal (skip1, Some code1) ->
    finishAuth world depth (transportOf transportStrategy) code1 = Normal tt ->
    attempt (S depth) transportStrategy = Throw error2 ->
    isProtocolError error2 = false -> isAuthError error2 = true ->
    authInitializer world (S depth) = Normal (skip2, Some code2) ->
    finishAuth world (S depth) (transportOf transportStrategy) code2 = Normal tt ->
    connect (S (S fuel)) depth transportStrategy recursionReasons tried
    = Some {| outcome := Threw (Error "Already attempted reconnection for reason: authentication-needed. Giving up.");
              reasonsAfter := {[REASON_AUTH_NEEDED]} ∪ recursionReasons;
              attempted := tried ++ [transportOf transportStrategy;
                                     transportOf transportStrategy] |}.
Proof.
  intros fuel depth strategy reasons tried e1 e2 skip1 skip2 code1 code2
         Hfresh Ha1 Hp1 Hu1 Hi1 Hf1 Ha2 Hp2 Hu2 Hi2 Hf2.
  simpl connectToRemoteServer.
  rewrite Ha1, Hp1, andb_false_r, Hu1, Hi1, Hf1.
  rewrite (bool_decide_eq_false_2 _ Hfresh).
  rewrite Ha2, Hp2, andb_false_r, Hu2, Hi2, Hf2.
  rewrite bool_decide_eq_true_2
    by (apply elem_of_union; left; apply elem_of_singleton; reflexivity).
  rewrite <- app_assoc. reflexivity.
Qed.

End TransportSelectorMore.

(** ** The credential store, further *)
Section ConfigFileOps.
Import JS Node McpAuthConfig ConfigFiles OAuthProvider StoreSpec FilesSpec.
Context {rt : Runtime} {sdk : Sdk}.
Variable unlinkError : option Thrown.

Lemma append_inj_l (a b c : string) : a +:+ b = a +:+ c -> b = c.
Proof.
  induction a as [|x a IH]; [auto|].
  rewrite !append_cons. intros H. injection H as H. auto.
Qed.

Lemma getConfigFilePath_inj serverUrlHash f g :
  getConfigFilePath serverUrlHash f = getConfigFilePath serverUrlHash g -> f = g.
Proof.
  unfold getConfigFilePath. intros H.
  repeat (apply append_inj_l in H). exact H.
Qed.

Lemma logged_nil (w : World) : logged [] w = w.
Proof. unfold logged, setStderr. rewrite app_nil_r. destruct w; reflexivity. Qed.

(** X12. A text file reads back as it was written; and reading, when the
    directory cannot be made or the file is missing or unreadable, fails
    with the caller's message -- or "Error reading <filename>" when there
    is none or it is empty -- as a plain [Error], the cause and its code
    lost. *)
Theorem text_file_round_trip_and_read_failure :
  forall (serverUrlHash filename : string) (errorMessage : option string) (w : World),
    let path := getConfigFilePath serverUrlHash filename in
    (forall text,
        mkdirError (fs w) = None -> writeError (fs w) = None ->
        exists w',
          writeTextFile serverUrlHash filename text w = (Fulfilled tt, w') /\
          fs w' = withText path text (fs w) /\ stderr w' = stderr w /\
          readTextFile serverUrlHash filename errorMessage w' = (Fulfilled text, w')) /\
    ((mkdirError (fs w) <> None \/
      forall text, files (fs w) !! path <> Some (Content text)) ->
     exists w',
       readTextFile serverUrlHash filename errorMessage w
       = (Rejected (Error (readTextError filename errorMessage)), w') /\
       fs w' = fs w).
Proof.
  intros serverUrlHash filename errorMessage w path. split.
  - intros text Hmk Hwr.
    unfold writeTextFile, readTextFile, catch, abind, ensureConfigDir, catch, mkdir,
      writeFile, readFile.
    rewrite Hmk. simpl. rewrite Hwr, Hmk. simpl.
    eexists. split; [reflexivity|]. simpl.
    fold path. rewrite lookup_insert_eq.
    repeat split; try reflexivity. unfold withText. rewrite Hmk, Hwr. reflexivity.
  - intros Hbad.
    unfold readTextFile, catch, abind, ensureConfigDir, catch, mkdir, readFile.
    destruct (mkdirError (fs w)) as [e|] eqn:Hmk; simpl.
    + eexists. split; reflexivity.
    + fold path.
      destruct (files (fs w) !! path) as [[text|e]|] eqn:Hf; simpl.
      * destruct Hbad as [Hbad | Hbad]; [congruence | destruct (Hbad text eq_refl)].
      * eexists. split; reflexivity.
      * eexists. split; reflexivity.
Qed.

Lemma deleteConfigFile_cases serverUrlHash filename (w : World) :
  deleteConfigFile unlinkError serverUrlHash filename w =
  match files (fs w) !! getConfigFilePath serverUrlHash filename, unlinkError with
  | None, _ => (Fulfilled tt, w)
  | Some _, None =>
      (Fulfilled tt, setFs (without (getConfigFilePath serverUrlHash filename) (fs w)) w)
  | Some _, Some e =>
      (Fulfilled tt,
       logged (if bool_decide (code e <> Some "ENOENT")
               then ["Error deleting " +:+ filename +:+ ":"] else []) w)
  end.
Proof.
  unfold deleteConfigFile, catch, unlink.
  destruct (files (fs w) !! _) as [file|]; [|reflexivity].
  destruct unlinkError as [e|]; [|reflexivity].
  destruct (bool_decide (code e <> Some "ENOENT")); [reflexivity|].
  rewrite logged_nil. reflexivity.
Qed.

(** X13. [deleteConfigFile] never fails towards its caller.  A file that
    is not there is no error and leaves no trace; a file that is there is
    removed; and when the removal fails the file stays and the error is
    swallowed, with one line on stderr unless its code is ENOENT. *)
Theorem deleteConfigFile_swallows_every_error :
  forall (serverUrlHash filename : string) (w : World),
    let path := getConfigFilePath serverUrlHash filename in
    exists w',
      deleteConfigFile unlinkError serverUrlHash filename w = (Fulfilled tt, w') /\
      effects w' = effects w /\ network w' = network w /\
      (files (fs w) !! path = None -> w' = w) /\
      (forall file, files (fs w) !! path = Some file -> unlinkError = None ->
                    fs w' = without path (fs w) /\ stderr w' = stderr w) /\
      (forall file e, files (fs w) !! path = Some file -> unlinkError = Some e ->
                      fs w' = fs w /\
                      (code e = Some "ENOENT" -> stderr w' = stderr w) /\
                      (code e <> Some "ENOENT" ->
                       stderr w' = stderr w ++ ["Error deleting " +:+ filename +:+ ":"])).
Proof.
  intros serverUrlHash filename w path.
  rewrite deleteConfigFile_cases. fold path.
  destruct (files (fs w) !! path) as [file|] eqn:Hf.
  - destruct unlinkError as [e|] eqn:Hu.
    + eexists. split; [reflexivity|]. simpl.
      split; [reflexivity|]. split; [reflexivity|]. split; [discriminate|].
      split; [intros ? _ ?; discriminate|].
      intros file' e' _ He'. injection He' as <-.
      split; [reflexivity|]. split; intros Hc.
      * rewrite bool_decide_eq_false_2 by (intros Hn; destruct (Hn Hc)).
        apply app_nil_r.
      * rewrite bool_decide_eq_true_2 by exact Hc. reflexivity.
    + eexists. split; [reflexivity|]. simpl.
      split; [reflexivity|]. split; [reflexivity|]. split; [discriminate|].
      split; [intros; split; reflexivity | intros ? ? _ ?; discriminate].
  - exists w. split; [reflexivity|].
    split; [reflexivity|]. split; [reflexivity|]. split; [reflexivity|].
    split; intros; discriminate.
Qed.

(** X14. What has been deleted reads as absent: after [deleteConfigFile]
    (the removal not failing) [readJsonFile] of that file answers
    [undefined] without a warning, whatever the schema; so after
    [invalidateTokens] there are no stored tokens, and after
    [deleteLockfile] no lock. *)
Theorem deleted_file_reads_as_absent :
  forall (T : Type) (schema : JsVal -> Completion Thrown T)
         (this : NonPkceOAuthProvider) (serverUrlHash filename : string) (w : World),
    unlinkError = None ->
    mkdirError (fs w) = None ->
    (exists w',
        deleteConfigFile unlinkError serverUrlHash filename w = (Fulfilled tt, w') /\
        readJsonFile serverUrlHash filename schema w' = (Fulfilled None, w')) /\
    (exists w',
        ProviderLifecycle.invalidateTokens unlinkError this w = (Fulfilled tt, w') /\
        getTokens this w' = (Fulfilled None, w')) /\
    (exists w',
        deleteLockfile unlinkError serverUrlHash w = (Fulfilled tt, w') /\
        checkLockfile serverUrlHash w' = (Fulfilled None, w')).
Proof.
  intros T schema this serverUrlHash filename w Hu Hmk.
  assert (Hgen : forall T' (schema' : JsVal -> Completion Thrown T') h f,
             exists w',
               deleteConfigFile unlinkError h f w = (Fulfilled tt, w') /\
               readJsonFile h f schema' w' = (Fulfilled None, w')).
  { intros T' schema' h f. rewrite deleteConfigFile_cases, Hu.
    destruct (files (fs w) !! getConfigFilePath h f) as [file|] eqn:Hf.
    - eexists. split; [reflexivity|].
      rewrite readJsonFile_cases. simpl. rewrite Hmk, lookup_delete_eq. reflexivity.
    - eexists. split; [reflexivity|].
      rewrite readJsonFile_cases, Hmk, Hf. reflexivity. }
  split; [apply Hgen|]. split; [apply Hgen|].
  destruct (Hgen _ lockfileSchema serverUrlHash "lock.json") as (w' & Hdel & Hread).
  exists w'. split; [exact Hdel|].
  unfold checkLockfile, catch, abind. rewrite Hread. reflexivity.
Qed.

Lemma writeJsonFile_then_read {T} (schema : JsVal -> Completion Thrown T)
      serverUrlHash filename data (w : World) :
  mkdirError (fs w) = None ->
  writeError (fs w) = None ->
  exists w',
    writeJsonFile serverUrlHash filename data w = (Fulfilled tt, w') /\
    stderr w' = stderr w /\
    (forall json result,
        JSON_parse (JSON_stringify data) = Normal json ->
        schema json = Normal result ->
        readJsonFile serverUrlHash filename schema w' = (Fulfilled (Some result), w')) /\
    (forall (U : Type) (other : JsVal -> Completion Thrown U) (g : string),
        g <> filename ->
        (readJsonFile serverUrlHash g other w').1
        = (readJsonFile serverUrlHash g other w).1).
Proof.
  intros Hmk Hwr.
  unfold writeJsonFile, catch, abind, ensureConfigDir, catch, mkdir, writeFile.
  rewrite Hmk. simpl. rewrite Hwr, Hmk. simpl.
  eexists. split; [reflexivity|]. split; [reflexivity|]. split.
  - intros json result Hp Hs.
    rewrite readJsonFile_cases. simpl. rewrite lookup_insert_eq, Hp, Hs. reflexivity.
  - intros U other g Hg.
    rewrite !readJsonFile_cases. simpl. rewrite Hmk.
    rewrite lookup_insert_ne
      by (intros H; apply getConfigFilePath_inj in H; congruence).
    destruct (files (fs w) !! getConfigFilePath serverUrlHash g) as [[text|e]|];
      try reflexivity.
    destruct (JSON_parse text) as [json|e]; [|reflexivity].
    destruct (other json); reflexivity.
Qed.

(** X15. What [writeJsonFile] has written, [readJsonFile] reads back --
    through [JSON.stringify], [JSON.parse] and the schema -- and every other
    file of that server reads as before. *)
Theorem writeJsonFile_readJsonFile_round_trip :
  forall (T : Type) (schema : JsVal -> Completion Thrown T)
         (serverUrlHash filename : string) (data : JsVal) (w : World),
    mkdirError (fs w) = None ->
    writeError (fs w) = None ->
    exists w',
      writeJsonFile serverUrlHash filename data w = (Fulfilled tt, w') /\
      stderr w' = stderr w /\
      (forall json result,
          JSON_parse (JSON_stringify data) = Normal json ->
          schema json = Normal result ->
          readJsonFile serverUrlHash filename schema w' = (Fulfilled (Some result), w')) /\
      (forall (U : Type) (other : JsVal -> Completion Thrown U) (g : string),
          g <> filename ->
          (readJsonFile serverUrlHash g other w').1
          = (readJsonFile serverUrlHash g other w).1).
Proof. intros T schema. apply writeJsonFile_then_read. Qed.

(** X16. A lock that [createLockfile] wrote is the lock [checkLockfile]
    finds, with the process id, the port and the time of writing. *)
Theorem createLockfile_checkLockfile_round_trip :
  forall (now pid port : Z) (serverUrlHash : string) (w : World),
    mkdirError (fs w) = None ->
    writeError (fs w) = None ->
    JSON_parse (JSON_stringify (lockJson pid port now)) = Normal (lockJson pid port now) ->
    exists w',
      createLockfile now serverUrlHash pid port w = (Fulfilled tt, w') /\
      checkLockfile serverUrlHash w'
      = (Fulfilled (Some {| pid := pid; port := port; timestamp := now |}), w').
Proof.
  intros now pid port serverUrlHash w Hmk Hwr Hjson.
  destruct (writeJsonFile_then_read lockfileSchema serverUrlHash
              "lock.json" (lockJson pid port now) w Hmk Hwr)
    as (w' & Hw & _ & Hread & _).
  exists w'. split; [exact Hw|].
  unfold checkLockfile, catch, abind.
  rewrite (Hread _ _ Hjson eq_refl). reflexivity.
Qed.

End ConfigFileOps.

(** ** What computations do to the world: the laws *)
Section WorldLaws.
Import JS Node AsyncSpec.

#[global] Instance sameFiles_preorder : PreOrder sameFiles.
Proof. split; [intros w; reflexivity | intros a b c H1 H2; unfold sameFiles in *; congruence]. Qed.

#[global] Instance sameStderr_preorder : PreOrder sameStderr.
Proof. split; [intros w; reflexivity | intros a b c H1 H2; unfold sameStderr in *; congruence]. Qed.

#[global] Instance sameCallback_preorder : PreOrder sameCallback.
Proof.
  split; [intros w; split; reflexivity|].
  intros a b c [H1 H2] [H3 H4]. split; congruence.
Qed.

#[global] Instance adds_preorder P : PreOrder (adds P).
Proof.
  split.
  - intros w. exists []. rewrite app_nil_r. auto.
  - intros a b c (m1 & H1 & F1) (m2 & H2 & F2). exists (m1 ++ m2).
    rewrite H2, H1, app_assoc. split; [reflexivity | apply Forall_app; auto].
Qed.

#[global] Instance sameFiles_stderr : IgnoresStderr sameFiles.
Proof. intros l w. reflexivity. Qed.
#[global] Instance sameFiles_network : IgnoresNetwork sameFiles.
Proof. intros n w. reflexivity. Qed.
#[global] Instance sameFiles_callbackServer : IgnoresCallbackServer sameFiles.
Proof. intros b w. reflexivity. Qed.

#[global] Instance sameStderr_fs : IgnoresFs sameStderr.
Proof. intros f w. reflexivity. Qed.
#[global] Instance sameStderr_network : IgnoresNetwork sameStderr.
Proof. intros n w. reflexivity. Qed.
#[global] Instance sameStderr_callbackServer : IgnoresCallbackServer sameStderr.
Proof. intros b w. reflexivity. Qed.

#[global] Instance sameCallback_stderr : IgnoresStderr sameCallback.
Proof. intros l w. split; reflexivity. Qed.
#[global] Instance sameCallback_fs : IgnoresFs sameCallback.
Proof. intros f w. split; reflexivity. Qed.
#[global] Instance sameCallback_network : IgnoresNetwork sameCallback.
Proof. intros n w. split; reflexivity. Qed.

#[global] Instance adds_stderr P : IgnoresStderr (adds P).
Proof. intros l w. exists []. simpl. rewrite app_nil_r. auto. Qed.
#[global] Instance adds_fs P : IgnoresFs (adds P).
Proof. intros f w. exists []. simpl. rewrite app_nil_r. auto. Qed.
#[global] Instance adds_network P : IgnoresNetwork (adds P).
Proof. intros n w. exists []. simpl. rewrite app_nil_r. auto. Qed.
#[global] Instance adds_callbackServer P : IgnoresCallbackServer (adds P).
Proof. intros b w. exists []. simpl. rewrite app_nil_r. auto. Qed.

Lemma sameFiles_admits e : admits sameFiles e.
Proof. intros w. reflexivity. Qed.

Lemma sameStderr_admits e : admits sameStderr e.
Proof. intros w. reflexivity. Qed.

Lemma sameCallback_admits e : admits sameCallback e.
Proof. intros w. split; reflexivity. Qed.

Lemma adds_admits (P : Effect -> Prop) e : P e -> admits (adds P) e.
Proof. intros He w. exists [e]. simpl. auto. Qed.

Section Steady.
Context (R : relation World) `{!PreOrder R}.

Lemma steady_ret {A} (a : A) : steady R (ret a).
Proof. intros w. reflexivity. Qed.

Lemma steady_throw {A} e : steady R (@throw A e).
Proof. intros w. reflexivity. Qed.

Lemma steady_lift {A} (c : Completion Thrown A) : steady R (lift c).
Proof. destruct c; [apply steady_ret | apply steady_throw]. Qed.

Lemma steady_abind {A B} (m : Async A) (k : A -> Async B) :
  steady R m -> (forall a, steady R (k a)) -> steady R (abind m k).
Proof.
  intros Hm Hk w. unfold abind. specialize (Hm w).
  destruct (m w) as [[a|e|] w']; simpl in *; try exact Hm.
  etransitivity; [exact Hm | apply Hk].
Qed.

Lemma steady_abind_lift {A B} (c : Completion Thrown A) (k : A -> Async B) :
  (forall a, c = Normal a -> steady R (k a)) -> steady R (abind (lift c) k).
Proof.
  intros Hk. destruct c as [a|e].
  - intros w. apply (Hk a eq_refl).
  - intros w. reflexivity.
Qed.

Lemma steady_catch {A} (m : Async A) (h : Thrown -> Async A) :
  steady R m -> (forall e, steady R (h e)) -> steady R (catch m h).
Proof.
  intros Hm Hh w. unfold catch. specialize (Hm w).
  destruct (m w) as [[a|e|] w']; simpl in *; try exact Hm.
  etransitivity; [exact Hm | apply Hh].
Qed.

Lemma steady_finally {A} (m : Async A) (f : World -> World) :
  steady R m -> (forall w, R w (f w)) -> steady R (finally m f).
Proof.
  intros Hm Hf w. unfold finally. specialize (Hm w).
  destruct (m w) as [[a|e|] w']; simpl in *; try exact Hm;
    (etransitivity; [exact Hm | apply Hf]).
Qed.

Lemma steady_mkdir : steady R mkdir.
Proof. intros w. unfold mkdir. destruct (mkdirError (fs w)); reflexivity. Qed.

Lemma steady_readFile path : steady R (readFile path).
Proof.
  intros w. unfold readFile. destruct (files (fs w) !! path) as [[text|e]|]; reflexivity.
Qed.

Lemma steady_log `{!IgnoresStderr R} line : steady R (log line).
Proof. intros w. apply ignores_stderr. Qed.

Lemma steady_writeFile `{!IgnoresFs R} path text : steady R (writeFile path text).
Proof.
  intros w. unfold writeFile.
  destruct (writeError (fs w)) as [[e|e remains]|]; [reflexivity| |]; apply ignores_fs.
Qed.

Lemma steady_fetch `{!IgnoresNetwork R} url method requestHeaders requestBody :
  admits R (Fetched url method requestHeaders requestBody) ->
  steady R (fetch url method requestHeaders requestBody).
Proof.
  intros He w. unfold fetch. cbv zeta.
  set (w1 := effect _ w). assert (H1 : R w w1) by apply He.
  destruct (network w1) as [|[r|e] rest]; simpl; [exact H1| |];
    (etransitivity; [exact H1 | apply ignores_network]).
Qed.

End Steady.

(** The provider's own primitives. *)
Section SteadyProvider.
Import OAuthProvider.
Context (R : relation World) `{!PreOrder R}.

Lemma steady_listen `{!IgnoresCallbackServer R} port :
  admits R (Listening port) -> steady R (listen port).
Proof.
  intros He w. unfold listen. simpl.
  etransitivity; [apply He | apply ignores_callbackServer].
Qed.

Lemma steady_waitForAuthCode : steady R waitForAuthCode.
Proof. intros w. unfold waitForAuthCode. destruct (callback w); reflexivity. Qed.

Lemma steady_open url : admits R (BrowserOpened url) -> steady R (open url).
Proof.
  intros He w. unfold open. destruct (browser w); [apply He | reflexivity].
Qed.

Lemma steady_closeCallbackServer `{!IgnoresCallbackServer R} :
  admits R CallbackServerClosed -> forall w, R w (closeCallbackServer w).
Proof.
  intros He w. unfold closeCallbackServer. destruct (callbackServer w); [|reflexivity].
  etransitivity; [apply He | apply ignores_callbackServer].
Qed.

End SteadyProvider.

(** One step down the structure of a computation. *)
Ltac steady_step :=
  lazymatch goal with
  | |- steady _ (abind (lift _) _) => apply steady_abind_lift; [typeclasses eauto|]; intros ? ?
  | |- steady _ (abind _ _) => apply steady_abind; [typeclasses eauto| |intros ?]
  | |- steady _ (catch _ _) => apply steady_catch; [typeclasses eauto| |intros ?]
  | |- steady _ (ret _) => apply steady_ret; typeclasses eauto
  | |- steady _ (throw _) => apply steady_throw; typeclasses eauto
  | |- steady _ (lift _) => apply steady_lift; typeclasses eauto
  | |- steady _ (log _) => apply steady_log; typeclasses eauto
  | |- steady _ mkdir => apply steady_mkdir; typeclasses eauto
  | |- steady _ (readFile _) => apply steady_readFile; typeclasses eauto
  | |- steady _ (writeFile _ _) => apply steady_writeFile; typeclasses eauto
  | |- steady _ (fetch _ _ _ _) => apply steady_fetch; [typeclasses eauto..|]
  | |- steady _ (OAuthProvider.listen _) => apply steady_listen; [typeclasses eauto..|]
  | |- steady _ OAuthProvider.waitForAuthCode => apply steady_waitForAuthCode; typeclasses eauto
  | |- steady _ (OAuthProvider.open _) => apply steady_open; [typeclasses eauto|]
  | |- steady _ (finally _ OAuthProvider.closeCallbackServer) =>
      apply steady_finally; [typeclasses eauto| |apply steady_closeCallbackServer; [typeclasses eauto..|]]
  | |- steady _ (if ?b then _ else _) => destruct b eqn:?
  | |- steady _ (match ?x with _ => _ end) => destruct x eqn:?
  end.

(** A computation that always settles is patient. *)
Lemma patient_settled {A} (m : Async A) :
  (forall w, (m w).1 <> Unsettled) -> patient m.
Proof. intros H w Hu. destruct (H w Hu). Qed.

Lemma patient_abind {A B} (m : Async A) (k : A -> Async B) :
  steady sameCallback m -> patient m -> (forall a, patient (k a)) -> patient (abind m k).
Proof.
  intros Hs Hm Hk w. unfold abind. specialize (Hs w). specialize (Hm w).
  destruct (m w) as [[a|e|] w']; simpl in *; try discriminate; auto.
  intros Hu. destruct Hs as [_ <-]. apply (Hk a w' Hu).
Qed.

Lemma patient_catch {A} (m : Async A) (h : Thrown -> Async A) :
  steady sameCallback m -> patient m -> (forall e, patient (h e)) -> patient (catch m h).
Proof.
  intros Hs Hm Hh w. unfold catch. specialize (Hs w). specialize (Hm w).
  destruct (m w) as [[a|e|] w']; simpl in *; try discriminate; auto.
  intros Hu. destruct Hs as [_ <-]. apply (Hh e w' Hu).
Qed.

Lemma patient_ret {A} (a : A) : patient (ret a).
Proof. apply patient_settled. discriminate. Qed.

Lemma patient_throw {A} e : patient (@throw A e).
Proof. apply patient_settled. discriminate. Qed.

Lemma patient_lift {A} (c : Completion Thrown A) : patient (lift c).
Proof. destruct c; [apply patient_ret | apply patient_throw]. Qed.

Lemma patient_log line : patient (log line).
Proof. apply patient_settled. discriminate. Qed.

Lemma patient_mkdir : patient mkdir.
Proof.
  apply patient_settled. intros w. unfold mkdir.
  destruct (mkdirError (fs w)); discriminate.
Qed.

Lemma patient_readFile path : patient (readFile path).
Proof.
  apply patient_settled. intros w. unfold readFile.
  destruct (files (fs w) !! path) as [[text|e]|]; discriminate.
Qed.

Lemma patient_writeFile path text : patient (writeFile path text).
Proof.
  apply patient_settled. intros w. unfold writeFile.
  destruct (writeError (fs w)) as [[e|e remains]|]; discriminate.
Qed.

Lemma patient_fetch url method requestHeaders requestBody :
  patient (fetch url method requestHeaders requestBody).
Proof.
  apply patient_settled. intros w. unfold fetch. cbv zeta.
  destruct (network _) as [|[r|e] rest]; discriminate.
Qed.

Lemma patient_open url : patient (OAuthProvider.open url).
Proof.
  apply patient_settled. intros w. unfold OAuthProvider.open.
  destruct (browser w); discriminate.
Qed.

Lemma patient_waitForAuthCode : patient OAuthProvider.waitForAuthCode.
Proof.
  intros w. unfold OAuthProvider.waitForAuthCode.
  destruct (callback w); [discriminate | reflexivity].
Qed.

Ltac steady_sameCallback :=
  repeat steady_step; try apply sameCallback_admits.

Ltac patient_step :=
  lazymatch goal with
  | |- patient (abind _ _) => apply patient_abind; [steady_sameCallback| |intros ?]
  | |- patient (catch _ _) => apply patient_catch; [steady_sameCallback| |intros ?]
  | |- patient (ret _) => apply patient_ret
  | |- patient (throw _) => apply patient_throw
  | |- patient (lift _) => apply patient_lift
  | |- patient (log _) => apply patient_log
  | |- patient mkdir => apply patient_mkdir
  | |- patient (readFile _) => apply patient_readFile
  | |- patient (writeFile _ _) => apply patient_writeFile
  | |- patient (fetch _ _ _ _) => apply patient_fetch
  | |- patient (OAuthProvider.open _) => apply patient_open
  | |- patient OAuthProvider.waitForAuthCode => apply patient_waitForAuthCode
  | |- patient (if ?b then _ else _) => destruct b eqn:?
  | |- patient (match ?x with _ => _ end) => destruct x eqn:?
  end.

Lemma alike_refl_stderr l w : alike (setStderr l w) w.
Proof. repeat split. Qed.

Lemma agrees_ret {A} (a : A) : agrees (ret a).
Proof. intros w1 w2 H. auto. Qed.

Lemma agrees_throw {A} e : agrees (@throw A e).
Proof. intros w1 w2 H. auto. Qed.

Lemma agrees_lift {A} (c : Completion Thrown A) : agrees (lift c).
Proof. destruct c; [apply agrees_ret | apply agrees_throw]. Qed.

Lemma agrees_abind {A B} (m : Async A) (k : A -> Async B) :
  agrees m -> (forall a, agrees (k a)) -> agrees (abind m k).
Proof.
  intros Hm Hk w1 w2 H. unfold abind. destruct (Hm w1 w2 H) as [Hr Hw].
  destruct (m w1) as [r1 w1'], (m w2) as [r2 w2']. simpl in *. subst r2.
  destruct r1 as [a|e|]; auto. apply Hk. exact Hw.
Qed.

Lemma agrees_catch {A} (m : Async A) (h : Thrown -> Async A) :
  agrees m -> (forall e, agrees (h e)) -> agrees (catch m h).
Proof.
  intros Hm Hh w1 w2 H. unfold catch. destruct (Hm w1 w2 H) as [Hr Hw].
  destruct (m w1) as [r1 w1'], (m w2) as [r2 w2']. simpl in *. subst r2.
  destruct r1 as [a|e|]; auto. apply Hh. exact Hw.
Qed.

Lemma agrees_finally {A} (m : Async A) :
  agrees m -> agrees (finally m OAuthProvider.closeCallbackServer).
Proof.
  intros Hm w1 w2 H. unfold finally. destruct (Hm w1 w2 H) as [Hr Hw].
  destruct (m w1) as [r1 w1'], (m w2) as [r2 w2']. simpl in *. subst r2.
  assert (Hc : alike (OAuthProvider.closeCallbackServer w1')
                     (OAuthProvider.closeCallbackServer w2')).
  { destruct Hw as (H1 & H2 & H3 & H4). unfold OAuthProvider.closeCallbackServer.
    rewrite H4. destruct (callbackServer w2') eqn:Hc2;
      repeat split; simpl; try assumption; try reflexivity; congruence. }
  destruct r1 as [a|e|]; auto.
Qed.

Lemma agrees_log line : agrees (log line).
Proof. intros w1 w2 (H1 & H2 & H3 & H4). repeat split; simpl; try assumption; try reflexivity; try congruence. Qed.

Lemma agrees_mkdir : agrees mkdir.
Proof.
  intros w1 w2 H. unfold mkdir. destruct H as (H1 & H2 & H3 & H4). rewrite H1.
  destruct (mkdirError (fs w2)) eqn:?; repeat split; simpl; try assumption; try reflexivity; try congruence.
Qed.

Lemma agrees_readFile path : agrees (readFile path).
Proof.
  intros w1 w2 H. unfold readFile. destruct H as (H1 & H2 & H3 & H4). rewrite H1.
  destruct (files (fs w2) !! path) as [[text|e]|] eqn:?; repeat split; simpl; try assumption; try reflexivity; try congruence.
Qed.

Lemma agrees_writeFile path text : agrees (writeFile path text).
Proof.
  intros w1 w2 H. unfold writeFile. destruct H as (H1 & H2 & H3 & H4). rewrite H1.
  destruct (writeError (fs w2)) as [[e|e remains]|] eqn:?;
    repeat split; simpl; try assumption; try reflexivity; try congruence.
Qed.

Lemma agrees_fetch url method requestHeaders requestBody :
  agrees (fetch url method requestHeaders requestBody).
Proof.
  intros w1 w2 H. unfold fetch. cbv zeta. destruct H as (H1 & H2 & H3 & H4).
  simpl. rewrite H2.
  destruct (network w2) as [|[r|e] rest] eqn:?; repeat split; simpl; try assumption; try reflexivity; try congruence.
Qed.

Lemma agrees_listen port : agrees (OAuthProvider.listen port).
Proof. intros w1 w2 (H1 & H2 & H3 & H4). repeat split; simpl; try assumption; try reflexivity; try congruence. Qed.

Lemma agrees_waitForAuthCode : agrees OAuthProvider.waitForAuthCode.
Proof.
  intros w1 w2 H. unfold OAuthProvider.waitForAuthCode. destruct H as (H1 & H2 & H3 & H4).
  rewrite H3. destruct (callback w2) eqn:?; repeat split; simpl; try assumption; try reflexivity; try congruence.
Qed.

(** Opening the browser, inside its own [try]: whether it opens or not,
    the flow goes on, and the same way. *)
Lemma agrees_browser {A} (c : Completion Thrown A) (url : A -> string) line1 line2 :
  agrees (catch (abind (lift c) (fun a => abind (OAuthProvider.open (url a))
                                                (fun _ => log line1)))
                (fun _ => log line2)).
Proof.
  intros w1 w2 (H1 & H2 & H3 & H4). unfold catch, abind, OAuthProvider.open.
  destruct c as [a|e]; simpl.
  - destruct (browser w1), (browser w2); simpl; repeat split; simpl; try assumption; try reflexivity; try congruence.
  - repeat split; simpl; try assumption; try reflexivity; try congruence.
Qed.

Ltac agrees_step :=
  lazymatch goal with
  | |- agrees (catch (abind (lift _) (fun _ => abind (OAuthProvider.open _) _)) _) =>
      apply (agrees_browser _ (fun a => _))
  | |- agrees (abind _ _) => apply agrees_abind; [|intros ?]
  | |- agrees (catch _ _) => apply agrees_catch; [|intros ?]
  | |- agrees (finally _ OAuthProvider.closeCallbackServer) => apply agrees_finally
  | |- agrees (ret _) => apply agrees_ret
  | |- agrees (throw _) => apply agrees_throw
  | |- agrees (lift _) => apply agrees_lift
  | |- agrees (log _) => apply agrees_log
  | |- agrees mkdir => apply agrees_mkdir
  | |- agrees (readFile _) => apply agrees_readFile
  | |- agrees (writeFile _ _) => apply agrees_writeFile
  | |- agrees (fetch _ _ _ _) => apply agrees_fetch
  | |- agrees (OAuthProvider.listen _) => apply agrees_listen
  | |- agrees OAuthProvider.waitForAuthCode => apply agrees_waitForAuthCode
  | |- agrees (if ?b then _ else _) => destruct b eqn:?
  | |- agrees (match ?x with _ => _ end) => destruct x eqn:?
  end.

(** ** The classical OAuth client, further *)
Section OAuthClientMore.
Import McpAuthConfig ConfigFiles OAuthProvider StoreSpec ClientSpec TrafficSpec.
Context {rt : Runtime} {sdk : Sdk}.
Variable this : NonPkceOAuthProvider.
Variable unlinkError : option Thrown.

Ltac unfold_client :=
  unfold getValidAccessToken, accessTokenOrFail, startAuthorization,
    interactiveAuthorization, refreshToken, exchangeCodeForToken, saveTokens, getTokens,
    writeJsonFile, readJsonFile, ensureConfigDir.

Lemma getValidAccessToken_adds ep tp port res :
  steady (adds (tokenTraffic this ep tp port res)) (getValidAccessToken this ep tp port res).
Proof.
  unfold_client. repeat steady_step;
    apply adds_admits; simpl; repeat split; try reflexivity; try discriminate; eauto.
Qed.

(** X17. Obtaining an access token talks to nobody but the token
    endpoint, and to it only by POST of a form; it opens the browser only
    at the authorization URL, after [sanitizeUrl]; and it listens only on
    the callback port. *)
Theorem getValidAccessToken_talks_to_the_token_endpoint_only :
  forall (authorizationEndpoint tokenEndpoint : string) (callbackPort : Z)
         (authorizeResource : option string) (w : World),
    exists more,
      effects (getValidAccessToken this authorizationEndpoint tokenEndpoint
                                   callbackPort authorizeResource w).2
      = effects w ++ more /\
      Forall (tokenTraffic this authorizationEndpoint tokenEndpoint callbackPort
                           authorizeResource) more.
Proof. intros ep tp port res w. apply getValidAccessToken_adds. Qed.


Lemma getValidAccessToken_agrees ep tp port res :
  agrees (getValidAccessToken this ep tp port res).
Proof. unfold_client. repeat agrees_step. Qed.

(** X18. Whether the browser can be opened makes no difference to the
    outcome: with any other browser, [getValidAccessToken] settles the
    same way, with the same value or error, and leaves the same files. *)
Theorem browser_failure_does_not_change_the_outcome :
  forall (authorizationEndpoint tokenEndpoint : string) (callbackPort : Z)
         (authorizeResource : option string) (b : Completion Thrown unit) (w : World),
    let call := getValidAccessToken this authorizationEndpoint tokenEndpoint
                                    callbackPort authorizeResource in
    (call (setBrowser b w)).1 = (call w).1 /\
    fs (call (setBrowser b w)).2 = fs (call w).2.
Proof.
  intros ep tp port res b w call.
  destruct (getValidAccessToken_agrees ep tp port res (setBrowser b w) w) as [H1 H2].
  { repeat split. }
  split; [exact H1 | apply H2].
Qed.

Lemma interactiveAuthorization_closes ep tp port res (w : World) :
  match interactiveAuthorization this ep tp port res w with
  | (Unsettled, w') =>
      callback w = None /\ callbackServer w' = true /\
      exists more, effects w' = effects w ++ Listening port :: more /\
                   Forall notServer more
  | (_, w') =>
      callbackServer w' = false /\
      exists more, effects w' = effects w ++ Listening port :: more ++ [CallbackServerClosed] /\
                   Forall notServer more
  end.
Proof.
  unfold interactiveAuthorization.
  match goal with |- context [finally ?m closeCallbackServer] => set (body := m) end.
  assert (Hcb : steady sameCallback body)
    by (subst body; unfold exchangeCodeForToken, saveTokens, writeJsonFile, ensureConfigDir;
        steady_sameCallback).
  assert (Hp : patient body)
    by (subst body; unfold exchangeCodeForToken, saveTokens, writeJsonFile, ensureConfigDir;
        repeat patient_step).
  assert (Hadd : steady (adds notServer) body)
    by (subst body; unfold exchangeCodeForToken, saveTokens, writeJsonFile, ensureConfigDir;
        repeat steady_step; apply adds_admits; exact I).
  unfold abind at 1, listen, finally. cbv beta iota.
  set (w0 := setCallbackServer true (effect (Listening port) w)).
  specialize (Hcb w0). specialize (Hp w0). specialize (Hadd w0).
  destruct (body w0) as [r w1]. simpl in Hcb, Hp, Hadd.
  destruct Hcb as [Hserver Hcallback]. destruct Hadd as (more & Hmore & Hall).
  assert (Hclosed : callbackServer (closeCallbackServer w1) = false /\
                    effects (closeCallbackServer w1)
                    = effects w ++ Listening port :: more ++ [CallbackServerClosed]).
  { unfold closeCallbackServer. rewrite Hserver. simpl. rewrite Hmore. simpl.
    rewrite <- !app_assoc. auto. }
  destruct r as [tokens|e|].
  - split; [apply Hclosed|]. exists more. split; [apply Hclosed | exact Hall].
  - split; [apply Hclosed|]. exists more. split; [apply Hclosed | exact Hall].
  - split; [apply Hp; reflexivity|]. split; [exact Hserver|].
    exists more. split; [|exact Hall]. rewrite Hmore. simpl.
    rewrite <- app_assoc. reflexivity.
Qed.

(** X19. [startAuthorization] leaves no callback server behind: when it
    settles, with tokens or with an error, either it reused the stored
    tokens and never started one, or the server it started has been
    closed, as the last thing done.  It can wait for ever only for the
    user, with the server listening. *)
Theorem startAuthorization_closes_the_callback_server :
  forall (authorizationEndpoint tokenEndpoint : string) (callbackPort : Z)
         (authorizeResource : option string) (w : World),
    callbackServer w = false ->
    match startAuthorization this authorizationEndpoint tokenEndpoint
                             callbackPort authorizeResource w with
    | (Unsettled, w') => callback w = None /\ callbackServer w' = true
    | (_, w') =>
        callbackServer w' = false /\
        (effects w' = effects w \/
         exists more,
           effects w' = effects w ++ Listening callbackPort :: more ++ [CallbackServerClosed] /\
           Forall notServer more)
    end.
Proof.
  intros ep tp port res w Hserver.
  destruct (getTokens_logged this w) as (r & lines & Hr).
  assert (Hgo : match interactiveAuthorization this ep tp port res (logged lines w) with
                | (Unsettled, w') => callback w = None /\ callbackServer w' = true
                | (_, w') =>
                    callbackServer w' = false /\
                    (effects w' = effects w \/
                     exists more,
                       effects w' = effects w ++ Listening port :: more ++ [CallbackServerClosed] /\
                       Forall notServer more)
                end).
  { pose proof (interactiveAuthorization_closes ep tp port res (logged lines w)) as H.
    destruct (interactiveAuthorization this ep tp port res (logged lines w))
      as [[tokens|e|] w']; simpl in H.
    - destruct H as [H1 H2]. split; [exact H1 | right; exact H2].
    - destruct H as [H1 H2]. split; [exact H1 | right; exact H2].
    - destruct H as (H1 & H2 & _). auto. }
  unfold startAuthorization, abind. rewrite Hr.
  destruct r as [t|]; [|exact Hgo].
  destruct (_ && _); [|exact Hgo].
  simpl. auto.
Qed.

Lemma allOrNothing_abind {A B} (Q : B -> World -> Prop) (m : Async A)
      (k : A -> Async B) :
  steady sameFiles m -> (forall a, allOrNothing Q (k a)) -> allOrNothing Q (abind m k).
Proof.
  intros Hm Hk w. unfold abind. specialize (Hm w).
  destruct (m w) as [[a|e|] w1]; simpl in Hm; try (intros _; exact Hm).
  specialize (Hk a w1). unfold sameFiles in Hm.
  destruct (k a w1) as [[b|e|] w2]; [exact Hk | |];
    intros Hwhole; rewrite <- Hm; apply Hk; unfold noTornWrite; rewrite Hm; exact Hwhole.
Qed.

Lemma allOrNothing_finally {A} (Q : A -> World -> Prop) (m : Async A) :
  (forall a w, Q a w -> Q a (closeCallbackServer w)) ->
  allOrNothing Q m -> allOrNothing Q (finally m closeCallbackServer).
Proof.
  intros HQ Hm w. unfold finally. specialize (Hm w).
  assert (Hfs : forall w0, fs (closeCallbackServer w0) = fs w0)
    by (intros w0; unfold closeCallbackServer; destruct (callbackServer w0); reflexivity).
  destruct (m w) as [[a|e|] w1];
    [apply HQ; exact Hm | intros Hwhole; rewrite Hfs; exact (Hm Hwhole) | exact Hm].
Qed.

Lemma allOrNothing_save tokens line :
  allOrNothing (persisted this)
    (abind (saveTokens this tokens) (fun _ => abind (log line) (fun _ => ret tokens))).
Proof.
  intros w. unfold abind. pose proof (saveTokens_settles this tokens w) as H.
  destruct (saveTokens this tokens w) as [[[]|e|] w1]; simpl;
    [apply H | exact (proj1 H) | destruct H].
Qed.

Lemma interactiveAuthorization_allOrNothing ep tp port res :
  allOrNothing (persisted this) (interactiveAuthorization this ep tp port res).
Proof.
  unfold interactiveAuthorization.
  apply allOrNothing_abind; [repeat steady_step; apply sameFiles_admits | intros _].
  apply allOrNothing_finally.
  { intros tokens w. unfold persisted, closeCallbackServer.
    destruct (callbackServer w); auto. }
  repeat first
    [ apply allOrNothing_save
    | apply allOrNothing_abind;
      [unfold exchangeCodeForToken; repeat steady_step; apply sameFiles_admits | intros ?] ].
Qed.

(** X20. [startAuthorization] changes the tokens file only by storing
    the tokens it hands back: if it fulfils, either it handed back the
    stored tokens, with the tokens file and the outside untouched, or the
    tokens file now holds the bundle it hands back; if it fails or never
    settles, the tokens file is as it was -- unless the write of the file
    itself failed half-way. *)
Theorem startAuthorization_stores_all_or_nothing :
  forall (authorizationEndpoint tokenEndpoint : string) (callbackPort : Z)
         (authorizeResource : option string) (w : World),
    let tokensFile := getConfigFilePath (serverUrlHash this) "tokens.json" in
    match startAuthorization this authorizationEndpoint tokenEndpoint
                             callbackPort authorizeResource w with
    | (Fulfilled tokens, w') =>
        (files (fs w') !! tokensFile = files (fs w) !! tokensFile /\
         effects w' = effects w) \/
        files (fs w') !! tokensFile
        = Some (Content (JSON_stringify
                           (VObj [("access_token", access_token tokens);
                                  ("token_type", token_type tokens);
                                  ("expires_in", expires_in tokens);
                                  ("refresh_token", refresh_token tokens);
                                  ("scope", scope tokens)])))
    | (_, w') =>
        noTornWrite w -> files (fs w') !! tokensFile = files (fs w) !! tokensFile
    end.
Proof.
  intros ep tp port res w tokensFile.
  destruct (getTokens_logged this w) as (r & lines & Hr).
  pose proof (interactiveAuthorization_allOrNothing ep tp port res (logged lines w)) as Hgo.
  unfold startAuthorization, abind. rewrite Hr.
  assert (Hreuse : forall t, r = Some t ->
            negb (String.eqb (stored_access_token t) EmptyString) && stillValid t = true ->
            files (fs (logged lines w)) !! tokensFile = files (fs w) !! tokensFile /\
            effects (logged lines w) = effects w) by (intros; split; reflexivity).
  destruct (interactiveAuthorization this ep tp port res (logged lines w))
    as [[tokens|e|] w'] eqn:Hrun.
  - destruct r as [t|]; [|rewrite Hrun; right; exact Hgo].
    destruct (_ && _) eqn:Hvalid; [left; eauto | rewrite Hrun; right; exact Hgo].
  - destruct r as [t|]; [|rewrite Hrun; intros Hwhole; rewrite (Hgo Hwhole); reflexivity].
    destruct (_ && _) eqn:Hvalid; [left; eauto|].
    rewrite Hrun. intros Hwhole. rewrite (Hgo Hwhole). reflexivity.
  - destruct r as [t|]; [|rewrite Hrun; intros Hwhole; rewrite (Hgo Hwhole); reflexivity].
    destruct (_ && _) eqn:Hvalid; [left; eauto|].
    rewrite Hrun. intros Hwhole. rewrite (Hgo Hwhole). reflexivity.
Qed.

(** X21. [startAuthorization] reuses stored tokens only when they have an
    access token and an [expires_in] above zero; everything else starts the
    interactive flow -- a bundle without [expires_in] too, which
    [getValidAccessToken] itself takes for valid and returns. *)
Theorem startAuthorization_reuses_only_tokens_with_time_left :
  forall (authorizationEndpoint tokenEndpoint : string) (callbackPort : Z)
         (authorizeResource : option string) (w w1 : World) (r : option StoredTokens),
    getTokens this w = (Fulfilled r, w1) ->
    let start := startAuthorization this authorizationEndpoint tokenEndpoint
                                    callbackPort authorizeResource in
    let interactive := interactiveAuthorization this authorizationEndpoint tokenEndpoint
                                                callbackPort authorizeResource in
    (forall t n, r = Some t -> stored_access_token t <> EmptyString ->
                 stored_expires_in t = Some n -> 0 < n ->
                 start w = (Fulfilled (ofStored t), w1)) /\
    ((r = None \/
      exists t, r = Some t /\
                (stored_access_token t = EmptyString \/ stored_expires_in t = None \/
                 exists n, stored_expires_in t = Some n /\ n <= 0)) ->
     start w = interactive w1) /\
    (forall t, r = Some t -> stored_access_token t <> EmptyString ->
               stored_expires_in t = None ->
               start w = interactive w1 /\
               getValidAccessToken this authorizationEndpoint tokenEndpoint
                                   callbackPort authorizeResource w
               = (Fulfilled (VStr (stored_access_token t)), w1)).
Proof.
  intros ep tp port res w w1 r Hr start interactive.
  assert (Hrest : (r = None \/
                   exists t, r = Some t /\
                     (stored_access_token t = EmptyString \/ stored_expires_in t = None \/
                      exists n, stored_expires_in t = Some n /\ n <= 0)) ->
                  start w = interactive w1).
  { intros Hcase. unfold start, startAuthorization, abind. rewrite Hr.
    destruct Hcase as [-> | (t & -> & Hcase)]; [reflexivity|].
    unfold stillValid.
    destruct Hcase as [-> | [-> | (n & -> & Hn)]].
    - reflexivity.
    - rewrite andb_false_r. reflexivity.
    - replace (0 <? n) with false by (symmetry; apply Z.ltb_ge; exact Hn).
      rewrite !andb_false_r. reflexivity. }
  split; [|split; [exact Hrest|]].
  - intros t n -> Ha Hn Hpos. unfold start, startAuthorization, abind. rewrite Hr.
    unfold stillValid. rewrite Hn.
    apply String.eqb_neq in Ha. rewrite Ha.
    replace (n =? 0) with false by (symmetry; apply Z.eqb_neq; lia).
    replace (0 <? n) with true by (symmetry; apply Z.ltb_lt; exact Hpos).
    reflexivity.
  - intros t -> Ha Hn. split; [apply Hrest; right; eauto|].
    unfold getValidAccessToken, abind. rewrite Hr. simpl. rewrite Hn.
    apply String.eqb_neq in Ha. rewrite Ha. simpl.
    unfold accessTokenOrFail. simpl. rewrite Ha. reflexivity.
Qed.

(** X22. After [invalidateTokens] the next [getValidAccessToken] neither
    returns a stored token nor refreshes: it is the full interactive
    authorization. *)
Theorem invalidateTokens_forces_a_new_authorization :
  forall (authorizationEndpoint tokenEndpoint : string) (callbackPort : Z)
         (authorizeResource : option string) (w : World),
    unlinkError = None ->
    mkdirError (fs w) = None ->
    exists w1,
      ProviderLifecycle.invalidateTokens unlinkError this w = (Fulfilled tt, w1) /\
      getTokens this w1 = (Fulfilled None, w1) /\
      getValidAccessToken this authorizationEndpoint tokenEndpoint
                          callbackPort authorizeResource w1
      = fullAuthorization this authorizationEndpoint tokenEndpoint
                          callbackPort authorizeResource w1.
Proof.
  intros ep tp port res w Hu Hmk.
  assert (Hdel : exists w1,
             ProviderLifecycle.invalidateTokens unlinkError this w = (Fulfilled tt, w1) /\
             getTokens this w1 = (Fulfilled None, w1)).
  { unfold ProviderLifecycle.invalidateTokens, getTokens.
    rewrite deleteConfigFile_cases, Hu.
    destruct (files (fs w) !! _) as [file|] eqn:Hf.
    - eexists. split; [reflexivity|].
      rewrite readJsonFile_cases. simpl. rewrite Hmk, lookup_delete_eq. reflexivity.
    - eexists. split; [reflexivity|].
      rewrite readJsonFile_cases, Hmk, Hf. reflexivity. }
  destruct Hdel as (w1 & Hdel & Hget). exists w1.
  split; [exact Hdel|]. split; [exact Hget|].
  unfold getValidAccessToken, abind at 1. rewrite Hget. simpl.
  unfold abind at 1, startAuthorization, abind at 1. rewrite Hget. reflexivity.
Qed.

End OAuthClientMore.

(** ** Connecting with OAuth *)
Section ConnectFlow.
Import McpAuthConfig ConfigFiles OAuthProvider OAuthConnect ProviderLifecycle NonPkceConnect
       ConnectFlowSpec ClientSpec StoreSpec.
Context {rt : Runtime} {sdk : Sdk}.

Lemma dropPrefix_Some p s r : dropPrefix p s = Some r <-> s = p +:+ r.
Proof.
  revert s. induction p as [|a p IH]; intros s; simpl.
  - split; [intros H; injection H as ->; reflexivity | intros ->; reflexivity].
  - destruct s as [|b s]; [split; discriminate|].
    destruct (Ascii.eqb_spec a b) as [->|Hne].
    + rewrite IH. split; [intros ->; reflexivity | intros H; injection H; auto].
    + split; [discriminate | intros H; injection H; congruence].
Qed.

Lemma spanNonQuote_spec s :
  let (run, tail) := spanNonQuote s in
  s = run +:+ tail /\ quoteFree run = true /\
  (tail = EmptyString \/ exists t, tail = String dquote t).
Proof.
  induction s as [|c rest IH]; simpl; [auto|].
  destruct (Ascii.eqb_spec c dquote) as [->|Hne].
  - simpl. eauto.
  - destruct (spanNonQuote rest) as [run tail]. destruct IH as (-> & Hq & Ht).
    simpl. apply Ascii.eqb_neq in Hne. rewrite Hne, Hq. auto.
Qed.

Lemma spanNonQuote_app a b :
  quoteFree a = true -> spanNonQuote (a +:+ String dquote b) = (a, String dquote b).
Proof.
  induction a as [|c a IH]; simpl.
  - intros _. reflexivity.
  - intros H. apply andb_true_iff in H as [Hc Ha]. apply negb_true_iff in Hc.
    rewrite Hc, (IH Ha). reflexivity.
Qed.

Lemma parseWWWAuthenticate_unfold h :
  parseWWWAuthenticate h =
  match match dropPrefix ("resource_metadata=" +:+ String dquote EmptyString) h with
        | Some rest =>
            match spanNonQuote rest with
            | (String c run, String _ _) => Some (String c run)
            | _ => None
            end
        | None => None
        end with
  | Some url => Some url
  | None => match h with
            | EmptyString => None
            | String _ rest => parseWWWAuthenticate rest
            end
  end.
Proof. destruct h; reflexivity. Qed.

Lemma parseWWWAuthenticate_sound h url :
  parseWWWAuthenticate h = Some url ->
  url <> EmptyString /\ quoteFree url = true /\
  exists pre post, h = pre +:+ "resource_metadata=" +:+ quoted url +:+ post.
Proof.
  induction h as [|c h IH]; rewrite parseWWWAuthenticate_unfold.
  - simpl. discriminate.
  - destruct (dropPrefix _ (String c h)) as [rest|] eqn:Hd.
    + apply dropPrefix_Some in Hd.
      pose proof (spanNonQuote_spec rest) as Hs.
      destruct (spanNonQuote rest) as [[|x run] [|q tail]].
      * intros H. destruct (IH H) as (H1 & H2 & pre & post & ->).
        split; [exact H1|]. split; [exact H2|]. exists (String c pre), post. reflexivity.
      * intros H. destruct (IH H) as (H1 & H2 & pre & post & ->).
        split; [exact H1|]. split; [exact H2|]. exists (String c pre), post. reflexivity.
      * intros H. destruct (IH H) as (H1 & H2 & pre & post & ->).
        split; [exact H1|]. split; [exact H2|]. exists (String c pre), post. reflexivity.
      * intros H. injection H as <-. destruct Hs as (Hrest & Hq & Ht).
        split; [discriminate|]. split; [exact Hq|].
        destruct Ht as [Ht | (t & Ht)]; [discriminate|]. injection Ht as -> ->.
        exists EmptyString, t. rewrite Hd, Hrest. unfold quoted.
        repeat (rewrite ?append_cons, ?append_nil_l, ?append_assoc'). reflexivity.
    + intros H. destruct (IH H) as (H1 & H2 & pre & post & ->).
      split; [exact H1|]. split; [exact H2|]. exists (String c pre), post. reflexivity.
Qed.


Lemma quoteFree_app a b : quoteFree (a +:+ b) = quoteFree a && quoteFree b.
Proof.
  induction a as [|c a IH]; [reflexivity|].
  rewrite append_cons. simpl. rewrite IH, andb_assoc. reflexivity.
Qed.

Lemma length_append (a b : string) :
  String.length (a +:+ b) = (String.length a + String.length b)%nat.
Proof. induction a as [|c a IH]; [reflexivity|]. rewrite append_cons. simpl. auto. Qed.

Lemma dropPrefix_startsWith p s r : dropPrefix p s = Some r -> startsWith p s = true.
Proof.
  revert s. induction p as [|a p IH]; intros s; simpl; [reflexivity|].
  destruct s as [|b s]; [discriminate|].
  destruct (Ascii.eqb a b); [apply IH | discriminate].
Qed.

Lemma parseWWWAuthenticate_none h :
  includes h ("resource_metadata=" +:+ String dquote EmptyString) = false ->
  parseWWWAuthenticate h = None.
Proof.
  induction h as [|c h IH]; rewrite parseWWWAuthenticate_unfold; [reflexivity|].
  intros Hin. change (includes (String c h) ?p) with (startsWith p (String c h) || includes h p) in Hin.
  apply orb_false_iff in Hin as [Hs Hin].
  destruct (dropPrefix _ (String c h)) as [rest|] eqn:Hd; [|apply IH; exact Hin].
  apply dropPrefix_startsWith in Hd. congruence.
Qed.

Lemma parseWWWAuthenticate_at pre url post :
  quoteFree pre = true -> url <> EmptyString -> quoteFree url = true ->
  parseWWWAuthenticate (pre +:+ "resource_metadata=" +:+ quoted url +:+ post) = Some url.
Proof.
  intros Hpre Hurl Hq.
  induction pre as [|c pre IH]; rewrite parseWWWAuthenticate_unfold.
  - rewrite append_nil_l.
    replace (dropPrefix _ _) with (Some (url +:+ String dquote post)).
    + rewrite (spanNonQuote_app url post Hq). destruct url; [congruence | reflexivity].
    + symmetry. apply dropPrefix_Some. unfold quoted.
      repeat (rewrite ?append_cons, ?append_nil_l, ?append_assoc'). reflexivity.
  - simpl in Hpre. apply andb_true_iff in Hpre as [Hc Hpre].
    destruct (dropPrefix _ _) as [rest|] eqn:Hd.
    + exfalso. apply dropPrefix_Some in Hd.
      assert (H1 : spanNonQuote ((String c pre +:+ "resource_metadata=")
                                 +:+ String dquote (url +:+ String dquote post))
                   = (String c pre +:+ "resource_metadata=",
                      String dquote (url +:+ String dquote post))).
      { apply spanNonQuote_app. rewrite quoteFree_app. simpl. rewrite Hc, Hpre. reflexivity. }
      assert (H2 : spanNonQuote ("resource_metadata=" +:+ String dquote rest)
                   = ("resource_metadata=", String dquote rest))
        by (apply spanNonQuote_app; reflexivity).
      assert (Heq : (String c pre +:+ "resource_metadata=")
                    +:+ String dquote (url +:+ String dquote post)
                    = "resource_metadata=" +:+ String dquote rest).
      { rewrite <- Hd at 1. unfold quoted.
        repeat (rewrite ?append_cons, ?append_nil_l, ?append_assoc'). reflexivity. }
      rewrite Heq, H2 in H1.
      pose proof (f_equal (fun p : string * string => String.length p.1) H1) as Hl.
      cbv beta in Hl. cbn [fst] in Hl. rewrite length_append in Hl. simpl in Hl. lia.
    + rewrite append_cons. apply IH. exact Hpre.
Qed.

(** X23. [parseWWWAuthenticate] answers with the text between the double
    quotes of the first [resource_metadata=] that is followed by a quoted
    value of at least one character: what it returns is never empty, holds
    no double quote, and stands in the header in that form; a header in
    which [resource_metadata=] is nowhere followed by a double quote gives
    [null]; and a header whose first double quote is the one that opens
    the value gives that value. *)
Theorem parseWWWAuthenticate_returns_the_quoted_value :
  forall wwwAuthenticate : string,
    (forall url,
        parseWWWAuthenticate wwwAuthenticate = Some url ->
        url <> EmptyString /\ quoteFree url = true /\
        exists pre post,
          wwwAuthenticate = pre +:+ "resource_metadata=" +:+ quoted url +:+ post) /\
    (includes wwwAuthenticate ("resource_metadata=" +:+ String dquote EmptyString) = false ->
     parseWWWAuthenticate wwwAuthenticate = None) /\
    (forall pre url post,
        wwwAuthenticate = pre +:+ "resource_metadata=" +:+ quoted url +:+ post ->
        quoteFree pre = true -> url <> EmptyString -> quoteFree url = true ->
        parseWWWAuthenticate wwwAuthenticate = Some url).
Proof.
  intros h. split; [apply parseWWWAuthenticate_sound|].
  split; [apply parseWWWAuthenticate_none|].
  intros pre url post ->. apply parseWWWAuthenticate_at.
Qed.

Lemma discoverOAuthEndpoints_steady (R : relation World) `{!PreOrder R}
      `{!IgnoresNetwork R} serverUrl headers :
  (forall url, admits R (Fetched url "GET" [("Accept", "application/json")] None)) ->
  admits R (Fetched serverUrl "GET" (setHeader "Accept" "application/json" headers) None) ->
  steady R (discoverOAuthEndpoints serverUrl headers).
Proof.
  intros H1 H2.
  unfold discoverOAuthEndpoints, fetchResourceMetadata, fetchAuthServerMetadata.
  repeat steady_step; auto.
Qed.

(** X24. Discovery asks the network by GET only and without a body, and
    hands the caller's headers -- which may hold secrets -- to the server
    URL alone: every other request carries nothing but [Accept]. *)
Theorem discovery_keeps_the_headers_for_the_server :
  forall (serverUrl : string) (headers : list (string * string)) (w : World),
    exists more,
      effects (discoverOAuthEndpoints serverUrl headers w).2 = effects w ++ more /\
      Forall (discoveryRequest serverUrl headers) more.
Proof.
  intros serverUrl headers w.
  apply (fun H1 H2 => discoverOAuthEndpoints_steady
                        (adds (discoveryRequest serverUrl headers))
                        serverUrl headers H1 H2 w).
  - intros url. apply adds_admits. simpl. auto.
  - apply adds_admits. simpl. auto.
Qed.

Lemma abind_fulfilled {A B} (m : Async A) (k : A -> Async B) w b w' :
  abind m k w = (Fulfilled b, w') ->
  exists a w1, m w = (Fulfilled a, w1) /\ k a w1 = (Fulfilled b, w').
Proof.
  unfold abind. destruct (m w) as [[a|e|] w1]; try discriminate. eauto.
Qed.

Lemma catch_fulfilled {A} (m : Async A) (h : Thrown -> Async A) w a w' :
  catch m h w = (Fulfilled a, w') ->
  m w = (Fulfilled a, w') \/
  exists e w1, m w = (Rejected e, w1) /\ h e w1 = (Fulfilled a, w').
Proof.
  unfold catch. destruct (m w) as [[a0|e|] w1]; try discriminate; eauto.
Qed.

Lemma lift_fulfilled {A} (c : Completion Thrown A) w a w' :
  lift c w = (Fulfilled a, w') -> c = Normal a /\ w' = w.
Proof. destruct c; simpl; intros H; inversion H; auto. Qed.

Lemma accessTokenOrFail_fulfilled tokens w v w' :
  accessTokenOrFail tokens w = (Fulfilled v, w') -> truthy v = true.
Proof.
  unfold accessTokenOrFail. destruct (truthy (access_token tokens)) eqn:Ht; simpl;
    intros H; inversion H. subst. exact Ht.
Qed.

Lemma getValidAccessToken_fulfilled this ep tp port res w v w' :
  getValidAccessToken this ep tp port res w = (Fulfilled v, w') -> truthy v = true.
Proof.
  unfold getValidAccessToken. intros H.
  apply abind_fulfilled in H as (r & w1 & _ & H).
  destruct (expiredOrMissing r).
  - apply abind_fulfilled in H as (tokens & w2 & _ & H).
    exact (accessTokenOrFail_fulfilled _ _ _ _ H).
  - destruct r as [t|]; [|discriminate].
    exact (accessTokenOrFail_fulfilled _ _ _ _ H).
Qed.

Section Connect.
Variable unlinkError : option Thrown.
Variable md5 : string -> list Byte.byte.
Variable randomUUID : string.
Variable connect : bool -> Utils.TransportKind -> URL -> Async (option OAuthTokens)
                   -> list (string * string) -> Async unit.

Local Abbreviation connectWithNonPkceOAuth :=
  (connectWithNonPkceOAuth unlinkError md5 randomUUID connect).

(** X25. [connectWithNonPkceOAuth] does nothing at all without a client
    id: it fails before any request or file access.  Once the endpoints
    are discovered and the access token obtained, it makes one connection
    attempt -- on the transport the strategy names first, with the token
    provider and with the header [Authorization: Bearer] followed by the
    access token just obtained -- and what the call comes to is decided by
    that attempt alone: the transport if it succeeds; its error if it fails
    for another reason than authorization; and if it fails for want of
    authorization, then after [invalidateTokens] and a new
    [getValidAccessToken] the error "Please retry after
    re-authentication", with no second attempt.  A transport is returned in
    the first case only. *)
Theorem connectWithNonPkceOAuth_makes_one_attempt :
  forall (client : bool) (serverUrl : string) (options : OAuthProviderOptions)
         (staticOAuthClientInfo : option StaticOAuthClientInformation)
         (headers : list (string * string))
         (transportStrategy : Utils.TransportStrategy)
         (authorizeResource : option string) (authTimeoutMs : Z) (w : World),
    let call := connectWithNonPkceOAuth client serverUrl options staticOAuthClientInfo
                  headers transportStrategy authorizeResource authTimeoutMs in
    let transport := Utils.transportOf transportStrategy in
    let prepared endpoints oauthProvider accessToken url w1 w2 :=
      discoverOAuthEndpoints serverUrl headers w = (Fulfilled endpoints, w1) /\
      new_NonPkceOAuthProvider md5 randomUUID options staticOAuthClientInfo
      = Normal oauthProvider /\
      getValidAccessToken oauthProvider
        (ToString (authorizationEndpoint endpoints)) (ToString (tokenEndpoint endpoints))
        (options_callbackPort options) authorizeResource
        (logged ["Obtaining access token..."] w1)
      = (Fulfilled accessToken, w2) /\
      URL_new serverUrl = Some url in
    let attempt endpoints oauthProvider accessToken url w2 :=
      connect client transport url
        (tokens oauthProvider (ToString (tokenEndpoint endpoints)))
        (setHeader "Authorization" ("Bearer " +:+ ToString accessToken) headers)
        (logged ["Access token obtained successfully"] w2) in
    ((staticOAuthClientInfo = None \/
      exists info, staticOAuthClientInfo = Some info /\ client_id info = EmptyString) ->
     call w = (Rejected (Error "Static OAuth client information with client_id is required for non-PKCE OAuth"), w)) /\
    (forall endpoints oauthProvider accessToken url w1 w2,
        prepared endpoints oauthProvider accessToken url w1 w2 ->
        match attempt endpoints oauthProvider accessToken url w2 with
        | (Fulfilled _, w3) =>
            call w = (Fulfilled transport,
                      logged ["Connected to remote server using "
                              +:+ constructorName transport] w3)
        | (Rejected error, w3) =>
            if instanceofError error
               && (includes (message error) "Unauthorized"
                   || includes (message error) "401")
            then
              match abind (invalidateTokens unlinkError oauthProvider)
                          (fun _ => getValidAccessToken oauthProvider
                                      (ToString (authorizationEndpoint endpoints))
                                      (ToString (tokenEndpoint endpoints))
                                      (options_callbackPort options) authorizeResource)
                          (logged ["Unauthorized, invalidating tokens and re-authenticating..."]
                             (logged ["Connection error:"] w3)) with
              | (Fulfilled _, w4) =>
                  call w = (Rejected (Error "Please retry after re-authentication"),
                            logged ["Re-authenticated, please retry the connection"] w4)
              | (Rejected e, w4) => call w = (Rejected e, w4)
              | (Unsettled, w4) => call w = (Unsettled, w4)
              end
            else call w = (Rejected error, logged ["Connection error:"] w3)
        | (Unsettled, w3) => call w = (Unsettled, w3)
        end) /\
    (forall returned w',
        call w = (Fulfilled returned, w') ->
        returned = transport /\
        exists endpoints oauthProvider accessToken url w1 w2 w3,
          prepared endpoints oauthProvider accessToken url w1 w2 /\
          attempt endpoints oauthProvider accessToken url w2 = (Fulfilled tt, w3)).
Proof.
  intros client serverUrl options info headers strategy res timeout w
         call transport prepared attempt.
  split; [|split].
  - intros Hmissing. unfold call, NonPkceConnect.connectWithNonPkceOAuth.
    destruct Hmissing as [-> | (i & -> & ->)]; reflexivity.
  - intros endpoints oauthProvider accessToken url w1 w2 (Hdisc & Hprov & Htoken & Hurl).
    assert (Hinfo : match info with
                    | Some i => String.eqb (client_id i) EmptyString
                    | None => true
                    end = false).
    { unfold new_NonPkceOAuthProvider in Hprov. destruct info as [i|]; [|discriminate].
      destruct (String.eqb (client_id i) EmptyString); [discriminate | reflexivity]. }
    assert (Hcall : forall s w3,
               connect client (Utils.transportOf strategy) url
                 (tokens oauthProvider (ToString (tokenEndpoint endpoints)))
                 (setHeader "Authorization" ("Bearer " +:+ ToString accessToken) headers)
                 (logged ["Access token obtained successfully"] w2) = (s, w3) ->
               call w =
               match s with
               | Fulfilled _ =>
                   (Fulfilled (Utils.transportOf strategy),
                    logged ["Connected to remote server using "
                            +:+ constructorName (Utils.transportOf strategy)] w3)
               | Rejected error =>
                   (if instanceofError error
                       && (includes (message error) "Unauthorized"
                           || includes (message error) "401")
                    then
                      abind
                        (abind (invalidateTokens unlinkError oauthProvider)
                               (fun _ => getValidAccessToken oauthProvider
                                           (ToString (authorizationEndpoint endpoints))
                                           (ToString (tokenEndpoint endpoints))
                                           (options_callbackPort options) res))
                        (fun _ => abind (log "Re-authenticated, please retry the connection")
                                        (fun _ => throw
                                           (Error "Please retry after re-authentication")))
                        (logged ["Unauthorized, invalidating tokens and re-authenticating..."]
                           (logged ["Connection error:"] w3))
                    else (Rejected error, logged ["Connection error:"] w3))
               | Unsettled => (Unsettled, w3)
               end).
    { intros s w3 Hattempt.
      unfold call, NonPkceConnect.connectWithNonPkceOAuth. rewrite Hinfo.
      unfold abind at 1. rewrite Hdisc.
      unfold abind at 1. rewrite Hprov. cbn [lift ret].
      unfold abind at 1. cbn [log].
      unfold abind at 1. unfold logged in Htoken. rewrite Htoken.
      unfold abind at 1. cbn [log]. rewrite Hurl.
      unfold catch at 1. unfold abind at 1.
      unfold logged in Hattempt. rewrite Hattempt.
      destruct s as [[]|error|]; [reflexivity | | reflexivity].
      unfold abind at 1. cbn [log].
      destruct (instanceofError error && _); [|reflexivity].
      unfold abind. cbn [log]. unfold logged.
      destruct (invalidateTokens unlinkError oauthProvider _) as [[[]|e|] w4];
        [|reflexivity|reflexivity].
      destruct (getValidAccessToken _ _ _ _ _ _) as [[v|e|] w5]; reflexivity. }
    unfold attempt, transport.
    specialize (Hcall _ _ (surjective_pairing _)). rewrite Hcall. clear Hcall.
    destruct (connect _ _ _ _ _ _) as [[[]|error|] w3]; cbn [fst snd];
      [reflexivity | | reflexivity].
    destruct (instanceofError error && _); [|reflexivity].
    unfold abind.
    destruct (invalidateTokens unlinkError oauthProvider _) as [[[]|e|] w4];
      [|reflexivity|reflexivity].
    destruct (getValidAccessToken oauthProvider _ _ _ _ w4) as [[v|e|] w5]; reflexivity.
  - intros returned w' H. unfold call, NonPkceConnect.connectWithNonPkceOAuth in H.
    destruct (match info with Some _ => _ | None => _ end); [discriminate|].
    apply abind_fulfilled in H as (endpoints & w1 & Hdisc & H).
    apply abind_fulfilled in H as (oauthProvider & w2 & Hprov & H).
    apply lift_fulfilled in Hprov as [Hprov ->].
    apply abind_fulfilled in H as ([] & w3 & Hlog1 & H).
    injection Hlog1 as <-.
    apply abind_fulfilled in H as (accessToken & w4 & Htoken & H).
    apply abind_fulfilled in H as ([] & w5 & Hlog2 & H).
    injection Hlog2 as <-.
    destruct (URL_new serverUrl) as [url|] eqn:Hurl; [|discriminate].
    apply catch_fulfilled in H as [H | (e & w6 & _ & H)].
    + apply abind_fulfilled in H as ([] & w6 & Hconn & H).
      apply abind_fulfilled in H as ([] & w7 & _ & H).
      inversion H. subst. split; [reflexivity|].
      exists endpoints, oauthProvider, accessToken, url, w1, w4, w6.
      split; [|exact Hconn]. repeat split; assumption.
    + exfalso. apply abind_fulfilled in H as ([] & w7 & _ & H).
      destruct (_ && _); [|discriminate].
      apply abind_fulfilled in H as ([] & w8 & _ & H).
      apply abind_fulfilled in H as ([] & w9 & _ & H).
      apply abind_fulfilled in H as (newAccessToken & w10 & _ & H).
      apply abind_fulfilled in H as ([] & w11 & _ & H).
      discriminate.
Qed.

(** X26. The token provider handed to the transport refreshes only when
    the stored [expires_in] is below zero: a bundle with [expires_in] 0,
    which [getValidAccessToken] takes for expired, is handed out as it
    is.  When the refresh fails the stale bundle is handed out; the
    provider never fails. *)
Theorem token_provider_refreshes_only_below_zero :
  forall (oauthProvider : NonPkceOAuthProvider) (tokenEndpoint : string)
         (w w1 : World) (t : StoredTokens),
    getTokens oauthProvider w = (Fulfilled (Some t), w1) ->
    ((stored_expires_in t = None \/ exists n, stored_expires_in t = Some n /\ 0 <= n) ->
     tokens oauthProvider tokenEndpoint w = (Fulfilled (Some (ofStored t)), w1)) /\
    (forall n, stored_expires_in t = Some n -> n < 0 ->
       tokens oauthProvider tokenEndpoint w =
       match refreshToken oauthProvider tokenEndpoint w1 with
       | (Fulfilled newTokens, w2) => (Fulfilled (Some (refreshed newTokens)), w2)
       | (_, w2) => (Fulfilled (Some (ofStored t)), w2)
       end) /\
    (forall e, (tokens oauthProvider tokenEndpoint w).1 <> Rejected e) /\
    (stored_expires_in t = Some 0 ->
     expiredOrMissing (Some t) = true /\
     tokens oauthProvider tokenEndpoint w = (Fulfilled (Some (ofStored t)), w1)).
Proof.
  intros oauthProvider tokenEndpoint w w1 t Hr.
  assert (Hkeep : (stored_expires_in t = None \/
                   exists n, stored_expires_in t = Some n /\ 0 <= n) ->
                  tokens oauthProvider tokenEndpoint w
                  = (Fulfilled (Some (ofStored t)), w1)).
  { intros Hcase. unfold tokens, abind. rewrite Hr. unfold expiredForRefresh.
    destruct Hcase as [-> | (n & -> & Hn)]; [reflexivity|].
    destruct (Z.eqb_spec n 0) as [->|Hne]; [reflexivity|].
    replace (n <=? 0) with false by (symmetry; apply Z.leb_gt; lia). reflexivity. }
  assert (Hrefresh : forall n, stored_expires_in t = Some n -> n < 0 ->
             tokens oauthProvider tokenEndpoint w =
             match refreshToken oauthProvider tokenEndpoint w1 with
             | (Fulfilled newTokens, w2) => (Fulfilled (Some (refreshed newTokens)), w2)
             | (_, w2) => (Fulfilled (Some (ofStored t)), w2)
             end).
  { intros n Hn Hneg. unfold tokens, abind at 1. rewrite Hr. unfold expiredForRefresh.
    rewrite Hn.
    replace (n =? 0) with false by (symmetry; apply Z.eqb_neq; lia).
    replace (n <=? 0) with true by (symmetry; apply Z.leb_le; lia).
    simpl. unfold catch, abind.
    pose proof (refreshToken_settles oauthProvider tokenEndpoint w1) as Hs.
    destruct (refreshToken oauthProvider tokenEndpoint w1) as [[newTokens|e|] w2];
      [reflexivity | reflexivity | destruct Hs]. }
  split; [exact Hkeep|]. split; [exact Hrefresh|]. split.
  - intros e.
    destruct (stored_expires_in t) as [n|] eqn:Hn.
    + destruct (Z.lt_ge_cases n 0) as [Hneg | Hpos].
      * rewrite (Hrefresh n eq_refl Hneg).
        destruct (refreshToken _ _ _) as [[newTokens|e'|] w2]; discriminate.
      * rewrite Hkeep by (right; exists n; split; [reflexivity | lia]). discriminate.
    + rewrite Hkeep by (left; reflexivity). discriminate.
  - intros H0. split.
    + simpl. rewrite H0. apply orb_true_r.
    + apply Hkeep. right. exists 0. split; [exact H0 | lia].
Qed.

End Connect.

End ConnectFlow.

End WorldLaws.

(** ** The argument loops *)
Section ArgumentLoops.
Import JS Utils CommandLine ArgsSpec.

Lemma list_ind2 {A} (P : list A -> Prop) :
  P [] -> (forall a, P [a]) ->
  (forall a b l, P l -> P (b :: l) -> P (a :: b :: l)) ->
  forall l, P l.
Proof.
  intros H0 H1 H2.
  assert (H : forall l, P l /\ forall a, P (a :: l)).
  { induction l as [|b l [IH1 IH2]]; [auto|].
    split; [apply IH2|]. intros a. apply H2; auto. }
  intros l. apply H.
Qed.

Lemma spanHeaderName_app name tail :
  all isHeaderNameChar name = true ->
  (tail = EmptyString \/ exists c t, tail = String c t /\ isHeaderNameChar c = false) ->
  spanHeaderName (name +:+ tail) = (name, tail).
Proof.
  intros Hname Htail. induction name as [|c name IH].
  - rewrite append_nil_l. destruct Htail as [-> | (c & t & -> & Hc)]; [reflexivity|].
    simpl. rewrite Hc. reflexivity.
  - simpl in Hname. apply andb_true_iff in Hname as [Hc Hname].
    rewrite append_cons. simpl. rewrite Hc, (IH Hname). reflexivity.
Qed.

Lemma spanHeaderName_spec s :
  let (name, tail) := spanHeaderName s in
  s = name +:+ tail /\ all isHeaderNameChar name = true.
Proof.
  induction s as [|c s IH]; simpl; [auto|].
  destruct (isHeaderNameChar c) eqn:Hc; [|auto].
  destruct (spanHeaderName s) as [name tail]. destruct IH as [-> Hn].
  simpl. rewrite Hc, Hn. auto.
Qed.

Lemma trimStart_app blanks text :
  all isWhiteSpace blanks = true ->
  (text = EmptyString \/ exists c t, text = String c t /\ isWhiteSpace c = false) ->
  trimStart (blanks +:+ text) = text.
Proof.
  intros Hb Ht. induction blanks as [|c blanks IH].
  - rewrite append_nil_l. destruct Ht as [-> | (c & t & -> & Hc)]; [reflexivity|].
    simpl. rewrite Hc. reflexivity.
  - simpl in Hb. apply andb_true_iff in Hb as [Hc Hb].
    rewrite append_cons. simpl. rewrite Hc. apply IH. exact Hb.
Qed.

Lemma trimStart_spec s :
  exists blanks,
    s = blanks +:+ trimStart s /\ all isWhiteSpace blanks = true /\
    (trimStart s = EmptyString \/
     exists c t, trimStart s = String c t /\ isWhiteSpace c = false).
Proof.
  induction s as [|c s (blanks & Hs & Hb & Ht)]; simpl.
  - exists EmptyString. auto.
  - destruct (isWhiteSpace c) eqn:Hc.
    + exists (String c blanks). rewrite append_cons, <- Hs. simpl. rewrite Hc, Hb. auto.
    + exists EmptyString. split; [reflexivity|]. split; [reflexivity|]. right. eauto.
Qed.

(** X27. A header argument is taken apart as [name], colon, blanks,
    [text]: the name is one or more of letters, digits, [_] and [-]; the
    blanks after the colon are dropped; the text runs to the end and may
    not hold a line break.  Every such argument is understood that way,
    and nothing else is understood at all. *)
Theorem header_argument_is_name_colon_text :
  forall value : string,
    (forall name blanks text,
        value = name +:+ ":" +:+ blanks +:+ text ->
        name <> EmptyString -> all isHeaderNameChar name = true ->
        all isWhiteSpace blanks = true ->
        (text = EmptyString \/
         exists c t, text = String c t /\ isWhiteSpace c = false) ->
        dotStar text = true ->
        matchHeader value = Some (name, text)) /\
    (forall name text,
        matchHeader value = Some (name, text) ->
        name <> EmptyString /\ all isHeaderNameChar name = true /\
        dotStar text = true /\
        (text = EmptyString \/
         exists c t, text = String c t /\ isWhiteSpace c = false) /\
        exists blanks,
          all isWhiteSpace blanks = true /\
          value = name +:+ ":" +:+ blanks +:+ text).
Proof.
  intros value. split.
  - intros name blanks text -> Hne Hname Hblanks Htext Hdot.
    unfold matchHeader.
    rewrite (spanHeaderName_app name (":" +:+ blanks +:+ text) Hname)
      by (right; exists ":"%char, (blanks +:+ text); split; reflexivity).
    destruct name as [|c name]; [congruence|].
    rewrite append_cons, append_nil_l. simpl.
    rewrite (trimStart_app blanks text Hblanks Htext), Hdot. reflexivity.
  - intros name text. unfold matchHeader.
    pose proof (spanHeaderName_spec value) as Hspan.
    destruct (spanHeaderName value) as [[|c run] [|colon rest]]; try discriminate.
    destruct (Ascii.eqb_spec colon ":") as [->|]; [|discriminate].
    destruct (dotStar (trimStart rest)) eqn:Hdot; [|discriminate].
    intros H. injection H as <- <-. destruct Hspan as [-> Hname].
    destruct (trimStart_spec rest) as (blanks & Hrest & Hb & Ht).
    split; [discriminate|]. split; [exact Hname|]. split; [exact Hdot|].
    split; [exact Ht|]. exists blanks. split; [exact Hb|].
    rewrite Hrest at 1. reflexivity.
Qed.


Lemma onlyLast_cons flag arg args :
  arg <> flag -> onlyLast flag args -> onlyLast flag (arg :: args).
Proof.
  intros Hne H [|i]; simpl.
  - intros Heq. injection Heq as ->. congruence.
  - intros Hi. rewrite (H i Hi). reflexivity.
Qed.

Lemma onlyLast_short flag args : (length args <= 1)%nat -> onlyLast flag args.
Proof.
  intros Hlen [|i] Hi.
  - destruct args as [|a [|b l]]; simpl in *; try discriminate; [reflexivity | lia].
  - destruct args as [|a [|b l]]; simpl in *; try discriminate. lia.
Qed.

Lemma processHeaders_cons arg args headers :
  arg <> "--header" ->
  processHeaders (arg :: args) headers
  = (arg :: (processHeaders args headers).1, (processHeaders args headers).2).
Proof.
  intros Hne. destruct args as [|value rest]; [reflexivity|].
  apply String.eqb_neq in Hne.
  change (processHeaders (arg :: value :: rest) headers)
    with (if String.eqb arg "--header"
          then processHeaders rest (noted value headers)
          else let (args', headers') := processHeaders (value :: rest) headers in
               (arg :: args', headers')).
  rewrite Hne. destruct (processHeaders (value :: rest) headers). reflexivity.
Qed.

Lemma processHeaders_prefix pre value post headers :
  ~ In "--header" pre ->
  processHeaders (pre ++ "--header" :: value :: post) headers
  = (pre ++ (processHeaders post (noted value headers)).1,
     (processHeaders post (noted value headers)).2).
Proof.
  induction pre as [|arg pre IH]; intros Hpre.
  - simpl. unfold noted. destruct (processHeaders post _). reflexivity.
  - rewrite <- app_comm_cons, processHeaders_cons by (intros ->; apply Hpre; left; reflexivity).
    rewrite IH by (intros H; apply Hpre; right; exact H). reflexivity.
Qed.

Lemma setProperty_proto name text headers :
  setProperty name text headers !! "__proto__" = headers !! "__proto__".
Proof.
  unfold setProperty. destruct (String.eqb_spec name "__proto__") as [->|Hne]; [reflexivity|].
  apply lookup_insert_ne. exact Hne.
Qed.

Lemma processHeaders_spec args :
  forall headers,
    onlyLast "--header" (processHeaders args headers).1 /\
    processHeaders (processHeaders args headers).1 (processHeaders args headers).2
    = processHeaders args headers /\
    (processHeaders args headers).2 !! "__proto__" = headers !! "__proto__" /\
    sublist (processHeaders args headers).1 args.
Proof.
  induction args as [| a | a b l IHl IHbl] using list_ind2; intros headers.
  - split; [apply onlyLast_short; simpl; lia|]. repeat split. constructor.
  - split; [apply onlyLast_short; simpl; lia|]. repeat split. reflexivity.
  - destruct (String.eqb_spec a "--header") as [->|Hne].
    + change (processHeaders ("--header" :: b :: l) headers)
        with (processHeaders l (noted b headers)).
      destruct (IHl (noted b headers)) as (H1 & H2 & H3 & H4). unfold noted in *.
      split; [exact H1|]. split; [exact H2|]. split.
      * rewrite H3. destruct (matchHeader b) as [[name text]|]; [|reflexivity].
        apply setProperty_proto.
      * apply sublist_cons, sublist_cons. exact H4.
    + rewrite (processHeaders_cons a (b :: l) headers Hne).
      destruct (IHbl headers) as (H1 & H2 & H3 & H4).
      cbn [fst snd].
      split; [apply onlyLast_cons; assumption|]. split; [|split; [exact H3|]].
      * rewrite processHeaders_cons by exact Hne. rewrite H2. reflexivity.
      * apply sublist_skip. exact H4.
Qed.

(** X28. The [--header] loop takes every [--header] that has an argument
    after it out of the argument list, together with that argument, also
    a pair that only comes to stand together when one before it has been
    taken out: afterwards [--header] stands at most in the last place, the
    other arguments are left in their order, and the loop run again would
    change nothing.  An argument before the first [--header] stays where
    it is, and the rest is handled with the header noted.  A header named
    [__proto__] is never recorded. *)
Theorem header_loop_takes_every_pair_out :
  forall (args : list string) (headers : gmap string string),
    let args' := (processHeaders args headers).1 in
    let headers' := (processHeaders args headers).2 in
    onlyLast "--header" args' /\
    sublist args' args /\
    processHeaders args' headers' = (args', headers') /\
    headers' !! "__proto__" = headers !! "__proto__" /\
    (forall pre value post,
        args = pre ++ "--header" :: value :: post -> ~ In "--header" pre ->
        args' = pre ++ (processHeaders post (noted value headers)).1 /\
        headers' = (processHeaders post (noted value headers)).2).
Proof.
  intros args headers args' headers'. subst args' headers'.
  destruct (processHeaders_spec args headers) as (H1 & H2 & H3 & H4).
  split; [exact H1|]. split; [exact H4|]. split.
  - rewrite H2. destruct (processHeaders args headers). reflexivity.
  - split; [exact H3|].
    intros pre value post -> Hpre. rewrite processHeaders_prefix by exact Hpre. auto.
Qed.

Lemma parseIgnoredTools_cons arg args :
  arg <> "--ignore-tool" ->
  parseIgnoredTools (arg :: args)
  = (arg :: (parseIgnoredTools args).1, (parseIgnoredTools args).2).
Proof.
  intros Hne. destruct args as [|value rest]; [reflexivity|].
  apply String.eqb_neq in Hne.
  change (parseIgnoredTools (arg :: value :: rest))
    with (if String.eqb arg "--ignore-tool"
          then let (args', ignoredTools) := parseIgnoredTools rest in
               (args', value :: ignoredTools)
          else let (args', ignoredTools) := parseIgnoredTools (value :: rest) in
               (arg :: args', ignoredTools)).
  rewrite Hne. destruct (parseIgnoredTools (value :: rest)). reflexivity.
Qed.

Lemma parseIgnoredTools_prefix pre toolName post :
  ~ In "--ignore-tool" pre ->
  parseIgnoredTools (pre ++ "--ignore-tool" :: toolName :: post)
  = (pre ++ (parseIgnoredTools post).1, toolName :: (parseIgnoredTools post).2).
Proof.
  induction pre as [|arg pre IH]; intros Hpre.
  - simpl. destruct (parseIgnoredTools post). reflexivity.
  - rewrite <- app_comm_cons, parseIgnoredTools_cons
      by (intros ->; apply Hpre; left; reflexivity).
    rewrite IH by (intros H; apply Hpre; right; exact H). reflexivity.
Qed.

Lemma parseIgnoredTools_spec args :
  onlyLast "--ignore-tool" (parseIgnoredTools args).1 /\
  parseIgnoredTools (parseIgnoredTools args).1 = ((parseIgnoredTools args).1, []) /\
  (length args
   = length (parseIgnoredTools args).1 + 2 * length (parseIgnoredTools args).2)%nat /\
  sublist (parseIgnoredTools args).1 args /\
  sublist (parseIgnoredTools args).2 args.
Proof.
  induction args as [| a | a b l IHl IHbl] using list_ind2.
  - split; [apply onlyLast_short; simpl; lia|]. repeat split; constructor.
  - split; [apply onlyLast_short; simpl; lia|]. repeat split.
    + reflexivity.
    + apply sublist_nil_l.
  - destruct (String.eqb_spec a "--ignore-tool") as [->|Hne].
    + change (parseIgnoredTools ("--ignore-tool" :: b :: l))
        with (let (args', ignoredTools) := parseIgnoredTools l in
              (args', b :: ignoredTools)).
      destruct IHl as (H1 & H2 & H3 & H4 & H5).
      destruct (parseIgnoredTools l) as [args' tools]. cbn [fst snd] in *.
      split; [exact H1|]. split; [exact H2|]. split; [simpl; lia|]. split.
      * apply sublist_cons, sublist_cons. exact H4.
      * apply sublist_cons, sublist_skip. exact H5.
    + rewrite (parseIgnoredTools_cons a (b :: l) Hne).
      destruct IHbl as (H1 & H2 & H3 & H4 & H5). cbn [fst snd].
      split; [apply onlyLast_cons; assumption|]. split; [|split; [|split]].
      * rewrite parseIgnoredTools_cons by exact Hne. rewrite H2. reflexivity.
      * simpl in *. lia.
      * apply sublist_skip. exact H4.
      * apply sublist_cons. exact H5.
Qed.

(** X29. The [--ignore-tool] loop collects the argument after every
    [--ignore-tool], in the order given, and takes each pair out of the
    argument list: two arguments go for every pattern collected,
    [--ignore-tool] is left at most in the last place, and the loop run
    again would find nothing.  Arguments before the first [--ignore-tool]
    stay, and its pattern comes first. *)
Theorem ignore_tool_loop_collects_every_pattern :
  forall args : list string,
    let args' := (parseIgnoredTools args).1 in
    let ignoredTools := (parseIgnoredTools args).2 in
    onlyLast "--ignore-tool" args' /\
    sublist args' args /\ sublist ignoredTools args /\
    (length args = length args' + 2 * length ignoredTools)%nat /\
    parseIgnoredTools args' = (args', []) /\
    (forall pre toolName post,
        args = pre ++ "--ignore-tool" :: toolName :: post ->
        ~ In "--ignore-tool" pre ->
        args' = pre ++ (parseIgnoredTools post).1 /\
        ignoredTools = toolName :: (parseIgnoredTools post).2).
Proof.
  intros args args' ignoredTools. subst args' ignoredTools.
  destruct (parseIgnoredTools_spec args) as (H1 & H2 & H3 & H4 & H5).
  repeat (split; [assumption|]).
  intros pre toolName post -> Hpre. rewrite parseIgnoredTools_prefix by exact Hpre. auto.
Qed.

Lemma indexOf_prefix flag pre post :
  ~ In flag pre -> indexOf flag (pre ++ flag :: post) = Some (length pre).
Proof.
  induction pre as [|arg pre IH]; intros Hpre; simpl.
  - rewrite String.eqb_refl. reflexivity.
  - destruct (String.eqb_spec arg flag) as [->|Hne]; [destruct Hpre; left; reflexivity|].
    rewrite IH by (intros H; apply Hpre; right; exact H). reflexivity.
Qed.

Lemma indexOf_absent flag args : ~ In flag args -> indexOf flag args = None.
Proof.
  induction args as [|arg args IH]; intros Hin; simpl; [reflexivity|].
  destruct (String.eqb_spec arg flag) as [->|Hne]; [destruct Hin; left; reflexivity|].
  rewrite IH by (intros H; apply Hin; right; exact H). reflexivity.
Qed.

Lemma flagValue_first flag pre value post :
  ~ In flag pre -> flagValue flag (pre ++ flag :: value :: post) = Some value.
Proof.
  intros Hpre. unfold flagValue. rewrite indexOf_prefix by exact Hpre.
  rewrite length_app. simpl.
  replace (length pre <? length pre + S (S (length post)) - 1)%nat with true
    by (symmetry; apply Nat.ltb_lt; lia).
  rewrite lookup_app_r by lia.
  replace (S (length pre) - length pre)%nat with 1%nat by lia. reflexivity.
Qed.

Lemma flagValue_last flag pre :
  ~ In flag pre -> flagValue flag (pre ++ [flag]) = None.
Proof.
  intros Hpre. unfold flagValue. rewrite indexOf_prefix by exact Hpre.
  rewrite length_app. simpl.
  replace (length pre <? length pre + 1 - 1)%nat with false
    by (symmetry; apply Nat.ltb_ge; lia).
  reflexivity.
Qed.

(** X30. The transport strategy and the callback host are read off the
    first [--transport] and the first [--host], each flag for itself: the
    argument after the first occurrence decides, whatever stands before
    and after it, and when the flag is missing or its first occurrence is
    the last argument the default stands ([http-first], [localhost]).  A
    [--transport] argument that names no strategy gives [http-first], a
    later [--transport] notwithstanding.  The argument after a flag is
    taken as it is, a flag too. *)
Theorem valued_flags_are_read_off_their_first_occurrence :
  forall args : list string,
    (~ In "--transport" args -> parseTransportStrategy args = http_first) /\
    (forall pre,
        args = pre ++ ["--transport"] -> ~ In "--transport" pre ->
        parseTransportStrategy args = http_first) /\
    (forall pre value post,
        args = pre ++ "--transport" :: value :: post -> ~ In "--transport" pre ->
        parseTransportStrategy args
        = (if String.eqb value "sse-only" then sse_only
           else if String.eqb value "http-only" then http_only
           else if String.eqb value "sse-first" then sse_first
           else http_first)) /\
    (~ In "--host" args -> parseHost args = "localhost") /\
    (forall pre,
        args = pre ++ ["--host"] -> ~ In "--host" pre -> parseHost args = "localhost") /\
    (forall pre value post,
        args = pre ++ "--host" :: value :: post -> ~ In "--host" pre ->
        parseHost args = value).
Proof.
  intros args. unfold parseTransportStrategy, parseHost.
  split; [|split; [|split; [|split; [|split]]]].
  - intros Hnone. unfold flagValue. rewrite indexOf_absent by exact Hnone. reflexivity.
  - intros pre -> Hpre. rewrite flagValue_last by exact Hpre. reflexivity.
  - intros pre value post -> Hpre. rewrite flagValue_first by exact Hpre.
    destruct (String.eqb value "sse-only"); [reflexivity|].
    destruct (String.eqb value "http-only"); [reflexivity|].
    destruct (String.eqb value "sse-first"); [reflexivity|].
    destruct (String.eqb value "http-first"); reflexivity.
  - intros Hnone. unfold flagValue. rewrite indexOf_absent by exact Hnone. reflexivity.
  - intros pre -> Hpre. rewrite flagValue_last by exact Hpre. reflexivity.
  - intros pre value post -> Hpre. rewrite flagValue_first by exact Hpre. reflexivity.
Qed.

End ArgumentLoops.

(** ** Further scenarios *)
Section MoreScenarios.
Import JS Node McpAuthConfig OAuthProvider OAuthConnect Fixture.

Local Abbreviation authorize := "https://auth.example/authorize".
Local Abbreviation token := "https://auth.example/token".

(** A pattern with a dot and no star: the dot stands for itself. *)
Lemma literal_pattern_excludes_exactly_its_name_witness :
  includes "get.user" "*" = false /\
  Utils.shouldIncludeTool (Some ["get.user"]) "GET.User" = Normal false /\
  Utils.shouldIncludeTool (Some ["get.user"]) "getXuser" = Normal true.
Proof.
  split; [reflexivity|]. split.
  - apply (proj1 (literal_pattern_excludes_exactly_its_name "get.user" "GET.User" eq_refl)).
    reflexivity.
  - apply (proj2 (literal_pattern_excludes_exactly_its_name "get.user" "getXuser" eq_refl)).
    vm_compute. discriminate.
Defined.

(** Scenario 3, the listing, through the response transformer. *)
Lemma tools_list_answer_keeps_the_included_tools_witness :
  let req := ProxySpec.toolsListRequest (Some (Utils.IdNum 2)) in
  let res := ProxySpec.toolsListResponse (Some (Utils.IdNum 2))
               ["createTask"; "deleteTask"; "getAccount"; "listTasks"] in
  Utils.method req = Some "tools/list" /\
  exists res',
    Utils.transformResponseFunction ["delete*"; "*account"] (Some req) res = Normal res' /\
    getProp (Utils.result res') "tools"
    = Normal (VArr [ProxySpec.tool "createTask"; ProxySpec.tool "listTasks"]).
Proof.
  split; [reflexivity|].
  destruct (tools_list_answer_keeps_the_included_tools ["delete*"; "*account"]
              (ProxySpec.toolsListRequest (Some (Utils.IdNum 2)))
              (ProxySpec.toolsListResponse (Some (Utils.IdNum 2))
                 ["createTask"; "deleteTask"; "getAccount"; "listTasks"])
              [("tools", VArr (map ProxySpec.tool
                                   ["createTask"; "deleteTask"; "getAccount"; "listTasks"]))]
              (map ProxySpec.tool ["createTask"; "deleteTask"; "getAccount"; "listTasks"])
              eq_refl eq_refl eq_refl)
    as (res' & Hrun & Htools & _).
  - repeat constructor; discriminate.
  - exists res'. split; [exact Hrun|]. exact Htools.
Defined.

(** A second answer to the same [tools/list] request is lost. *)
Lemma server_message_without_pending_request_is_dropped_witness :
  let request := ProxySpec.toolsListRequest (Some (Utils.IdNum 2)) in
  let answer := ProxySpec.toolsListResponse (Some (Utils.IdNum 2)) ["createTask"] in
  Utils.truthyId (Utils.id answer) = Some (Utils.IdNum 2) /\
  Utils.wire (Utils.run "0.1.0" []
                [Utils.ClientMessage request; Utils.ServerMessage answer;
                 Utils.ServerMessage answer])
  = [Utils.SendToServer request; Utils.SendToClient answer].
Proof.
  split; [reflexivity|].
  refine (eq_trans
            (proj2 (server_message_without_pending_request_is_dropped "0.1.0" []
                      [Utils.ClientMessage (ProxySpec.toolsListRequest (Some (Utils.IdNum 2)))]
                      (ProxySpec.toolsListResponse (Some (Utils.IdNum 2)) ["createTask"])
                      (ProxySpec.toolsListResponse (Some (Utils.IdNum 2)) ["createTask"])
                      (Utils.IdNum 2) eq_refl) eq_refl) _).
  vm_compute. reflexivity.
Defined.

(** The server answers a [tools/list] request with a JSON-RPC error. *)
Lemma tools_list_answer_without_tools_is_dropped_witness :
  let request := ProxySpec.toolsListRequest (Some (Utils.IdNum 2)) in
  let failure := {| Utils.jsonrpc := "2.0"; Utils.id := Some (Utils.IdNum 2);
                    Utils.method := None; Utils.params := VUndefined;
                    Utils.result := VUndefined;
                    Utils.error := VObj [("code", VNum (-32601));
                                         ("message", VStr "Method not found")] |} in
  Utils.pendingRequests (Utils.run "0.1.0" [] [Utils.ClientMessage request])
    !! Utils.IdNum 2 = Some request /\
  Utils.wire (Utils.run "0.1.0" [] [Utils.ClientMessage request; Utils.ServerMessage failure])
  = [Utils.SendToServer request].
Proof.
  assert (Hpending :
            Utils.pendingRequests
              (Utils.run "0.1.0" []
                 [Utils.ClientMessage (ProxySpec.toolsListRequest (Some (Utils.IdNum 2)))])
              !! Utils.IdNum 2
            = Some (ProxySpec.toolsListRequest (Some (Utils.IdNum 2))))
    by (vm_compute; reflexivity).
  split; [exact Hpending|].
  refine (eq_trans
            (proj1 (tools_list_answer_without_tools_is_dropped "0.1.0" []
                      (Utils.run "0.1.0" []
                         [Utils.ClientMessage
                            (ProxySpec.toolsListRequest (Some (Utils.IdNum 2)))])
                      (ProxySpec.toolsListRequest (Some (Utils.IdNum 2)))
                      {| Utils.jsonrpc := "2.0"; Utils.id := Some (Utils.IdNum 2);
                         Utils.method := None; Utils.params := VUndefined;
                         Utils.result := VUndefined;
                         Utils.error := VObj [("code", VNum (-32601));
                                              ("message", VStr "Method not found")] |}
                      (Utils.IdNum 2) eq_refl Hpending eq_refl _)) _).
  - intros items. discriminate.
  - vm_compute. reflexivity.
Defined.

(** An [initialize] of a client that calls itself [editor]. *)
Lemma initialize_marks_the_client_name_witness :
  let request := {| Utils.jsonrpc := "2.0"; Utils.id := Some (Utils.IdNum 1);
                    Utils.method := Some "initialize";
                    Utils.params := VObj [("protocolVersion", VStr "2025-03-26");
                                          ("clientInfo", VObj [("name", VStr "editor");
                                                               ("version", VStr "1.0")])];
                    Utils.result := VUndefined; Utils.error := VUndefined |} in
  Utils.method request = Some "initialize" /\
  exists fields' info',
    Utils.wire (Utils.run "0.1.0" ["delete*"] [Utils.ClientMessage request])
    = [Utils.SendToServer
         {| Utils.jsonrpc := "2.0"; Utils.id := Some (Utils.IdNum 1);
            Utils.method := Some "initialize"; Utils.params := VObj fields';
            Utils.result := VUndefined; Utils.error := VUndefined |}] /\
    assoc "clientInfo" fields' = VObj info' /\
    assoc "name" info' = VStr "editor (via mcp-remote 0.1.0)" /\
    assoc "version" info' = VStr "1.0" /\
    assoc "protocolVersion" fields' = VStr "2025-03-26".
Proof.
  split; [reflexivity|].
  destruct (proj1 (initialize_marks_the_client_name "0.1.0" ["delete*"] Utils.mcpProxy
                     {| Utils.jsonrpc := "2.0"; Utils.id := Some (Utils.IdNum 1);
                        Utils.method := Some "initialize";
                        Utils.params := VObj [("protocolVersion", VStr "2025-03-26");
                                              ("clientInfo", VObj [("name", VStr "editor");
                                                                   ("version", VStr "1.0")])];
                        Utils.result := VUndefined; Utils.error := VUndefined |}
                     eq_refl)
              [("protocolVersion", VStr "2025-03-26");
               ("clientInfo", VObj [("name", VStr "editor"); ("version", VStr "1.0")])]
              [("name", VStr "editor"); ("version", VStr "1.0")] eq_refl eq_refl)
    as (fields' & info' & Hwire & Hinfo & Hname & Hother & Hfields).
  exists fields', info'.
  split; [exact Hwire|]. split; [exact Hinfo|]. split; [exact Hname|].
  split.
  - rewrite Hother by discriminate. reflexivity.
  - rewrite Hfields by discriminate. reflexivity.
Defined.

(** [sse-only] in front of a remote that wants authorization every time:
    both attempts are on SSE. *)
Lemma only_strategy_stays_on_its_transport_witness :
  exists r n,
    Utils.connectToRemoteServer true RetrySpec.alwaysUnauthorized 3 0 Utils.sse_only ∅ []
    = Some r /\
    Utils.attempted r = repeat Utils.SSEClientTransport (S n) /\
    Utils.REASON_TRANSPORT_FALLBACK ∉ Utils.reasonsAfter r.
Proof.
  destruct (Utils.connectToRemoteServer true RetrySpec.alwaysUnauthorized 3 0
              Utils.sse_only ∅ []) as [r|] eqn:Hrun; [|discriminate].
  destruct (only_strategy_stays_on_its_transport true RetrySpec.alwaysUnauthorized 3 0
              Utils.sse_only ∅ [] r (or_introl eq_refl) Hrun) as (n & Htried & Hreason).
  exists r, n. split; [reflexivity|]. split; [exact Htried|].
  intros Hin. apply Hreason in Hin. set_solver.
Defined.

(** A remote that answers [Unauthorized] before and after the
    authorization. *)
Lemma second_authorization_demand_gives_up_witness :
  Utils.connectToRemoteServer true RetrySpec.alwaysUnauthorized 2 0 Utils.http_first ∅ []
  = Some {| Utils.outcome := Utils.Threw (Error "Already attempted reconnection for reason: authentication-needed. Giving up.");
            Utils.reasonsAfter := {[Utils.REASON_AUTH_NEEDED]} ∪ ∅;
            Utils.attempted := [Utils.StreamableHTTPClientTransport;
                                Utils.StreamableHTTPClientTransport] |}.
Proof.
  refine (second_authorization_demand_gives_up true RetrySpec.alwaysUnauthorized 0 0
            Utils.http_first ∅ [] (Error "Unauthorized") (Error "Unauthorized")
            false false "code" "code" _ eq_refl eq_refl eq_refl eq_refl eq_refl
            eq_refl eq_refl eq_refl eq_refl eq_refl).
  set_solver.
Defined.

(** The stored bundle is gone after [invalidateTokens]. *)
Lemma deleted_file_reads_as_absent_witness :
  let w := Fixture.world (Some Fixture.issuedBundle) [] in
  files (fs w) !! tokensFile = Some (Content (stringify issuedBundle)) /\
  exists w',
    ProviderLifecycle.invalidateTokens None Fixture.provider w = (Fulfilled tt, w') /\
    getTokens Fixture.provider w' = (Fulfilled None, w').
Proof.
  split; [vm_compute; reflexivity|].
  exact (proj1 (proj2 (deleted_file_reads_as_absent None StoredTokens OAuthTokensSchema
                         Fixture.provider (serverUrlHash Fixture.provider) "tokens.json"
                         (Fixture.world (Some Fixture.issuedBundle) []) eq_refl eq_refl))).
Defined.

(** A bundle written into an empty store and read back through the
    schema. *)
Lemma writeJsonFile_readJsonFile_round_trip_witness :
  exists w',
    writeJsonFile (serverUrlHash Fixture.provider) "tokens.json" issuedBundle
                  (Fixture.world None [])
    = (Fulfilled tt, w') /\
    readJsonFile (serverUrlHash Fixture.provider) "tokens.json" OAuthTokensSchema w'
    = (Fulfilled (Some (mkStoredTokens "T" "Bearer" (Some 3600) None None)), w').
Proof.
  destruct (writeJsonFile_readJsonFile_round_trip StoredTokens OAuthTokensSchema
              (serverUrlHash Fixture.provider) "tokens.json" issuedBundle
              (Fixture.world None []) eq_refl eq_refl)
    as (w' & Hwrite & _ & Hread & _).
  exists w'. split; [exact Hwrite|].
  apply (Hread issuedBundle); vm_compute; reflexivity.
Defined.

(** The lock of process 4711 on port 3334. *)
Lemma createLockfile_checkLockfile_round_trip_witness :
  exists w',
    @ConfigFiles.createLockfile LockFixture.runtime 1700000000000
      (serverUrlHash Fixture.provider) 4711 3334 (Fixture.world None [])
    = (Fulfilled tt, w') /\
    @checkLockfile LockFixture.runtime (serverUrlHash Fixture.provider) w'
    = (Fulfilled (Some {| pid := 4711; port := 3334; timestamp := 1700000000000 |}), w').
Proof.
  apply (@createLockfile_checkLockfile_round_trip LockFixture.runtime 1700000000000 4711 3334
           (serverUrlHash Fixture.provider) (Fixture.world None []) eq_refl eq_refl).
  vm_compute. reflexivity.
Defined.

(** Scenario 2, the interactive authorization: the callback server is
    closed at the end. *)
Lemma startAuthorization_closes_the_callback_server_witness :
  let w := Fixture.world None [Normal (response 200 [] issuedBundle)] in
  let r := startAuthorization Fixture.provider authorize token 3334 None w in
  callbackServer w = false /\
  (exists tokens, r.1 = Fulfilled tokens) /\
  callbackServer r.2 = false /\
  exists more, effects r.2 = Listening 3334 :: more ++ [CallbackServerClosed].
Proof.
  split; [reflexivity|].
  pose proof (startAuthorization_closes_the_callback_server Fixture.provider authorize token
                3334 None (Fixture.world None [Normal (response 200 [] issuedBundle)])
                eq_refl) as H.
  destruct (startAuthorization Fixture.provider authorize token 3334 None
              (Fixture.world None [Normal (response 200 [] issuedBundle)]))
    as [s w'] eqn:Hrun.
  assert (Hs : exists tokens, s = Fulfilled tokens).
  { apply (f_equal fst) in Hrun. vm_compute in Hrun. rewrite <- Hrun. eexists. reflexivity. }
  split; [exact Hs|].
  destruct Hs as [tokens ->]. destruct H as [Hclosed Heffects].
  split; [exact Hclosed|].
  destruct Heffects as [Hsame | (more & Hmore & _)].
  - apply (f_equal snd) in Hrun. apply (f_equal effects) in Hrun.
    vm_compute in Hrun. vm_compute in Hsame. rewrite <- Hrun in Hsame. discriminate.
  - exists more. exact Hmore.
Defined.

(** A stored bundle with an hour left is handed back. *)
Lemma startAuthorization_reuses_only_tokens_with_time_left_witness :
  let w := Fixture.world (Some Fixture.issuedBundle) [] in
  let t := mkStoredTokens "T" "Bearer" (Some 3600) None None in
  getTokens Fixture.provider w = (Fulfilled (Some t), w) /\
  startAuthorization Fixture.provider authorize token 3334 None w
  = (Fulfilled (ofStored t), w).
Proof.
  assert (H : getTokens Fixture.provider (Fixture.world (Some Fixture.issuedBundle) [])
              = (Fulfilled (Some (mkStoredTokens "T" "Bearer" (Some 3600) None None)),
                 Fixture.world (Some Fixture.issuedBundle) []))
    by (vm_compute; reflexivity).
  split; [exact H|].
  refine (proj1 (startAuthorization_reuses_only_tokens_with_time_left Fixture.provider
                   authorize token 3334 None _ _ _ H)
            (mkStoredTokens "T" "Bearer" (Some 3600) None None) 3600
            eq_refl _ eq_refl _).
  - discriminate.
  - lia.
Defined.

(** A valid bundle is thrown away by [invalidateTokens]: the next call
    authorizes anew. *)
Lemma invalidateTokens_forces_a_new_authorization_witness :
  let w := Fixture.world (Some Fixture.issuedBundle)
             [Normal (response 200 [] rotatedBundle)] in
  (getValidAccessToken Fixture.provider authorize token 3334 None w).1
  = Fulfilled (VStr "T") /\
  effects (getValidAccessToken Fixture.provider authorize token 3334 None w).2 = [] /\
  exists w1,
    ProviderLifecycle.invalidateTokens None Fixture.provider w = (Fulfilled tt, w1) /\
    getValidAccessToken Fixture.provider authorize token 3334 None w1
    = ClientSpec.fullAuthorization Fixture.provider authorize token 3334 None w1.
Proof.
  split; [vm_compute; reflexivity|]. split; [vm_compute; reflexivity|].
  destruct (invalidateTokens_forces_a_new_authorization Fixture.provider None authorize token
              3334 None
              (Fixture.world (Some Fixture.issuedBundle)
                 [Normal (response 200 [] rotatedBundle)]) eq_refl eq_refl)
    as (w1 & Hdel & _ & Hnext).
  exists w1. split; [exact Hdel | exact Hnext].
Defined.

(** A bundle with [expires_in] 0 and a refresh token: expired for
    [getValidAccessToken], handed out unrefreshed by the token provider. *)
Lemma token_provider_refreshes_only_below_zero_witness :
  let w := Fixture.world (Some Fixture.refreshableBundle)
             [Normal (response 200 [] rotatedBundle)] in
  let t := mkStoredTokens "T0" "Bearer" (Some 0) (Some "R0") None in
  getTokens Fixture.provider w = (Fulfilled (Some t), w) /\
  expiredOrMissing (Some t) = true /\
  NonPkceConnect.tokens Fixture.provider token w = (Fulfilled (Some (ofStored t)), w).
Proof.
  assert (H : getTokens Fixture.provider
                (Fixture.world (Some Fixture.refreshableBundle)
                   [Normal (response 200 [] rotatedBundle)])
              = (Fulfilled (Some (mkStoredTokens "T0" "Bearer" (Some 0) (Some "R0") None)),
                 Fixture.world (Some Fixture.refreshableBundle)
                   [Normal (response 200 [] rotatedBundle)]))
    by (vm_compute; reflexivity).
  split; [exact H|].
  exact (proj2 (proj2 (proj2
           (token_provider_refreshes_only_below_zero Fixture.provider token _ _ _ H)))
           eq_refl).
Defined.

(** A server that answers the one attempt with 401: the stored token is
    sent, the tokens are invalidated and new ones obtained from the user,
    and the call fails with "Please retry after re-authentication". *)
Lemma connectWithNonPkceOAuth_makes_one_attempt_witness :
  let md5 := fun _ : string =>
    [Byte.xff; Byte.x00; Byte.x01; Byte.x02; Byte.x03; Byte.x04; Byte.x05; Byte.x06;
     Byte.x07; Byte.x08; Byte.x09; Byte.x0a; Byte.x0b; Byte.x0c; Byte.x0d; Byte.x0e] in
  let refuse := fun (_ : bool) (_ : Utils.TransportKind) (_ : URL)
                    (_ : Async (option OAuthTokens)) (_ : list (string * string)) =>
                  @throw unit (Error "HTTP 401") in
  let w := Fixture.world (Some Fixture.issuedBundle)
             [JS.Throw (TypeError "fetch failed");
              JS.Normal (Fixture.response 200 [] Fixture.rotatedBundle)] in
  let call := NonPkceConnect.connectWithNonPkceOAuth None md5 "c0ffee" refuse false
                "https://r.example/mcp"
                (ProviderLifecycle.mkOptions "https://r.example/mcp" 3334 "localhost" None)
                (Some (ProviderLifecycle.mkStaticInfo "A" (Some "B")))
                [] Utils.http_first None 30000 w in
  call.1 = Rejected (Error "Please retry after re-authentication").
Proof.
  intros md5 refuse w call.
  pose proof (connectWithNonPkceOAuth_makes_one_attempt None md5 "c0ffee" refuse false
                "https://r.example/mcp"
                (ProviderLifecycle.mkOptions "https://r.example/mcp" 3334 "localhost" None)
                (Some (ProviderLifecycle.mkStaticInfo "A" (Some "B")))
                [] Utils.http_first None 30000 w) as H.
  cbv zeta in H. destruct H as (_ & Hattempt & _).
  fold call in Hattempt. clearbody call.
  unshelve epose proof (Hattempt _ _ _ _ _ _ _) as H; cycle 6.
  { split; [vm_compute; reflexivity|]. split; [vm_compute; reflexivity|].
    split; [vm_compute; reflexivity | reflexivity]. }
  vm_compute in H. rewrite H. reflexivity.
Defined.

(** [npx mcp-remote URL 3334 --host --transport sse-only --host h]: the
    host is [--transport], and the strategy [sse-only] all the same. *)
Lemma valued_flags_are_read_off_their_first_occurrence_witness :
  let args := ["https://r.example/mcp"; "3334"; "--host"; "--transport"; "sse-only";
               "--host"; "h"] in
  CommandLine.parseHost args = "--transport" /\
  CommandLine.parseTransportStrategy args = Utils.sse_only.
Proof.
  pose proof (valued_flags_are_read_off_their_first_occurrence
                ["https://r.example/mcp"; "3334"; "--host"; "--transport"; "sse-only";
                 "--host"; "h"]) as (_ & _ & Hstrategy & _ & _ & Hhost).
  split.
  - apply (Hhost ["https://r.example/mcp"; "3334"] "--transport"
                 ["sse-only"; "--host"; "h"] eq_refl).
    simpl. intros [H|[H|[]]]; discriminate H.
  - apply (Hstrategy ["https://r.example/mcp"; "3334"; "--host"] "sse-only"
                     ["--host"; "h"] eq_refl).
    simpl. intros [H|[H|[H|[]]]]; discriminate H.
Defined.

End MoreScenarios.
